(** * vibe-draw: the result-wait protocol, the orchestrators and the code sanitizer

    A shallow embedding of
      - [frontend/app/lib/improveDrawing.tsx] ([improveDrawing],
        [waitForImageGeneration], [vibe3DCode], [waitForCodeGeneration],
        [waitForTaskResult], [processThreeJsCode]),
      - [frontend/app/lib/edit3DCode.tsx] ([edit3DCode],
        [waitForCodeEditing], [processThreeJsCode], which is the same
        function as in the first file) and
      - the shape util of the preview element, [Model3DPreviewShapeUtil]
        ([getDefaultProps], the document and the frame of [component],
        [toSvg]).

    The host editor, the export pipeline and the remote service are not
    part of the program; they enter as a [world] of answers, each of which
    may also fail or never come.  Console output is left out.

    JavaScript strings are sequences of UTF-16 code units, modelled as
    [list N].  Regular expressions are kept as data and run by a
    backtracking matcher that follows the priority order of ECMAScript
    (greedy before short, lazy before long, leftmost start first).
    Numbers are IEEE 754 doubles, the primitive floats of the kernel. *)

From Stdlib Require Import NArith PrimFloat String Ascii List Lia.
From stdpp Require Import base option list gmap.
Import ListNotations.

Local Open Scope N_scope.
Local Open Scope list_scope.

(* ===================================================================== *)
(** ** JavaScript strings *)
(* ===================================================================== *)

Abbreviation jsstring := (list N).

(** An ASCII literal as a JavaScript string. *)
Definition js (s : string) : jsstring :=
  map N_of_ascii (list_ascii_of_string s).
Arguments js : simpl never.

Definition nl : N := 10.      (* \n *)
Definition dquote : N := 34.  (* the double quote *)
Definition squote : N := 39.  (* the single quote *)

(** ECMAScript LineTerminator: LF, CR, LS, PS. *)
Definition isLineTerminator (c : N) : bool :=
  (c =? 10) || (c =? 13) || (c =? 8232) || (c =? 8233).

(** ECMAScript [\s]: WhiteSpace and LineTerminator code units. *)
Definition isSpace (c : N) : bool :=
  ((9 <=? c) && (c <=? 13)) || (c =? 32) || (c =? 160) || (c =? 5760)
  || ((8192 <=? c) && (c <=? 8202)) || (c =? 8232) || (c =? 8233)
  || (c =? 8239) || (c =? 8287) || (c =? 12288) || (c =? 65279).

(** ECMAScript [\w]: [A-Za-z0-9_]. *)
Definition isWord (c : N) : bool :=
  ((48 <=? c) && (c <=? 57)) || ((65 <=? c) && (c <=? 90))
  || (c =? 95) || ((97 <=? c) && (c <=? 122)).

Fixpoint memN (c : N) (l : list N) : bool :=
  match l with
  | [] => false
  | x :: l' => (c =? x) || memN c l'
  end.

(* ===================================================================== *)
(** ** Regular expressions as used by [processThreeJsCode] *)
(* ===================================================================== *)

(** Character classes. *)
Inductive cclass : Type :=
| CAny                    (* [\s\S] *)
| CDot                    (* .  (no s flag: anything but a line terminator) *)
| CSpace                  (* \s *)
| CWord                   (* \w *)
| CIn (l : list N)        (* [abc] *)
| CNotIn (l : list N).    (* [^abc] *)

Definition cmatch (cl : cclass) (c : N) : bool :=
  match cl with
  | CAny => true
  | CDot => negb (isLineTerminator c)
  | CSpace => isSpace c
  | CWord => isWord c
  | CIn l => memN c l
  | CNotIn l => negb (memN c l)
  end.

(** The fragment of the regular-expression syntax the source uses.
    Quantifiers other than [?] are only ever applied to a single
    character class, and there is at most one capturing group. *)
Inductive re : Type :=
| Lit (l : jsstring)          (* a literal run of characters *)
| Cls (cl : cclass)           (* one character of a class *)
| Star (cl : cclass)          (* cl*   greedy *)
| StarLazy (cl : cclass)      (* cl*?  lazy *)
| Opt (r : re)                (* (?:r)?  greedy *)
| Seq (r1 r2 : re)            (* r1 r2 *)
| Group (r : re)              (* (r), capture group 1 *)
| Bol                         (* ^ under the m flag *)
| Eol.                        (* $ under the m flag *)

Declare Scope re_scope.
Delimit Scope re_scope with re.
Bind Scope re_scope with re.
Infix ">>" := Seq (at level 60, right associativity) : re_scope.

(** [cl+], greedy. *)
Definition Plus (cl : cclass) : re := Seq (Cls cl) (Star cl).

(** [^] under the m flag: start of input or just after a line terminator. *)
Definition atLineStart (prev : option N) : bool :=
  match prev with
  | None => true
  | Some c => isLineTerminator c
  end.

(** [$] under the m flag: end of input or just before a line terminator. *)
Definition atLineEnd (s : jsstring) : bool :=
  match s with
  | [] => true
  | c :: _ => isLineTerminator c
  end.

(** The character before the position reached after consuming [w]. *)
Definition lastOr (prev : option N) (w : jsstring) : option N :=
  match last w with
  | Some c => Some c
  | None => prev
  end.

(** [stripPrefix l s] is what follows [l] at the head of [s]. *)
Fixpoint stripPrefix (l s : jsstring) : option jsstring :=
  match l, s with
  | [], _ => Some s
  | x :: l', c :: s' => if x =? c then stripPrefix l' s' else None
  | _ :: _, [] => None
  end.

Section Matcher.
(** The answer type of a match attempt. *)
Context {A : Type}.

(** A continuation receives the character before the current position,
    the remaining input and the current value of capture group 1. *)
Definition cont : Type := option N -> jsstring -> option jsstring -> option A.

(** Greedy [cl*]: take as many characters as possible, give back one at
    a time while the continuation fails. *)
Fixpoint starGreedy (cl : cclass) (k : option N -> jsstring -> option A)
    (prev : option N) (s : jsstring) : option A :=
  match s with
  | c :: s' =>
      if cmatch cl c then
        match starGreedy cl k (Some c) s' with
        | Some a => Some a
        | None => k prev s
        end
      else k prev s
  | [] => k prev s
  end.

(** Lazy [cl*?]: try the continuation first, take one more character
    only when it fails. *)
Fixpoint starLazy (cl : cclass) (k : option N -> jsstring -> option A)
    (prev : option N) (s : jsstring) : option A :=
  match k prev s with
  | Some a => Some a
  | None =>
      match s with
      | c :: s' => if cmatch cl c then starLazy cl k (Some c) s' else None
      | [] => None
      end
  end.

(** The backtracking matcher, in continuation-passing style. *)
Fixpoint rmatch (r : re) (prev : option N) (s : jsstring)
    (cap : option jsstring) (k : cont) : option A :=
  match r with
  | Lit l =>
      match stripPrefix l s with
      | Some s' => k (lastOr prev l) s' cap
      | None => None
      end
  | Cls cl =>
      match s with
      | c :: s' => if cmatch cl c then k (Some c) s' cap else None
      | [] => None
      end
  | Star cl => starGreedy cl (fun p s' => k p s' cap) prev s
  | StarLazy cl => starLazy cl (fun p s' => k p s' cap) prev s
  | Opt r1 =>
      match rmatch r1 prev s cap k with
      | Some a => Some a
      | None => k prev s cap
      end
  | Seq r1 r2 =>
      rmatch r1 prev s cap (fun p s' cap' => rmatch r2 p s' cap' k)
  | Group r1 =>
      rmatch r1 prev s cap
        (fun p s' _ => k p s' (Some (take (length s - length s') s)))
  | Bol => if atLineStart prev then k prev s cap else None
  | Eol => if atLineEnd s then k prev s cap else None
  end.
End Matcher.

(** The continuation at the end of a pattern: the match is complete. *)
Abbreviation finish :=
  (fun (_ : option N) (s' : jsstring) (cap : option jsstring) => Some (cap, s')).

(** One match attempt at the current position: capture group 1 and the
    input left after the match. *)
Definition exec (r : re) (prev : option N) (s : jsstring)
    : option (option jsstring * jsstring) :=
  rmatch r prev s None finish.

(** The result of [String.prototype.match] with a non-global pattern: the
    text before the match, the matched text, group 1, the text after. *)
Record matchResult : Type := MatchResult {
  mBefore : jsstring;
  mText : jsstring;
  mGroup1 : option jsstring;
  mAfter : jsstring
}.

(** Leftmost match: try each start position in turn. *)
Fixpoint searchFrom (r : re) (before : jsstring) (prev : option N)
    (s : jsstring) : option matchResult :=
  match exec r prev s with
  | Some (cap, rest) =>
      Some (MatchResult before (take (length s - length rest) s) cap rest)
  | None =>
      match s with
      | [] => None
      | c :: s' => searchFrom r (before ++ [c]) (Some c) s'
      end
  end.

Definition jsMatchRe (s : jsstring) (r : re) : option matchResult :=
  searchFrom r [] None s.

(** [String.prototype.replace] with a global pattern and a constant
    replacement.  [skip] counts the characters of the current match that
    are still to be dropped; an empty match advances by one character. *)
Fixpoint replaceLoop (r : re) (by_ : jsstring) (prev : option N)
    (s : jsstring) (skip : nat) : jsstring :=
  match skip, s with
  | S n, c :: s' => replaceLoop r by_ (Some c) s' n
  | S _, [] => []
  | O, _ =>
      match exec r prev s with
      | Some (_, rest) =>
          match (length s - length rest)%nat, s with
          | O, c :: s' => by_ ++ c :: replaceLoop r by_ (Some c) s' 0
          | O, [] => by_
          | S n, c :: s' => by_ ++ replaceLoop r by_ (Some c) s' n
          | S _, [] => by_
          end
      | None =>
          match s with
          | c :: s' => c :: replaceLoop r by_ (Some c) s' 0
          | [] => []
          end
      end
  end.

Definition jsReplaceAll (s : jsstring) (r : re) (by_ : jsstring) : jsstring :=
  replaceLoop r by_ None s 0.

(* ===================================================================== *)
(** ** The code sanitizer: [processThreeJsCode] *)
(* ===================================================================== *)

(** The class of the two quote characters, written [Q] in the patterns
    quoted below. *)
Definition quoteCls : cclass := CIn [squote; dquote].

(** [/```javascript\s*\n([\s\S]*?)```/] *)
Definition jsPattern : re :=
  (Lit (js "```javascript") >> Star CSpace >> Cls (CIn [nl]) >>
   Group (StarLazy CAny) >> Lit (js "```"))%re.

(** [/```(?:\w*\s* )?\n([\s\S]*?)```/] (a space is put after the second
    star here to keep the comment well-formed; the pattern has none) *)
Definition codePattern : re :=
  (Lit (js "```") >> Opt (Star CWord >> Star CSpace) >> Cls (CIn [nl]) >>
   Group (StarLazy CAny) >> Lit (js "```"))%re.

(** [/<script[^>]*>([\s\S]*?)<\/script>/] *)
Definition scriptPattern : re :=
  (Lit (js "<script") >> Star (CNotIn (js ">")) >> Lit (js ">") >>
   Group (StarLazy CAny) >> Lit (js "</script>"))%re.

(** [/^import\s+.*?from\s+[Q].*?[Q];?\s*$/gm] *)
Definition importFromPattern : re :=
  (Bol >> Lit (js "import") >> Plus CSpace >> StarLazy CDot >>
   Lit (js "from") >> Plus CSpace >> Cls quoteCls >> StarLazy CDot >>
   Cls quoteCls >> Opt (Lit (js ";")) >> Star CSpace >> Eol)%re.

(** [/^import\s+\*\s+as\s+.*?\s+from\s+[Q].*?[Q];?\s*$/gm] *)
Definition importStarAsPattern : re :=
  (Bol >> Lit (js "import") >> Plus CSpace >> Lit (js "*") >> Plus CSpace >>
   Lit (js "as") >> Plus CSpace >> StarLazy CDot >> Plus CSpace >>
   Lit (js "from") >> Plus CSpace >> Cls quoteCls >> StarLazy CDot >>
   Cls quoteCls >> Opt (Lit (js ";")) >> Star CSpace >> Eol)%re.

(** [/^import\s+[Q].*?[Q];?\s*$/gm] *)
Definition importBarePattern : re :=
  (Bol >> Lit (js "import") >> Plus CSpace >> Cls quoteCls >>
   StarLazy CDot >> Cls quoteCls >> Opt (Lit (js ";")) >> Star CSpace >>
   Eol)%re.

(** [/^const\s+.*?\s*=\s*require\([Q].*?[Q]\);?\s*$/gm] *)
Definition requirePattern : re :=
  (Bol >> Lit (js "const") >> Plus CSpace >> StarLazy CDot >> Star CSpace >>
   Lit (js "=") >> Star CSpace >> Lit (js "require(") >> Cls quoteCls >>
   StarLazy CDot >> Cls quoteCls >> Lit (js ")") >> Opt (Lit (js ";")) >>
   Star CSpace >> Eol)%re.

(** [/import\s+\*\s+as\s+THREE\s+from\s+[Q]three[Q];?\s*/g] *)
Definition threeStarPattern : re :=
  (Lit (js "import") >> Plus CSpace >> Lit (js "*") >> Plus CSpace >>
   Lit (js "as") >> Plus CSpace >> Lit (js "THREE") >> Plus CSpace >>
   Lit (js "from") >> Plus CSpace >> Cls quoteCls >> Lit (js "three") >>
   Cls quoteCls >> Opt (Lit (js ";")) >> Star CSpace)%re.

(** [/import\s+{\s*OrbitControls\s*}\s+from\s+[Q]three\/addons\/controls\/OrbitControls\.js[Q];?\s*/g] *)
Definition orbitImportPattern : re :=
  (Lit (js "import") >> Plus CSpace >> Lit (js "{") >> Star CSpace >>
   Lit (js "OrbitControls") >> Star CSpace >> Lit (js "}") >> Plus CSpace >>
   Lit (js "from") >> Plus CSpace >> Cls quoteCls >>
   Lit (js "three/addons/controls/OrbitControls.js") >>
   Cls quoteCls >> Opt (Lit (js ";")) >> Star CSpace)%re.

(** [/import\s+{\s*[^}]*\s*}\s+from\s+[Q]three[Q];?\s*/g] *)
Definition threeNamedPattern : re :=
  (Lit (js "import") >> Plus CSpace >> Lit (js "{") >> Star CSpace >>
   Star (CNotIn (js "}")) >> Star CSpace >> Lit (js "}") >> Plus CSpace >>
   Lit (js "from") >> Plus CSpace >> Cls quoteCls >> Lit (js "three") >>
   Cls quoteCls >> Opt (Lit (js ";")) >> Star CSpace)%re.

(** [/import\s+THREE\s+from\s+[Q]three[Q];?\s*/g] *)
Definition threeDefaultPattern : re :=
  (Lit (js "import") >> Plus CSpace >> Lit (js "THREE") >> Plus CSpace >>
   Lit (js "from") >> Plus CSpace >> Cls quoteCls >> Lit (js "three") >>
   Cls quoteCls >> Opt (Lit (js ";")) >> Star CSpace)%re.

(** [/THREE\.OrbitControls/g] *)
Definition orbitNamePattern : re := Lit (js "THREE.OrbitControls").

(** [m && m[1]]: the match exists and its group 1 is a non-empty string. *)
Definition truthyGroup1 (m : option matchResult) : option jsstring :=
  match m with
  | Some r =>
      match mGroup1 r with
      | Some (c :: g) => Some (c :: g)
      | _ => None
      end
  | None => None
  end.

(** Which branch of the extraction cascade supplied the text. *)
Inductive sourceKind : Type :=
| FromJsFence | FromAnyFence | FromScriptTag | FromRawText.

(** The first half of [processThreeJsCode]: the cascade of [match] calls. *)
Definition extractCode (code : jsstring) : sourceKind * jsstring :=
  let processedCode := code in
  match truthyGroup1 (jsMatchRe processedCode jsPattern) with
  | Some g => (FromJsFence, g)
  | None =>
      match truthyGroup1 (jsMatchRe processedCode codePattern) with
      | Some g => (FromAnyFence, g)
      | None =>
          match truthyGroup1 (jsMatchRe processedCode scriptPattern) with
          | Some g => (FromScriptTag, g)
          | None => (FromRawText, processedCode)
          end
      end
  end.

(** The second half: the chain of global [replace] calls. *)
Definition stripModuleSyntax (processedCode : jsstring) : jsstring :=
  let processedCode := jsReplaceAll processedCode importFromPattern [] in
  let processedCode := jsReplaceAll processedCode importStarAsPattern [] in
  let processedCode := jsReplaceAll processedCode importBarePattern [] in
  let processedCode := jsReplaceAll processedCode requirePattern [] in
  let processedCode := jsReplaceAll processedCode threeStarPattern [] in
  let processedCode := jsReplaceAll processedCode orbitImportPattern [] in
  let processedCode := jsReplaceAll processedCode threeNamedPattern [] in
  let processedCode := jsReplaceAll processedCode threeDefaultPattern [] in
  let processedCode :=
    jsReplaceAll processedCode orbitNamePattern (js "OrbitControls") in
  processedCode.

Definition processThreeJsCode (code : jsstring) : jsstring :=
  stripModuleSyntax (snd (extractCode code)).

(* ===================================================================== *)
(** ** Effects: state, exceptions and awaiting *)
(* ===================================================================== *)

(** A thrown value.  Every error the source creates is [Error(message)],
    and a caught exception is passed on unchanged, so an error is
    represented by its message. *)
Abbreviation error := (list N).

(** How a piece of code ends: it returns, it throws, or it is suspended on
    a promise that never settles. *)
Inductive outcome (A : Type) : Type :=
| Returned (a : A)
| Threw (e : error)
| Pends.
Arguments Returned {A} a.
Arguments Threw {A} e.
Arguments Pends {A}.

(** Code running over a state [S]. *)
Definition Eff (S A : Type) : Type := S -> outcome A * S.

Definition effRet {S A} (a : A) : Eff S A := fun s => (Returned a, s).

Definition effBind {S A B} (f : A -> Eff S B) (m : Eff S A) : Eff S B :=
  fun s =>
    match m s with
    | (Returned a, s') => f a s'
    | (Threw e, s') => (Threw e, s')
    | (Pends, s') => (Pends, s')
    end.

#[export] Instance Eff_ret {S} : MRet (Eff S) := fun A => @effRet S A.
#[export] Instance Eff_bind {S} : MBind (Eff S) := fun A B => @effBind S A B.

Definition throw {S A} (e : error) : Eff S A := fun s => (Threw e, s).

(** [try { m } catch (e) { h e }] *)
Definition tryCatch {S A} (m : Eff S A) (h : error -> Eff S A) : Eff S A :=
  fun s =>
    match m s with
    | (Threw e, s') => h e s'
    | r => r
    end.

(** [try { m } finally { f }] *)
Definition tryFinally {S A} (m : Eff S A) (f : Eff S unit) : Eff S A :=
  fun s =>
    match m s with
    | (Pends, s') => (Pends, s')
    | (r, s') =>
        match f s' with
        | (Returned _, s'') => (r, s'')
        | (Threw e, s'') => (Threw e, s'')
        | (Pends, s'') => (Pends, s'')
        end
    end.

Definition getState {S} : Eff S S := fun s => (Returned s, s).
Definition modifyState {S} (f : S -> S) : Eff S unit := fun s => (Returned tt, f s).

(** The state a piece of code leaves behind. *)
Definition execEff {S A} (m : Eff S A) (s : S) : S := snd (m s).

(* ===================================================================== *)
(** ** Notification messages *)
(* ===================================================================== *)

(** Equality of JavaScript strings ([===] on strings). *)
Fixpoint jsEqb (a b : jsstring) : bool :=
  match a, b with
  | [], [] => true
  | x :: a', y :: b' => (x =? y) && jsEqb a' b'
  | _, _ => false
  end.

(** A string-valued property that may be missing: [None] is [undefined]. *)
Definition truthy (o : option jsstring) : bool :=
  match o with
  | Some (_ :: _) => true
  | _ => false
  end.

(** [o || dflt] for such a property. *)
Definition orElse (o : option jsstring) (dflt : jsstring) : jsstring :=
  match o with
  | Some (c :: s) => c :: s
  | _ => dflt
  end.

(** One entry of the [images] array of a completed image job. *)
Record imageData : Type := ImageData {
  image_base64 : jsstring;
  width : option float;
  height : option float
}.

(** [n || dflt] for a number that may be missing: [undefined], [0], [-0]
    and [NaN] are falsy, every other number is passed on as it is. *)
Definition numOrElse (o : option float) (dflt : float) : float :=
  match o with
  | Some n => if is_zero n || is_nan n then dflt else n
  | None => dflt
  end.

(** The object [JSON.parse] makes of a notification: the properties the
    handlers read.  A missing property is [None]. *)
Record payload : Type := Payload {
  status : option jsstring;
  content : option jsstring;
  message : option jsstring;
  errorField : option jsstring;     (* the property named [error] *)
  dataField : option jsstring;      (* the property named [data] *)
  images : option (list imageData)
}.

(** The [data] of an event, represented by what [JSON.parse] makes of it:
    an object, or the exception it throws (no data, or not JSON). *)
Inductive eventData : Type :=
| Json (p : payload)
| Unparsable (exn : error).

(** What a notification channel delivers. *)
Inductive event : Type :=
| Message (d : eventData)                 (* an event of type [message] *)
| Named (type : jsstring) (d : eventData) (* a server-sent event with an [event:] name *)
| ConnectionError (lost : bool)            (* the [error] event of a failing connection;
                                              [lost]: it is given up, not retried *)
| Opened                                   (* WebSocket [open] *)
| SocketClosed.                            (* WebSocket [close]: the connection is gone *)

(** The value a wait resolves with. *)
Inductive value : Type :=
| VNull
| VUndefined
| VString (s : jsstring)
| VContent (content : jsstring)                     (* { content } *)
| VImage (image : jsstring) (width height : float). (* { image, width, height } *)

Inductive promiseState : Type :=
| Pending
| Fulfilled (v : value)
| Rejected (e : error).

Inductive readyState : Type := CONNECTING | OPEN | CLOSING | CLOSED.

Inductive channelKind : Type := EventSourceChannel | WebSocketChannel.

(** The state of one invocation of a wait function: its promise, its
    channel and its timer, with counters for what happened to them. *)
Record waitState : Type := WaitState {
  kind : channelKind;
  promise : promiseState;
  settlements : nat;     (* times the promise went from pending to settled *)
  settleCalls : nat;     (* calls of [resolve] and [reject] *)
  ready : readyState;
  closings : nat;        (* times [close()] took the channel out of service *)
  closeCalls : nat;      (* calls of [close()] *)
  timerArmed : bool      (* the timer callback is still scheduled *)
}.

Abbreviation Handler := (Eff waitState unit).

(** [resolve(v)] and [reject(e)]: only the first call settles the promise. *)
Definition settle (p : promiseState) : Handler :=
  modifyState (fun st =>
    match promise st with
    | Pending =>
        WaitState (kind st) p (S (settlements st)) (S (settleCalls st))
                  (ready st) (closings st) (closeCalls st) (timerArmed st)
    | _ =>
        WaitState (kind st) (promise st) (settlements st) (S (settleCalls st))
                  (ready st) (closings st) (closeCalls st) (timerArmed st)
    end).

Definition resolve (v : value) : Handler := settle (Fulfilled v).
Definition reject (e : error) : Handler := settle (Rejected e).

(** Whether the channel still delivers events. *)
Definition inService (st : waitState) : bool :=
  match ready st with
  | CONNECTING | OPEN => true
  | CLOSING | CLOSED => false
  end.

(** [eventSource.close()].  An [EventSource] becomes [CLOSED] at once, a
    [WebSocket] becomes [CLOSING] until the connection is gone; closing a
    channel that is already closing or closed does nothing. *)
Definition close : Handler :=
  modifyState (fun st =>
    if inService st then
      WaitState (kind st) (promise st) (settlements st) (settleCalls st)
                (match kind st with
                 | EventSourceChannel => CLOSED
                 | WebSocketChannel => CLOSING
                 end)
                (S (closings st)) (S (closeCalls st)) (timerArmed st)
    else
      WaitState (kind st) (promise st) (settlements st) (settleCalls st)
                (ready st) (closings st) (S (closeCalls st)) (timerArmed st)).

(** [clearTimeout(timeout); timeout = null], guarded by [if (timeout)]. *)
Definition clearTimer : Handler :=
  modifyState (fun st =>
    WaitState (kind st) (promise st) (settlements st) (settleCalls st)
              (ready st) (closings st) (closeCalls st) false).

(** [JSON.parse(event.data)] *)
Definition JSON_parse (d : eventData) : Eff waitState payload :=
  match d with
  | Json p => mret p
  | Unparsable exn => throw exn
  end.

(** [data.status === s] *)
Definition statusIs (data : payload) (s : string) : bool :=
  match status data with
  | Some t => jsEqb t (js s)
  | None => false
  end.

(* ===================================================================== *)
(** ** The result-wait protocol *)
(* ===================================================================== *)

(** The four wait functions: [waitForImageGeneration],
    [waitForCodeGeneration], [waitForTaskResult], [waitForCodeEditing]. *)
Inductive job : Type :=
| ImageGeneration | CodeGeneration | TaskResult | CodeEditing.

Definition channelOf (f : job) : channelKind :=
  match f with
  | TaskResult => WebSocketChannel
  | _ => EventSourceChannel
  end.

(** The delay passed to [setTimeout], in milliseconds. *)
Definition timeoutMs (f : job) : N :=
  match f with
  | ImageGeneration => 120000
  | CodeGeneration => 300000
  | TaskResult => 120000
  | CodeEditing => 120000
  end.

(** *** [waitForCodeGeneration] *)

(** [eventSource.onmessage] *)
Definition codeGeneration_onmessage (d : eventData) : Handler :=
  tryCatch
    (data ← JSON_parse d;
     if statusIs data "completed" then
       (if truthy (content data)
        then resolve (VContent (orElse (content data) []))
        else resolve VNull);;
       close
     else if statusIs data "failed" || statusIs data "error" then
       reject (orElse (message data) (js "Error generating code"));;
       close
     else mret tt)
    (fun error => reject error;; close).

(** [addEventListener('complete', ...)] *)
Definition codeGeneration_complete (d : eventData) : Handler :=
  tryCatch
    (data ← JSON_parse d;
     (if truthy (content data)
      then resolve (VContent (orElse (content data) []))
      else resolve VNull);;
     close)
    (fun error => reject error;; close).

(** [addEventListener('error', ...)] *)
Definition codeGeneration_error (d : eventData) : Handler :=
  tryFinally
    (tryCatch
       (data ← JSON_parse d;
        reject (orElse (errorField data) (js "Error generating code")))
       (fun _ => reject (js "Unknown error in code generation")))
    close.

(** [eventSource.onerror] *)
Definition codeGeneration_onerror : Handler :=
  reject (js "Error with SSE connection");; close.

(** The [setTimeout] callback. *)
Definition codeGeneration_timer : Handler :=
  st ← getState;
  match ready st with
  | CLOSED => mret tt
  | _ => close;; reject (js "Code generation timed out")
  end.

(** *** [waitForTaskResult] *)

(** [eventSource.onmessage]; the parse is not inside a [try]. *)
Definition taskResult_onmessage (d : eventData) : Handler :=
  data ← JSON_parse d;
  if statusIs data "completed" then
    resolve (match dataField data with
             | Some s => VString s
             | None => VUndefined
             end);;
    close
  else if statusIs data "failed" || statusIs data "error" then
    reject (orElse (message data) (js "Unknown error occurred"));;
    close
  else mret tt.

(** [eventSource.onerror] *)
Definition taskResult_onerror : Handler :=
  reject (js "Error with WebSocket connection");; close.

(** The [setTimeout] callback. *)
Definition taskResult_timer : Handler :=
  st ← getState;
  match ready st with
  | CLOSED => mret tt
  | _ => close;; reject (js "Task timed out")
  end.

(** *** [waitForImageGeneration] and [waitForCodeEditing]

    The two functions differ in the payload they resolve with and in the
    texts of their errors. *)

(** [cleanup] *)
Definition cleanup : Handler :=
  st ← getState;
  (if timerArmed st then clearTimer else mret tt);;
  close.

(** [addEventListener('complete', ...)] of [waitForImageGeneration] *)
Definition imageGeneration_complete (d : eventData) : Handler :=
  tryFinally
    (tryCatch
       (data ← JSON_parse d;
        match images data with
        | Some (imageData :: _) =>
            resolve (VImage (image_base64 imageData)
                            (numOrElse (width imageData) 500)
                            (numOrElse (height imageData) 500))
        | _ => resolve VNull
        end)
       (fun error => reject error))
    cleanup.

(** [addEventListener('complete', ...)] of [waitForCodeEditing] *)
Definition codeEditing_complete (d : eventData) : Handler :=
  tryFinally
    (tryCatch
       (data ← JSON_parse d;
        if truthy (content data)
        then resolve (VContent (orElse (content data) []))
        else resolve VNull)
       (fun error => reject error))
    cleanup.

(** [addEventListener('error', ...)] of either function *)
Definition sse_error (dflt unknown : string) (d : eventData) : Handler :=
  tryFinally
    (tryCatch
       (data ← JSON_parse d;
        reject (orElse (errorField data) (js dflt)))
       (fun _ => reject (js unknown)))
    cleanup.

Definition imageGeneration_error : eventData -> Handler :=
  sse_error "Error generating image" "Unknown error in image generation".

Definition codeEditing_error : eventData -> Handler :=
  sse_error "Error editing code" "Unknown error in code editing".

(** [eventSource.onerror] of either function *)
Definition sse_onerror : Handler :=
  reject (js "Error with SSE connection");; cleanup.

(** The [setTimeout] callback of either function. *)
Definition sse_timer (text : string) : Handler :=
  close;; reject (js text).

(** *** Dispatch *)

(** The data of the [error] event of a failing connection: it is not a
    message event, so [JSON.parse] is applied to [undefined] and throws. *)
Definition noData : eventData :=
  Unparsable (js "SyntaxError: undefined is not valid JSON").

(** The listeners of a wait function that an event reaches, in the order
    in which the source registers them. *)
Definition listeners (f : job) (ev : event) : list Handler :=
  match f, ev with
  | CodeGeneration, Message d => [codeGeneration_onmessage d]
  | CodeGeneration, Named t d =>
      if jsEqb t (js "message") then [codeGeneration_onmessage d]
      else if jsEqb t (js "start") then [mret tt]
      else if jsEqb t (js "complete") then [codeGeneration_complete d]
      else if jsEqb t (js "error")
      then [codeGeneration_error d; codeGeneration_onerror]
      else []
  | CodeGeneration, ConnectionError _ =>
      [codeGeneration_error noData; codeGeneration_onerror]
  | TaskResult, Message d => [taskResult_onmessage d]
  | TaskResult, ConnectionError _ => [taskResult_onerror]
  | TaskResult, Opened => [mret tt]
  | ImageGeneration, Named t d =>
      if jsEqb t (js "start") then [mret tt]
      else if jsEqb t (js "complete") then [imageGeneration_complete d]
      else if jsEqb t (js "error")
      then [imageGeneration_error d; sse_onerror]
      else []
  | ImageGeneration, ConnectionError _ =>
      [imageGeneration_error noData; sse_onerror]
  | CodeEditing, Named t d =>
      if jsEqb t (js "start") then [mret tt]
      else if jsEqb t (js "complete") then [codeEditing_complete d]
      else if jsEqb t (js "error")
      then [codeEditing_error d; sse_onerror]
      else []
  | CodeEditing, ConnectionError _ =>
      [codeEditing_error noData; sse_onerror]
  | _, _ => []
  end.

(** The timer callback of a wait function. *)
Definition timerCallback (f : job) : Handler :=
  match f with
  | ImageGeneration => sse_timer "Image generation timed out"
  | CodeGeneration => codeGeneration_timer
  | TaskResult => taskResult_timer
  | CodeEditing => sse_timer "Code editing timed out"
  end.

(** A listener runs to its end or to an uncaught exception; either way
    the next listener runs on the state it left. *)
Definition runListeners (hs : list Handler) (st : waitState) : waitState :=
  fold_left (fun s h => execEff h s) hs st.

Definition setReady (r : readyState) (st : waitState) : waitState :=
  WaitState (kind st) (promise st) (settlements st) (settleCalls st)
            r (closings st) (closeCalls st) (timerArmed st).

(** The [readyState] in which the [error] event of a failing connection is
    dispatched.  An event stream that will be reconnected is [CONNECTING],
    one that is given up is [CLOSED]; the [error] event of a socket is
    part of the closing of its connection, which is [CLOSED] by then. *)
Definition failedState (k : channelKind) (lost : bool) : readyState :=
  match k with
  | EventSourceChannel => if lost then CLOSED else CONNECTING
  | WebSocketChannel => CLOSED
  end.

(** Delivery of one event.  A channel that was closed delivers no more
    messages; the end of a socket connection is always noticed, and the
    failure of a connection is reported until the channel is [CLOSED] (a
    socket that the program has told to close is [CLOSING] until then). *)
Definition deliver (f : job) (st : waitState) (ev : event) : waitState :=
  match ev with
  | SocketClosed =>
      match kind st with
      | WebSocketChannel => setReady CLOSED st
      | EventSourceChannel => st
      end
  | Opened =>
      match ready st with
      | CONNECTING => runListeners (listeners f ev) (setReady OPEN st)
      | _ => st
      end
  | ConnectionError lost =>
      match ready st with
      | CLOSED => st
      | CLOSING => runListeners (listeners f ev) (setReady CLOSED st)
      | _ => runListeners (listeners f ev) (setReady (failedState (kind st) lost) st)
      end
  | _ => if inService st then runListeners (listeners f ev) st else st
  end.

Definition deliverAll (f : job) (evs : list event) (st : waitState) : waitState :=
  fold_left (deliver f) evs st.

(** The timer fires once, unless it was cleared. *)
Definition fireTimer (f : job) (st : waitState) : waitState :=
  if timerArmed st then execEff (timerCallback f) (execEff clearTimer st)
  else st.

(** The state right after the promise executor has run. *)
Definition initWait (f : job) : waitState :=
  WaitState (channelOf f) Pending 0 0 CONNECTING 0 0 true.

(** A whole run, given the events with their arrival times in
    milliseconds after the call, in order of arrival: the events that
    arrive before the delay has elapsed, the timer, the later events. *)
Definition runWait (f : job) (arrivals : list (N * event)) : waitState :=
  let early := List.filter (fun a => fst a <? timeoutMs f) arrivals in
  let late := List.filter (fun a => timeoutMs f <=? fst a) arrivals in
  deliverAll f (map snd late)
    (fireTimer f (deliverAll f (map snd early) (initWait f))).

(* ===================================================================== *)
(** ** The host editor and the remote service *)
(* ===================================================================== *)

Abbreviation TLShapeId := N.

(** The properties of a shape that the orchestrators read or write.  A
    property that is not set is [None]. *)
Record shapeProps : Type := ShapeProps {
  threeJsCode : option jsstring;
  gltfUrl : option jsstring;
  isGltf : option bool;
  selectedShapesProp : list TLShapeId
}.

(** Page coordinates are numbers: doubles. *)
Record shape : Type := Shape {
  id : TLShapeId;
  type : jsstring;
  x : float;
  y : float;
  props : shapeProps
}.

(** The result of [editor.getSelectionPageBounds()]. *)
Record bounds : Type := Bounds {
  maxX : float;
  maxY : float;
  midY : float
}.

(** The body of an HTTP response as [response.json()] yields it. *)
Record jsonBody : Type := JsonBody {
  detail : option jsstring;
  task_id : option jsstring;
  data_task_id : option (option jsstring)   (* [data], then [data.task_id] *)
}.

Record response : Type := Response {
  ok : bool;
  statusText : jsstring;
  json : outcome jsonBody        (* [await response.json()] *)
}.

(** Everything outside the program: the selection, the export pipeline,
    the remote service and what its notification channels deliver.  An
    awaited call of the outside returns a value, throws, or never
    answers: none of them has a time limit in the source. *)
Record world : Type := World {
  getSelectedShapes : list shape;
  getSelectionPageBounds : option bounds;
  createShapeId : TLShapeId;
  getSvg : list shape -> outcome (option N);      (* an SVG or [undefined] *)
  getSvgAsImage : N -> outcome (option N);        (* a blob or [null] *)
  blobToBase64 : option N -> outcome jsstring;
  getSelectionAsText : jsstring;
  fetch : jsstring -> outcome response;           (* by URL *)
  channel : jsstring -> list (N * event)          (* by URL: timed arrivals *)
}.

(** What the program did to the outside, in order. *)
Inductive effect : Type :=
| CreateShape (s : shape)
| UpdateShape (i : TLShapeId)
| DeleteShape (i : TLShapeId)
| ExportSvg (shapes : list TLShapeId)
| Fetch (url : jsstring)
| OpenEventSource (url : jsstring)
| OpenWebSocket (url : jsstring)
| SetIsEditing (b : bool).

(** The editor's store of shapes and the trace of effects. *)
Record editor : Type := Editor {
  shapes : gmap TLShapeId shape;
  trace : list effect
}.

Abbreviation Task := (Eff editor).

Definition emit (e : effect) : Task unit :=
  modifyState (fun ed => Editor (shapes ed) (trace ed ++ [e])).

(** [editor.createShape] *)
Definition createShape (s : shape) : Task unit :=
  modifyState (fun ed => Editor (<[id s := s]> (shapes ed)) (trace ed ++ [CreateShape s])).

(** [editor.deleteShape] *)
Definition deleteShape (i : TLShapeId) : Task unit :=
  modifyState (fun ed => Editor (delete i (shapes ed)) (trace ed ++ [DeleteShape i])).

(** [editor.updateShape]: a partial update of the properties of an
    existing shape. *)
Definition updateShape (i : TLShapeId) (patch : shapeProps -> shapeProps) : Task unit :=
  modifyState (fun ed =>
    Editor (alter (fun s => Shape (id s) (type s) (x s) (y s) (patch (props s))) i (shapes ed))
           (trace ed ++ [UpdateShape i])).

(** [await] on a call of the outside. *)
Definition call {A} (r : outcome A) : Task A := fun ed => (r, ed).

(** [await] on the promise of a finished run of a wait function. *)
Definition await (st : waitState) : Task value :=
  match promise st with
  | Fulfilled v => mret v
  | Rejected e => throw e
  | Pending => fun ed => (Pends, ed)
  end.

(** A task id spliced into a template literal. *)
Definition showId (t : option jsstring) : jsstring :=
  match t with
  | Some s => s
  | None => js "undefined"
  end.

Definition waitForCodeGeneration (w : world) (taskId : option jsstring) : Task value :=
  let url := js "http://localhost:8001/api/subscribe/" ++ showId taskId in
  emit (OpenEventSource url);;
  await (runWait CodeGeneration (channel w url)).

Definition waitForTaskResult (w : world) (taskId : option jsstring) : Task value :=
  let url := js "ws://localhost:8001/api/trellis/task/ws/" ++ showId taskId in
  emit (OpenWebSocket url);;
  await (runWait TaskResult (channel w url)).

Definition waitForImageGeneration (w : world) (taskId : option jsstring) : Task value :=
  let url := js "http://localhost:8001/api/subscribe/" ++ showId taskId in
  emit (OpenEventSource url);;
  await (runWait ImageGeneration (channel w url)).

Definition waitForCodeEditing (w : world) (taskId : option jsstring) : Task value :=
  let url := js "http://localhost:8001/api/subscribe/" ++ showId taskId in
  emit (OpenEventSource url);;
  await (runWait CodeEditing (channel w url)).

(** [shape.type === 'model3d'] *)
Definition isModel3d (s : shape) : bool := jsEqb (type s) (js "model3d").

(** [`API error: ${errorData.detail || response.statusText}`] *)
Definition apiError (errorData : jsonBody) (r : response) : error :=
  js "API error: " ++ orElse (detail errorData) (statusText r).

(** The check that follows every [fetch]. *)
Definition checkOk (r : response) : Task unit :=
  if ok r then mret tt
  else errorData ← call (json r); throw (apiError errorData r).

(* ===================================================================== *)
(** ** The generation orchestrator: [vibe3DCode] *)
(* ===================================================================== *)

Definition emptyProps (selection : list TLShapeId) : shapeProps :=
  ShapeProps (Some []) (Some []) None selection.

(** The preview shape that [vibe3DCode] creates. *)
Definition previewShape (i : TLShapeId) (b : bounds) (selection : list shape) : shape :=
  Shape i (js "model3d")
        (maxX b + 60)%float
        (midY b - (540 * 2) / 3 / 2)%float
        (emptyProps (map id selection)).

Definition trellisUrl : jsstring := js "http://localhost:8001/api/trellis/task".
Definition queue3dUrl : jsstring := js "http://localhost:8001/api/queue/3d".
Definition queueEditUrl : jsstring := js "http://localhost:8001/api/queue/edit".

(** The body of the [try] block of [vibe3DCode]. *)
Definition vibe3DCode_submit (w : world) (shapeId : TLShapeId) (thinkingMode : bool)
    : Task unit :=
  if thinkingMode then
    emit (Fetch trellisUrl);;
    response ← call (fetch w trellisUrl);
    checkOk response;;
    jsonResponse ← call (json response);
    taskId ← match data_task_id jsonResponse with
             | Some t => mret t
             | None => throw (js "TypeError: Cannot read properties of undefined (reading 'task_id')")
             end;
    gltfUrl ← waitForTaskResult w taskId;
    updateShape shapeId (fun p =>
      ShapeProps (threeJsCode p)
                 (match gltfUrl with VString s => Some s | _ => None end)
                 (Some true) (selectedShapesProp p))
  else
    emit (Fetch queue3dUrl);;
    response ← call (fetch w queue3dUrl);
    checkOk response;;
    jsonResponse ← call (json response);
    generatedCodeData ← waitForCodeGeneration w (task_id jsonResponse);
    match generatedCodeData with
    | VContent (c :: s) =>
        let threeJsCode := processThreeJsCode (c :: s) in
        if (length threeJsCode <? 100)%nat then
          throw (js "Could not generate a 3D model from those wireframes.")
        else
          updateShape shapeId (fun p =>
            ShapeProps (Some threeJsCode) (gltfUrl p) (Some false)
                       (selectedShapesProp p))
    | _ => throw (js "No code was generated")
    end.

Definition vibe3DCode (w : world) (shapeId : option TLShapeId) (thinkingMode : bool)
    : Task unit :=
  let selectedShapes := getSelectedShapes w in
  if (length selectedShapes =? 0)%nat then
    throw (js "First select something to make real.")
  else
    shapeId ← match shapeId with
              | Some i => mret i
              | None =>
                  match getSelectionPageBounds w with
                  | Some b =>
                      let i := createShapeId w in
                      createShape (previewShape i b selectedShapes);;
                      mret i
                  | None =>
                      throw (js "TypeError: Cannot destructure property 'maxX' of null")
                  end
              end;
    let selectedShapesWithoutModel3d :=
      List.filter (fun shape => negb (isModel3d shape)) selectedShapes in
    emit (ExportSvg (map id selectedShapesWithoutModel3d));;
    svg ← call (getSvg w selectedShapesWithoutModel3d);
    match svg with
    | None => mret tt
    | Some svg =>
        blob ← call (getSvgAsImage w svg);
        dataUrl ← call (blobToBase64 w blob);
        tryCatch
          (vibe3DCode_submit w shapeId thinkingMode)
          (fun e => deleteShape shapeId;; throw e)
    end.

(* ===================================================================== *)
(** ** The edit orchestrator: [edit3DCode] *)
(* ===================================================================== *)

(** The body of the [try] block of [edit3DCode]. *)
Definition edit3DCode_body (w : world) : Task TLShapeId :=
  let selectedShapes := getSelectedShapes w in
  if (length selectedShapes =? 0)%nat then
    throw (js "First select shapes for editing.")
  else
    let model3dShapes := List.filter isModel3d selectedShapes in
    let nonModel3dShapes :=
      List.filter (fun shape => negb (isModel3d shape)) selectedShapes in
    match model3dShapes with
    | [] => throw (js "First select a 3D model to edit.")
    | _ :: _ :: _ => throw (js "Select only one 3D model at a time.")
    | [model3dShape] =>
        if (length nonModel3dShapes =? 0)%nat then
          throw (js "Select at least one drawing or shape to guide the editing.")
        else
          let threeJsCode := threeJsCode (props model3dShape) in
          if negb (truthy threeJsCode)
             || (length (orElse threeJsCode []) <? 10)%nat then
            throw (js "The selected 3D model does not contain valid code.")
          else
            emit (ExportSvg (map id nonModel3dShapes));;
            svg ← call (getSvg w nonModel3dShapes);
            match svg with
            | None => throw (js "Could not generate SVG from selected shapes.")
            | Some svg =>
                blob ← call (getSvgAsImage w svg);
                match blob with
                | None => throw (js "Could not generate image from SVG.")
                | Some _ =>
                    dataUrl ← call (blobToBase64 w blob);
                    emit (Fetch queueEditUrl);;
                    response ← call (fetch w queueEditUrl);
                    checkOk response;;
                    jsonResponse ← call (json response);
                    editedCodeData ← waitForCodeEditing w (task_id jsonResponse);
                    match editedCodeData with
                    | VContent (c :: s) =>
                        let editedThreeJsCode := processThreeJsCode (c :: s) in
                        if (length editedThreeJsCode <? 100)%nat then
                          throw (js "Could not generate edited 3D model code.")
                        else
                          updateShape (id model3dShape) (fun p =>
                            ShapeProps (Some editedThreeJsCode) (gltfUrl p)
                                       (isGltf p) (selectedShapesProp p));;
                          mret (id model3dShape)
                    | _ => throw (js "No code was generated from the edit")
                    end
                end
            end
    end.

(** [setIsEditing] is the optional callback: [true] when it is given. *)
Definition edit3DCode (w : world) (setIsEditing : bool) : Task TLShapeId :=
  (if setIsEditing then emit (SetIsEditing true) else mret tt);;
  tryFinally
    (tryCatch (edit3DCode_body w) (fun e => throw e))
    (if setIsEditing then emit (SetIsEditing false) else mret tt).

(* ===================================================================== *)
(** ** Vocabulary of the properties *)
(* ===================================================================== *)

(** *** Messages of the wait protocol *)

(** The status values on which [onmessage] ends the wait. *)
Definition terminalStatus (p : payload) : bool :=
  statusIs p "completed" || statusIs p "failed" || statusIs p "error".

(** The tag of a message. *)
Inductive tag : Type := TagCompleted | TagFailed | TagProgress.

(** The tag that the data of a message carry in their [status]; data
    that are not JSON carry none. *)
Definition statusTag (d : eventData) : option tag :=
  match d with
  | Json p =>
      Some (if statusIs p "completed" then TagCompleted
            else if statusIs p "failed" || statusIs p "error" then TagFailed
            else TagProgress)
  | Unparsable _ => None
  end.

(** The tag of a notification, the same for every wait function: the name
    of a server-sent event ([complete], [error], or any other name), and
    for an event of type [message] the status of its data.  The events of
    the connection itself have no tag. *)
Definition tagOf (ev : event) : option tag :=
  match ev with
  | Message d => statusTag d
  | Named t d =>
      if jsEqb t (js "message") then statusTag d
      else if jsEqb t (js "complete") then Some TagCompleted
      else if jsEqb t (js "error") then Some TagFailed
      else Some TagProgress
  | _ => None
  end.

(** A message tagged completed. *)
Definition completedMessage (ev : event) : bool :=
  match tagOf ev with Some TagCompleted => true | _ => false end.

(** A message tagged failed or error. *)
Definition failureMessage (ev : event) : bool :=
  match tagOf ev with Some TagFailed => true | _ => false end.

(** A terminal message. *)
Definition terminalMessage (ev : event) : bool :=
  completedMessage ev || failureMessage ev.

(** A progress or status message: a message with any other tag. *)
Definition progressMessage (ev : event) : bool :=
  match tagOf ev with Some TagProgress => true | _ => false end.

(** An event that is no news of the task: a progress message, or the
    opening of the connection. *)
Definition quiet (ev : event) : bool :=
  match ev with
  | Opened => true
  | _ => progressMessage ev
  end.

(** What a channel can deliver: a socket has no named events, and only a
    socket reports that the other side closed it. *)
Definition carries (k : channelKind) (ev : event) : bool :=
  match k, ev with
  | WebSocketChannel, Named _ _ => false
  | EventSourceChannel, SocketClosed => false
  | _, _ => true
  end.

(** Whether [f] has registered a listener that an event reaches. *)
Definition handles (f : job) (ev : event) : bool :=
  match listeners f ev with
  | [] => false
  | _ :: _ => true
  end.

(** Whether an event of type [message] ends the wait of [f].  A message
    that does not parse ends [waitForCodeGeneration] (the exception is
    caught and rejected), and is lost on [waitForTaskResult] (the
    exception escapes the handler).  The other two functions have no
    [onmessage]. *)
Definition endsOnMessage (f : job) (d : eventData) : bool :=
  match f, d with
  | CodeGeneration, Json p => terminalStatus p
  | CodeGeneration, Unparsable _ => true
  | TaskResult, Json p => terminalStatus p
  | _, _ => false
  end.

(** A message on which the source of [f] resolves or rejects. *)
Definition settles (f : job) (ev : event) : bool :=
  match ev with
  | Message d => endsOnMessage f d
  | Named t d =>
      match f with
      | TaskResult => false
      | CodeGeneration =>
          (jsEqb t (js "message") && endsOnMessage f d)
          || jsEqb t (js "complete") || jsEqb t (js "error")
      | _ => jsEqb t (js "complete") || jsEqb t (js "error")
      end
  | _ => false
  end.

(** An event that the source of [f] passes over: a message on which it
    neither resolves nor rejects, or the opening of the connection. *)
Definition passedOver (f : job) (ev : event) : bool :=
  match ev with
  | Opened => true
  | Message _ | Named _ _ => negb (settles f ev)
  | _ => false
  end.

(** Whether a terminal message is an event of type [error]. *)
Definition isErrorEvent (ev : event) : bool :=
  match ev with
  | Named t _ => jsEqb t (js "error")
  | _ => false
  end.

(** The text of the timeout error of [f]. *)
Definition timeoutText (f : job) : error :=
  match f with
  | ImageGeneration => js "Image generation timed out"
  | CodeGeneration => js "Code generation timed out"
  | TaskResult => js "Task timed out"
  | CodeEditing => js "Code editing timed out"
  end.

(** The wait is still going: nothing has settled or closed. *)
Definition waiting (f : job) (st : waitState) : Prop :=
  kind st = channelOf f /\ promise st = Pending /\ settlements st = 0%nat /\
  settleCalls st = 0%nat /\ inService st = true /\ closings st = 0%nat /\
  closeCalls st = 0%nat /\ timerArmed st = true.

(** The wait is over: the promise is settled and the channel is out of
    service. *)
Definition finished (st : waitState) : Prop :=
  promise st <> Pending /\ inService st = false.

(** The wait ended with [n] calls of [resolve] or [reject] and [n] calls
    of [close()], of which the first ones settled the promise and took the
    channel out of service. *)
Definition endedWith (n : nat) (st : waitState) : Prop :=
  finished st /\ settlements st = 1%nat /\ closings st = 1%nat /\
  settleCalls st = n /\ closeCalls st = n.

(** *** Traces of the orchestrators *)

Definition isCreate (e : effect) : bool :=
  match e with CreateShape _ => true | _ => false end.

Definition isOpen (e : effect) : bool :=
  match e with OpenEventSource _ | OpenWebSocket _ => true | _ => false end.

Definition isFetch (e : effect) : bool :=
  match e with Fetch _ => true | _ => false end.

(** Export, network and shape effects: everything but the calls of the
    [setIsEditing] callback. *)
Definition isWork (e : effect) : bool :=
  match e with SetIsEditing _ => false | _ => true end.

(** *** Sanitizer *)

(** The characters a global replace with an empty replacement keeps:
    [true] for a character that is copied to the result. *)
Fixpoint keepMask (r : re) (prev : option N) (s : jsstring) (skip : nat)
    : list bool :=
  match skip, s with
  | S n, c :: s' => false :: keepMask r (Some c) s' n
  | S _, [] => []
  | O, _ =>
      match exec r prev s with
      | Some (_, rest) =>
          match (length s - length rest)%nat, s with
          | O, c :: s' => true :: keepMask r (Some c) s' 0
          | S n, c :: s' => false :: keepMask r (Some c) s' n
          | _, [] => []
          end
      | None =>
          match s with
          | c :: s' => true :: keepMask r (Some c) s' 0
          | [] => []
          end
      end
  end.

(** The characters of [s] that a mask keeps. *)
Fixpoint kept (s : jsstring) (mask : list bool) : jsstring :=
  match s, mask with
  | c :: s', b :: mask' => if b then c :: kept s' mask' else kept s' mask'
  | _, _ => []
  end.

(** The characters that survive two rounds of deletion: [m2] is the mask
    of the second round, over the characters that [m1] keeps. *)
Fixpoint thenMask (m1 m2 : list bool) : list bool :=
  match m1 with
  | [] => []
  | false :: m1' => false :: thenMask m1' m2
  | true :: m1' =>
      match m2 with
      | b :: m2' => b :: thenMask m1' m2'
      | [] => false :: thenMask m1' []
      end
  end.

(** The characters the last replace keeps: of every [THREE.OrbitControls]
    it drops the six characters before [OrbitControls].  [dropping] and
    [keeping] count the characters of the current occurrence that are still
    to be dropped and to be kept. *)
Fixpoint orbitMask (s : jsstring) (dropping keeping : nat) : list bool :=
  match s with
  | [] => []
  | _ :: s' =>
      match dropping, keeping with
      | S d, _ => false :: orbitMask s' d keeping
      | O, S k => true :: orbitMask s' 0 k
      | O, O =>
          match stripPrefix (js "THREE.OrbitControls") s with
          | Some _ => false :: orbitMask s' 5 13
          | None => true :: orbitMask s' 0 0
          end
      end
  end.

(** The mask of a global replace with an empty replacement, followed by
    the mask [next] of what comes after it. *)
Definition stage (r : re) (next : jsstring -> list bool) (s : jsstring) : list bool :=
  let mask := keepMask r None s 0 in
  thenMask mask (next (kept s mask)).

(** The characters of a text that the chain of replaces keeps. *)
Definition stripMask : jsstring -> list bool :=
  stage importFromPattern
    (stage importStarAsPattern
       (stage importBarePattern
          (stage requirePattern
             (stage threeStarPattern
                (stage orbitImportPattern
                   (stage threeNamedPattern
                      (stage threeDefaultPattern
                         (fun s => orbitMask s 0 0)))))))).

Definition noLineTerminator (s : jsstring) : Prop :=
  Forall (fun c => isLineTerminator c = false) s.

Definition allSpace (s : jsstring) : Prop :=
  Forall (fun c => isSpace c = true) s.

Definition isQuote (c : N) : Prop := c = squote \/ c = dquote.

(** A line of the form [import ... from Q three Q], with an optional
    semicolon and trailing blanks. *)
Definition importThreeLine (l : jsstring) : Prop :=
  exists ws1 body ws2 q1 q2 semi ws3,
    l = js "import" ++ ws1 ++ body ++ js "from" ++ ws2 ++ [q1] ++ js "three"
        ++ [q2] ++ semi ++ ws3 /\
    ws1 <> [] /\ allSpace ws1 /\ ws2 <> [] /\ allSpace ws2 /\
    isQuote q1 /\ isQuote q2 /\ (semi = [] \/ semi = js ";") /\
    allSpace ws3 /\ noLineTerminator l.

(** [s] has [l] somewhere inside. *)
Definition occursIn (l s : jsstring) : Prop :=
  exists pre post, s = pre ++ l ++ post.

(** A fenced block tagged [javascript] with contents [body]. *)
Definition jsFenceAt (code pre body post : jsstring) : Prop :=
  exists ws, code = pre ++ js "```javascript" ++ ws ++ [nl] ++ body
                    ++ js "```" ++ post /\ allSpace ws.

(** A fenced block with contents [body]: the fence may be followed by a
    word and blanks before the line break. *)
Definition fenceAt (code pre body post : jsstring) : Prop :=
  exists word ws, code = pre ++ js "```" ++ word ++ ws ++ [nl] ++ body
                         ++ js "```" ++ post /\
                  Forall (fun c => isWord c = true) word /\ allSpace ws.

(** A [script] element with contents [body]. *)
Definition scriptTagAt (code pre body post : jsstring) : Prop :=
  exists attrs, code = pre ++ js "<script" ++ attrs ++ js ">" ++ body
                       ++ js "</script>" ++ post /\
                Forall (fun c => c <> 62) attrs.

(** No block of the kind [P] starts further left than the one after [pre]. *)
Definition leftmost (P : jsstring -> jsstring -> jsstring -> Prop)
    (pre : jsstring) : Prop :=
  forall pre' body' post', P pre' body' post' -> (length pre <= length pre')%nat.

(** The non-empty contents of the first match of a pattern of the
    cascade, if there is one. *)
Definition found (code : jsstring) (r : re) : option jsstring :=
  truthyGroup1 (jsMatchRe code r).

(** The closing delimiter after [body] is the first one that follows the
    opening: [close] does not begin anywhere inside [body]. *)
Definition endsAtFirst (close body post : jsstring) : Prop :=
  forall b1 rest, body ++ close ++ post = b1 ++ close ++ rest ->
                  (length body <= length b1)%nat.

(** [body] does not begin with blanks up to a line break: the blanks and
    line breaks that follow an opening fence belong to the fence. *)
Definition noBlankLead (body : jsstring) : Prop :=
  forall ws rest, body = ws ++ nl :: rest -> ~ allSpace ws.

Definition anyLead (body : jsstring) : Prop := True.

(** [body] is the contents of the first block of a kind in [code]: the
    block that starts leftmost, with the opening that [lead] delimits and
    the first closing delimiter after it. *)
Definition firstBlock (blockAt : jsstring -> jsstring -> jsstring -> jsstring -> Prop)
    (lead : jsstring -> Prop) (close code body : jsstring) : Prop :=
  exists pre post,
    blockAt code pre body post /\ leftmost (blockAt code) pre /\
    lead body /\ endsAtFirst close body post.

Definition firstJsFence : jsstring -> jsstring -> Prop :=
  firstBlock jsFenceAt noBlankLead (js "```").

Definition firstFence : jsstring -> jsstring -> Prop :=
  firstBlock fenceAt noBlankLead (js "```").

Definition firstScript : jsstring -> jsstring -> Prop :=
  firstBlock scriptTagAt anyLead (js "</script>").

(** No block of the kind is there to take the text from: there is none,
    or the first one is empty. *)
Definition unusable (first : jsstring -> jsstring -> Prop) (code : jsstring) : Prop :=
  forall g, first code g -> g = [].

(** [matches r prev w rest cap cap']: at a position preceded by [prev] and
    followed by [w ++ rest], the pattern [r] can match exactly [w], taking
    capture group 1 from [cap] to [cap'].  This is the meaning of a
    pattern without the order in which the alternatives are tried. *)
Inductive matches : re -> option N -> jsstring -> jsstring ->
                    option jsstring -> option jsstring -> Prop :=
| MLit l prev rest cap : matches (Lit l) prev l rest cap cap
| MCls cl c prev rest cap :
    cmatch cl c = true -> matches (Cls cl) prev [c] rest cap cap
| MStar cl w prev rest cap :
    Forall (fun c => cmatch cl c = true) w -> matches (Star cl) prev w rest cap cap
| MStarLazy cl w prev rest cap :
    Forall (fun c => cmatch cl c = true) w ->
    matches (StarLazy cl) prev w rest cap cap
| MOptSome r prev w rest cap cap' :
    matches r prev w rest cap cap' -> matches (Opt r) prev w rest cap cap'
| MOptNone r prev rest cap : matches (Opt r) prev [] rest cap cap
| MSeq r1 r2 prev w1 w2 rest cap cap1 cap2 :
    matches r1 prev w1 (w2 ++ rest) cap cap1 ->
    matches r2 (lastOr prev w1) w2 rest cap1 cap2 ->
    matches (Seq r1 r2) prev (w1 ++ w2) rest cap cap2
| MGroup r prev w rest cap cap' :
    matches r prev w rest cap cap' -> matches (Group r) prev w rest cap (Some w)
| MBol prev rest cap : atLineStart prev = true -> matches Bol prev [] rest cap cap
| MEol prev rest cap : atLineEnd rest = true -> matches Eol prev [] rest cap cap.

(** Every match of [r] begins with the literal [l]. *)
Definition startsWith (r : re) (l : jsstring) : Prop :=
  forall prev w rest c c', matches r prev w rest c c' -> exists w', w = l ++ w'.

(** The pattern [r] matches exactly the blocks described by [blockAt],
    and captures their contents. *)
Definition reads (r : re)
    (blockAt : jsstring -> jsstring -> jsstring -> jsstring -> Prop) : Prop :=
  (forall prev w rest cap,
     matches r prev w rest None cap ->
     exists body, cap = Some body /\
                  forall pre, blockAt (pre ++ w ++ rest) pre body rest) /\
  (forall code pre body post,
     blockAt code pre body post ->
     exists w, code = pre ++ w ++ post /\
               forall prev, matches r prev w post None (Some body)).

(** *** Outcomes of a wait *)

(** Two states of a wait agree on what an observer of the promise and of
    the channel sees. *)
Definition sameOutcome (st st' : waitState) : Prop :=
  promise st' = promise st /\ settlements st' = settlements st /\
  closings st' = closings st.

(** What a completed message with [content] resolves to. *)
Definition contentResult (p : payload) : value :=
  match content p with
  | Some (c :: s) => VContent (c :: s)
  | _ => VNull
  end.

(** What a completed message with [images] resolves to. *)
Definition imageResult (p : payload) : value :=
  match images p with
  | Some (im :: _) =>
      VImage (image_base64 im) (numOrElse (width im) 500) (numOrElse (height im) 500)
  | _ => VNull
  end.

(** What a completed message with [data] resolves to. *)
Definition dataResult (p : payload) : value :=
  match dataField p with
  | Some s => VString s
  | None => VUndefined
  end.

(** *** Runs of the orchestrators *)

(** A piece of code adds no effect selected by [keep] to the trace. *)
Definition silent {A} (keep : effect -> bool) (m : Task A) : Prop :=
  forall ed, List.filter keep (trace (snd (m ed))) = List.filter keep (trace ed).

(** Nothing was exported, fetched, opened or changed. *)
Definition untouched (ed ed' : editor) : Prop :=
  shapes ed' = shapes ed /\
  List.filter isWork (trace ed') = List.filter isWork (trace ed).

(** The preview element a run of [vibe3DCode] works on. *)
Definition targetOf (w : world) (shapeId : option TLShapeId) : TLShapeId :=
  match shapeId with
  | Some i => i
  | None => createShapeId w
  end.

(** The selection was rasterized and encoded as [dataUrl]. *)
Definition rasterOk (w : world) (dataUrl : jsstring) : Prop :=
  exists svg blob,
    getSvg w (List.filter (fun shape => negb (isModel3d shape)) (getSelectedShapes w))
    = Returned (Some svg) /\
    getSvgAsImage w svg = Returned blob /\
    blobToBase64 w blob = Returned dataUrl.

(** The selected preview elements and the selected guiding shapes. *)
Definition models (w : world) : list shape :=
  List.filter isModel3d (getSelectedShapes w).
Definition guides (w : world) : list shape :=
  List.filter (fun shape => negb (isModel3d shape)) (getSelectedShapes w).

(** The editor once [vibe3DCode] has created its preview element (when it
    was given none) and asked for the export. *)
Definition afterRaster (w : world) (shapeId : option TLShapeId) (b : bounds)
    (ed : editor) : editor :=
  let exported := ExportSvg (map id (guides w)) in
  match shapeId with
  | Some _ => Editor (shapes ed) (trace ed ++ [exported])
  | None =>
      let preview := previewShape (createShapeId w) b (getSelectedShapes w) in
      Editor (<[createShapeId w := preview]> (shapes ed))
             ((trace ed ++ [CreateShape preview]) ++ [exported])
  end.

(** The URL [vibe3DCode] submits to. *)
Definition submitUrl (thinkingMode : bool) : jsstring :=
  if thinkingMode then trellisUrl else queue3dUrl.

(** The code of the selected model is absent or shorter than 10. *)
Definition invalidCode (c : option jsstring) : Prop :=
  c = None \/ exists s, c = Some s /\ (length s < 10)%nat.

Definition isDelete (e : effect) : bool :=
  match e with DeleteShape _ => true | _ => false end.

(** *** Sample data *)

(** [{ status: 'failed', message: 'boom' }] *)
Definition boom : payload :=
  Payload (Some (js "failed")) None (Some (js "boom")) None None None.

(** [{ status: 'completed', content: 'scene' }] *)
Definition sceneDone : payload :=
  Payload (Some (js "completed")) (Some (js "scene")) None None None None.

(** [{ status: 'completed' }] *)
Definition bareDone : payload :=
  Payload (Some (js "completed")) None None None None None.

(** [{ status: 'completed', images: [{ image_base64: 'AAAA', width: 640 }] }] *)
Definition taggedImageDone : payload :=
  Payload (Some (js "completed")) None None None None
          (Some [ImageData (js "AAAA") (Some 640%float) None]).

Definition drawing : shape :=
  Shape 1 (js "draw") 0%float 0%float (ShapeProps None None None []).

Definition model : shape :=
  Shape 2 (js "model3d") 0%float 0%float
        (ShapeProps (Some (js "scene.add(mesh);")) None (Some false) []).

Definition sampleBounds : bounds := Bounds 100%float 80%float 40%float.

Definition emptyEditor : editor := Editor ∅ [].

(** A world in which the export yields an SVG but no image: the blob is
    [null] and encoding it throws. *)
Definition noImageWorld : world :=
  World [drawing] (Some sampleBounds) 7
        (fun _ => Returned (Some 0))
        (fun _ => Returned None)
        (fun blob => match blob with
                     | Some _ => Returned (js "data:image/png;base64,AAAA")
                     | None => Threw (js "TypeError: parameter 1 is not of type 'Blob'")
                     end)
        []
        (fun _ => Threw (js "TypeError: Failed to fetch"))
        (fun _ => []).

(** A world in which only a preview element is selected: nothing is left
    to export and [getSvg] yields [undefined]. *)
Definition onlyModelWorld : world :=
  World [model] (Some sampleBounds) 7
        (fun shapes => match shapes with
                       | [] => Returned None
                       | _ => Returned (Some 0)
                       end)
        (fun _ => Returned (Some 0))
        (fun _ => Returned (js "data:image/png;base64,AAAA"))
        []
        (fun _ => Threw (js "TypeError: Failed to fetch"))
        (fun _ => []).

(** A world like [noImageWorld] whose selection ends far to the right,
    at [maxX = 1e18]. *)
Definition farBounds : bounds := Bounds 1e18%float 80%float 40%float.

Definition farWorld : world :=
  World [drawing] (Some farBounds) 7
        (fun _ => Returned (Some 0))
        (fun _ => Returned None)
        (fun blob => match blob with
                     | Some _ => Returned (js "data:image/png;base64,AAAA")
                     | None => Threw (js "TypeError: parameter 1 is not of type 'Blob'")
                     end)
        []
        (fun _ => Threw (js "TypeError: Failed to fetch"))
        (fun _ => []).

(** A world in which the queue answers 500 with a body that is not JSON. *)
Definition plainTextErrorWorld : world :=
  World [drawing] (Some sampleBounds) 7
        (fun _ => Returned (Some 0))
        (fun _ => Returned (Some 0))
        (fun _ => Returned (js "data:image/png;base64,AAAA"))
        []
        (fun _ => Returned (Response false (js "Internal Server Error")
                              (Threw (js "SyntaxError: Unexpected token 'I'"))))
        (fun _ => []).

(** A world in which the queue answers 422 with a JSON body. *)
Definition jsonErrorWorld : world :=
  World [drawing] (Some sampleBounds) 7
        (fun _ => Returned (Some 0))
        (fun _ => Returned (Some 0))
        (fun _ => Returned (js "data:image/png;base64,AAAA"))
        []
        (fun _ => Returned (Response false (js "Unprocessable Entity")
                              (Returned (JsonBody (Some (js "bad image")) None None))))
        (fun _ => []).

(** [```javascript\ncode\n```] *)
Definition fencedCode : jsstring :=
  js "```javascript" ++ [nl] ++ js "code" ++ [nl] ++ js "```".

(** An empty [javascript] fence followed by a [script] element. *)
Definition emptyFenceThenScript : jsstring :=
  js "```javascript" ++ [nl] ++ js "```<script>x</script>".

(** [import * as THREE from 'three';] *)
Definition importLine : jsstring := js "import * as THREE from 'three';".

(* ===================================================================== *)
(** ** Further vocabulary: the wait protocol on arbitrary runs *)
(* ===================================================================== *)

(** The text with which a wait rejects when its connection fails.  On an
    event stream the listener added for [error] events runs before
    [onerror] and finds no data to parse. *)
Definition connectionErrorText (f : job) : error :=
  match f with
  | ImageGeneration => js "Unknown error in image generation"
  | CodeGeneration => js "Unknown error in code generation"
  | TaskResult => js "Error with WebSocket connection"
  | CodeEditing => js "Unknown error in code editing"
  end.

(** The promise is pending and the channel still delivers events. *)
Definition running (f : job) (st : waitState) : Prop :=
  kind st = channelOf f /\ promise st = Pending /\ inService st = true /\
  timerArmed st = true.

(** The promise is pending although the socket is gone: only the socket
    wait can get there. *)
Definition stranded (f : job) (st : waitState) : Prop :=
  f = TaskResult /\ kind st = WebSocketChannel /\ promise st = Pending /\
  ready st = CLOSED.

(** The promise is settled and the channel is out of service for good. *)
Definition over (f : job) (st : waitState) : Prop :=
  kind st = channelOf f /\ promise st <> Pending /\ inService st = false /\
  (channelOf f = EventSourceChannel -> ready st = CLOSED).

(** The three situations a wait can be in. *)
Definition phase (f : job) (st : waitState) : Prop :=
  running f st \/ over f st \/ stranded f st.

(** A listener that keeps the wait in one of its situations: from a wait
    that is running it goes on or ends it, and it leaves a wait that is
    over as it is. *)
Definition tame (f : job) (h : Handler) : Prop :=
  (forall st, running f st ->
              running f (execEff h st) \/ over f (execEff h st)) /\
  (forall st, over f st -> over f (execEff h st) /\
                           promise (execEff h st) = promise st).

(* ===================================================================== *)
(** ** Further vocabulary: the sanitizer *)
(* ===================================================================== *)

(** A line of the form [const NAME = require(Q module Q)], with an
    optional semicolon and trailing blanks. *)
Definition requireLine (l : jsstring) : Prop :=
  exists ws1 name ws2 ws3 q1 module q2 semi ws4,
    l = js "const" ++ ws1 ++ name ++ ws2 ++ js "=" ++ ws3 ++ js "require("
        ++ [q1] ++ module ++ [q2] ++ js ")" ++ semi ++ ws4 /\
    ws1 <> [] /\ allSpace ws1 /\ allSpace ws2 /\ allSpace ws3 /\
    isQuote q1 /\ isQuote q2 /\ (semi = [] \/ semi = js ";") /\
    allSpace ws4 /\ noLineTerminator l.

(** A line of the form [import Q module Q], an import for its side
    effects, with an optional semicolon and trailing blanks. *)
Definition bareImportLine (l : jsstring) : Prop :=
  exists ws1 q1 module q2 semi ws2,
    l = js "import" ++ ws1 ++ [q1] ++ module ++ [q2] ++ semi ++ ws2 /\
    ws1 <> [] /\ allSpace ws1 /\ isQuote q1 /\ isQuote q2 /\
    (semi = [] \/ semi = js ";") /\ allSpace ws2 /\ noLineTerminator l.

(* ===================================================================== *)
(** ** Further vocabulary: runs of the orchestrators *)
(* ===================================================================== *)

Definition isUpdate (e : effect) : bool :=
  match e with UpdateShape _ => true | _ => false end.

(** The shape an effect creates, changes or deletes. *)
Definition shapeOf (e : effect) : option TLShapeId :=
  match e with
  | CreateShape s => Some (id s)
  | UpdateShape i => Some i
  | DeleteShape i => Some i
  | _ => None
  end.

(** An effect that leaves every shape but [i] alone. *)
Definition spares (i : TLShapeId) (e : effect) : Prop :=
  shapeOf e = None \/ shapeOf e = Some i.

(** The URL of the event stream of a task. *)
Definition subscribeUrl (taskId : option jsstring) : jsstring :=
  js "http://localhost:8001/api/subscribe/" ++ showId taskId.

(** The URL of the socket of a task. *)
Definition socketUrl (taskId : option jsstring) : jsstring :=
  js "ws://localhost:8001/api/trellis/task/ws/" ++ showId taskId.

(** The request to [url] was answered with an OK status and the JSON body
    [body]. *)
Definition accepted (w : world) (url : jsstring) (body : jsonBody) : Prop :=
  exists resp, fetch w url = Returned resp /\ ok resp = true /\ json resp = Returned body.

(** Every awaited call of the outside ends: it returns or throws. *)
Definition answers (w : world) : Prop :=
  (forall l, getSvg w l <> Pends) /\
  (forall svg, getSvgAsImage w svg <> Pends) /\
  (forall blob, blobToBase64 w blob <> Pends) /\
  (forall url, fetch w url <> Pends /\
               forall resp, fetch w url = Returned resp -> json resp <> Pends).

(** The preview element [s] once scene code has been stored in it. *)
Definition withCode (code : jsstring) (s : shape) : shape :=
  Shape (id s) (type s) (x s) (y s)
        (ShapeProps (Some code) (gltfUrl (props s)) (Some false)
                    (selectedShapesProp (props s))).

(** The preview element [s] once the result of a model task has been
    stored in it. *)
Definition withModel (v : value) (s : shape) : shape :=
  Shape (id s) (type s) (x s) (y s)
        (ShapeProps (threeJsCode (props s))
                    (match v with VString u => Some u | _ => None end)
                    (Some true) (selectedShapesProp (props s))).

(** The model [s] once edited code has been stored in it. *)
Definition withEditedCode (code : jsstring) (s : shape) : shape :=
  Shape (id s) (type s) (x s) (y s)
        (ShapeProps (Some code) (gltfUrl (props s)) (isGltf (props s))
                    (selectedShapesProp (props s))).

(** What the submit-and-wait chain of [vibe3DCode] leaves behind: it
    returns after one request, one channel and one update of the target,
    or it ends otherwise after at most one request and one channel, with
    every shape as it was. *)
Definition submitOutcome (i : TLShapeId) (ed : editor)
    (r : outcome unit * editor) : Prop :=
  match fst r with
  | Returned _ =>
      exists url opened f,
        isOpen opened = true /\
        trace (snd r) = trace ed ++ [Fetch url; opened; UpdateShape i] /\
        shapes (snd r) = alter f i (shapes ed)
  | _ =>
      shapes (snd r) = shapes ed /\
      exists new, trace (snd r) = trace ed ++ new /\
                  Forall (fun e => shapeOf e = None) new
  end.


(** A world in which the selection is one drawing, the export works, every
    request is answered with task [t1] and every channel delivers the one
    message [p] after a second. *)
Definition answeringWorld (p : payload) : world :=
  World [drawing] (Some sampleBounds) 7
        (fun _ => Returned (Some 0))
        (fun _ => Returned (Some 0))
        (fun _ => Returned (js "data:image/png;base64,AAAA"))
        []
        (fun _ => Returned (Response true (js "OK")
                         (Returned (JsonBody None (Some (js "t1"))
                                        (Some (Some (js "t1")))))))
        (fun _ => [(1000, Message (Json p))]).

(** [{ status: 'completed', content: <120 times x> }] *)
Definition longSceneDone : payload :=
  Payload (Some (js "completed")) (Some (List.repeat 120 120%nat)) None None None None.

(** [{ status: 'completed', data: 'model.glb' }] *)
Definition modelDone : payload :=
  Payload (Some (js "completed")) None None None (Some (js "model.glb")) None.

(** The selection passes the checks of [edit3DCode]: one model [m] with
    code of at least 10 characters, and at least one guiding shape. *)
Definition validEdit (w : world) (m : shape) : Prop :=
  models w = [m] /\ guides w <> [] /\
  exists code, threeJsCode (props m) = Some code /\ (10 <= length code)%nat.

(** The guiding shapes were exported to an image, encoded as [dataUrl]. *)
Definition exported (w : world) (dataUrl : jsstring) : Prop :=
  exists svg blob,
    getSvg w (guides w) = Returned (Some svg) /\
    getSvgAsImage w svg = Returned (Some blob) /\
    blobToBase64 w (Some blob) = Returned dataUrl.

(** What the body of [edit3DCode] leaves behind: it adds only export,
    network and update effects, and it changes a shape only when it
    returns. *)
Definition editOutcome (ed : editor) (r : outcome TLShapeId * editor) : Prop :=
  exists new,
    trace (snd r) = trace ed ++ new /\
    Forall (fun e => isWork e = true) new /\
    List.filter isCreate new = [] /\ List.filter isDelete new = [] /\
    match fst r with
    | Returned i =>
        List.filter isUpdate new = [UpdateShape i] /\
        exists code, shapes (snd r) = alter (withEditedCode code) i (shapes ed)
    | _ => List.filter isUpdate new = [] /\ shapes (snd r) = shapes ed
    end.

(** A world in which a model and a drawing are selected, the export
    works, every request is answered with task [t1] and every channel
    delivers the one event [ev] after a second. *)
Definition editingWorld (ev : event) : world :=
  World [model; drawing] (Some sampleBounds) 7
        (fun _ => Returned (Some 0))
        (fun _ => Returned (Some 0))
        (fun _ => Returned (js "data:image/png;base64,AAAA"))
        []
        (fun _ => Returned (Response true (js "OK")
                         (Returned (JsonBody None (Some (js "t1")) None))))
        (fun _ => [(1000, ev)]).

(** How the body of [edit3DCode] ends once the selection has passed the
    checks, as a function of the answers of the world. *)
Definition editDecision (w : world) (m : shape) (ed : editor)
    : outcome TLShapeId * editor :=
  let asked := Editor (shapes ed) (trace ed ++ [ExportSvg (map id (guides w))]) in
  match getSvg w (guides w) with
  | Threw e => (Threw e, asked)
  | Pends => (Pends, asked)
  | Returned None => (Threw (js "Could not generate SVG from selected shapes."), asked)
  | Returned (Some svg) =>
      match getSvgAsImage w svg with
      | Threw e => (Threw e, asked)
      | Pends => (Pends, asked)
      | Returned None => (Threw (js "Could not generate image from SVG."), asked)
      | Returned (Some blob) =>
          match blobToBase64 w (Some blob) with
          | Threw e => (Threw e, asked)
          | Pends => (Pends, asked)
          | Returned _ =>
              let sent := Editor (shapes ed) (trace asked ++ [Fetch queueEditUrl]) in
              match fetch w queueEditUrl with
              | Threw e => (Threw e, sent)
              | Pends => (Pends, sent)
              | Returned resp =>
                  match ok resp, json resp with
                  | false, Returned errorData => (Threw (apiError errorData resp), sent)
                  | _, Threw e => (Threw e, sent)
                  | _, Pends => (Pends, sent)
                  | true, Returned body =>
                      let url := subscribeUrl (task_id body) in
                      let waited :=
                        Editor (shapes ed) (trace sent ++ [OpenEventSource url]) in
                      match promise (runWait CodeEditing (channel w url)) with
                      | Pending => (Pends, waited)
                      | Rejected e => (Threw e, waited)
                      | Fulfilled (VContent (c :: s)) =>
                          let code := processThreeJsCode (c :: s) in
                          if (length code <? 100)%nat
                          then (Threw (js "Could not generate edited 3D model code."),
                                waited)
                          else (Returned (id m),
                                Editor (alter (withEditedCode code) (id m) (shapes ed))
                                       (trace waited ++ [UpdateShape (id m)]))
                      | Fulfilled _ =>
                          (Threw (js "No code was generated from the edit"), waited)
                      end
                  end
              end
          end
      end
  end.

(* ===================================================================== *)
(** ** The image orchestrator: [improveDrawing] *)
(* ===================================================================== *)

(** An image asset as [improveDrawing] creates it. *)
Record imageAsset : Type := ImageAsset {
  assetId : N;
  assetName : jsstring;
  assetSrc : jsstring;
  assetW : float;
  assetH : float;
  mimeType : jsstring;
  isAnimated : bool
}.

(** An image shape on the canvas. *)
Record imageShape : Type := ImageShape {
  imageId : TLShapeId;
  imageX : float;
  imageY : float;
  imageAssetId : N;
  imageW : float;
  imageH : float
}.

(** The canvas [improveDrawing] works on: the editor of the other
    orchestrators together with what only [improveDrawing] changes, the
    assets, the image shapes and the current selection. *)
Record canvas : Type := Canvas {
  host : editor;
  assets : list imageAsset;
  pictures : list imageShape;
  selection : list TLShapeId
}.

(** A step that only concerns the editor. *)
Definition onHost {A} (m : Task A) : Eff canvas A :=
  fun c =>
    match m (host c) with
    | (r, ed) => (r, Canvas ed (assets c) (pictures c) (selection c))
    end.

(** [editor.createAssets] *)
Definition createAssets (l : list imageAsset) : Eff canvas unit :=
  modifyState (fun c => Canvas (host c) (assets c ++ l) (pictures c) (selection c)).

(** [editor.createShape] for an image shape *)
Definition createImageShape (s : imageShape) : Eff canvas unit :=
  modifyState (fun c => Canvas (host c) (assets c) (pictures c ++ [s]) (selection c)).

(** [editor.select] *)
Definition select (i : TLShapeId) : Eff canvas unit :=
  modifyState (fun c => Canvas (host c) (assets c) (pictures c) [i]).

Definition queueImageUrl : jsstring := js "http://localhost:8001/api/queue/image".

(** The asset made of a generated image. *)
Definition improvedAsset (assetId : N) (image : jsstring) (width height : float)
    : imageAsset :=
  ImageAsset assetId (js "improved-drawing.png")
             (js "data:image/png;base64," ++ image) width height
             (js "image/png") false.

(** [improveDrawing].  [AssetRecordType.createId()] is an answer of the
    outside like [createShapeId()]; it is passed as [newAssetId].  The
    wait resolves with an image or with [null]. *)
Definition improveDrawing (w : world) (newAssetId : N) : Eff canvas TLShapeId :=
  let selectedShapes := getSelectedShapes w in
  if (length selectedShapes =? 0)%nat then
    throw (js "First select something to improve.")
  else
    let drawableShapes :=
      List.filter (fun shape => negb (isModel3d shape)) selectedShapes in
    if (length drawableShapes =? 0)%nat then
      throw (js "No drawable shapes selected.")
    else
      onHost (emit (ExportSvg (map id drawableShapes)));;
      svg ← onHost (call (getSvg w drawableShapes));
      match svg with
      | None => throw (js "Could not generate SVG from selection.")
      | Some svg =>
          blob ← onHost (call (getSvgAsImage w svg));
          match blob with
          | None => throw (js "Could not generate image from SVG.")
          | Some _ =>
              dataUrl ← onHost (call (blobToBase64 w blob));
              tryCatch
                (onHost (emit (Fetch queueImageUrl));;
                 response ← onHost (call (fetch w queueImageUrl));
                 onHost (checkOk response);;
                 jsonResponse ← onHost (call (json response));
                 generatedImageData ←
                   onHost (waitForImageGeneration w (task_id jsonResponse));
                 match generatedImageData with
                 | VImage image width height =>
                     match getSelectionPageBounds w with
                     | None => throw (js "Could not determine selection bounds.")
                     | Some selectionBounds =>
                         let newShapeId := createShapeId w in
                         let assetId := newAssetId in
                         let imageWidth := width in
                         let imageHeight := height in
                         createAssets
                           [improvedAsset assetId image imageWidth imageHeight];;
                         createImageShape
                           (ImageShape newShapeId
                                       (maxX selectionBounds + 60)%float
                                       (maxY selectionBounds - 300)%float
                                       assetId imageWidth imageHeight);;
                         select newShapeId;;
                         mret newShapeId
                     end
                 | _ => throw (js "No image was generated")
                 end)
                (fun e => throw e)
          end
      end.

(** *** Runs of [improveDrawing] *)

(** What the image wait can resolve with. *)
Definition imageValue (p : promiseState) : Prop :=
  match p with
  | Fulfilled VNull | Fulfilled (VImage _ _ _) | Pending | Rejected _ => True
  | Fulfilled _ => False
  end.

(** The canvas is as it was, up to the trace of the editor. *)
Definition sameCanvas (c c' : canvas) : Prop :=
  shapes (host c') = shapes (host c) /\ assets c' = assets c /\
  pictures c' = pictures c /\ selection c' = selection c.

(** The drawable shapes were exported and the queue accepted the image. *)
Definition imageQueued (w : world) (body : jsonBody) : Prop :=
  guides w <> [] /\ (exists dataUrl, exported w dataUrl) /\
  accepted w queueImageUrl body.

(** A world in which a drawing is selected, the export works, every
    request is answered with task [t1] and every channel delivers a
    [complete] event with the data [p] after a second. *)
Definition imagingWorld (p : payload) : world :=
  editingWorld (Named (js "complete") (Json p)).

(** [{ images: [{ image_base64: 'AAAA', width: 640 }] }] *)
Definition imageDone : payload :=
  Payload None None None None None
          (Some [ImageData (js "AAAA") (Some 640%float) None]).

Definition emptyCanvas : canvas := Canvas emptyEditor [] [] [].

(** How [improveDrawing] ends, as a function of the answers of the
    world: the decision tree of the function, with the canvas each leaf
    leaves behind. *)
Definition improveDecision (w : world) (newAssetId : N) (c : canvas)
    : outcome TLShapeId * canvas :=
  let at_ (tr : list effect) :=
    Canvas (Editor (shapes (host c)) (trace (host c) ++ tr))
           (assets c) (pictures c) (selection c) in
  let exportSvg := ExportSvg (map id (guides w)) in
  if (length (getSelectedShapes w) =? 0)%nat then
    (Threw (js "First select something to improve."), c)
  else if (length (guides w) =? 0)%nat then
    (Threw (js "No drawable shapes selected."), c)
  else
    match getSvg w (guides w) with
    | Threw e => (Threw e, at_ [exportSvg])
    | Pends => (Pends, at_ [exportSvg])
    | Returned None => (Threw (js "Could not generate SVG from selection."), at_ [exportSvg])
    | Returned (Some svg) =>
        match getSvgAsImage w svg with
        | Threw e => (Threw e, at_ [exportSvg])
        | Pends => (Pends, at_ [exportSvg])
        | Returned None => (Threw (js "Could not generate image from SVG."), at_ [exportSvg])
        | Returned (Some blob) =>
            match blobToBase64 w (Some blob) with
            | Threw e => (Threw e, at_ [exportSvg])
            | Pends => (Pends, at_ [exportSvg])
            | Returned _ =>
                let sent := [exportSvg; Fetch queueImageUrl] in
                match fetch w queueImageUrl with
                | Threw e => (Threw e, at_ sent)
                | Pends => (Pends, at_ sent)
                | Returned resp =>
                    match ok resp, json resp with
                    | false, Returned errorData => (Threw (apiError errorData resp), at_ sent)
                    | _, Threw e => (Threw e, at_ sent)
                    | _, Pends => (Pends, at_ sent)
                    | true, Returned body =>
                        let url := subscribeUrl (task_id body) in
                        let waited := sent ++ [OpenEventSource url] in
                        match promise (runWait ImageGeneration (channel w url)) with
                        | Pending => (Pends, at_ waited)
                        | Rejected e => (Threw e, at_ waited)
                        | Fulfilled (VImage image width height) =>
                            match getSelectionPageBounds w with
                            | None =>
                                (Threw (js "Could not determine selection bounds."),
                                 at_ waited)
                            | Some b =>
                                (Returned (createShapeId w),
                                 Canvas (Editor (shapes (host c))
                                                (trace (host c) ++ waited))
                                        (assets c ++
                                         [improvedAsset newAssetId image width height])
                                        (pictures c ++
                                         [ImageShape (createShapeId w)
                                                     (maxX b + 60)%float
                                                     (maxY b - 300)%float
                                                     newAssetId width height])
                                        [createShapeId w])
                            end
                        | Fulfilled _ => (Threw (js "No image was generated"), at_ waited)
                        end
                    end
                end
            end
        end
    end.

(* ===================================================================== *)
(** ** The preview element: [Model3DPreviewShapeUtil] *)
(* ===================================================================== *)

(** The properties of a [model3d] shape that the orchestrators do not
    touch, beside those of [shapeProps]. *)
Record boxProps : Type := BoxProps {
  objectCode : jsstring;
  w : float;
  h : float
}.

(** [getDefaultProps()] *)
Definition getDefaultProps : shapeProps * boxProps :=
  (ShapeProps (Some []) (Some []) (Some false) [],
   BoxProps [] ((960 * 2) / 3)%float ((540 * 2) / 3)%float).

(** The document of a model file, before and after the place where the
    URL of the model is spliced in.  The double quotes of the source are
    written [dquote]. *)
Definition gltfDocumentBefore : jsstring :=
  js "<!DOCTYPE html>
<html>
<head>
    <meta charset="
  ++ [dquote] ++ js "utf-8"
  ++ [dquote] ++ js ">
    <meta name="
  ++ [dquote] ++ js "viewport"
  ++ [dquote] ++ js " content="
  ++ [dquote] ++ js "width=device-width, initial-scale=1.0"
  ++ [dquote] ++ js ">
    <title>3D Model Preview</title>
    <style>
        body { 
            margin: 0; 
            padding: 0; 
            overflow: hidden; 
            width: 100%; 
            height: 100%;
            background-color: transparent;
        }
        canvas { 
            display: block; 
            width: 100% !important; 
            height: 100% !important;
        }
        /* Help tooltip */
        .help-tooltip {
            position: absolute;
            bottom: 10px;
            left: 10px;
            background: rgba(0,0,0,0.7);
            color: white;
            padding: 8px 12px;
            border-radius: 4px;
            font-family: sans-serif;
            font-size: 12px;
            opacity: 0.7;
            pointer-events: none;
        }
    </style>
</head>
<body>
    <div class="
  ++ [dquote] ++ js "help-tooltip"
  ++ [dquote] ++ js ">
        <p>Left-click + drag: Rotate</p>
        <p>Right-click + drag: Pan</p>
        <p>Scroll: Zoom</p>
    </div>
    <script type="
  ++ [dquote] ++ js "module"
  ++ [dquote] ++ js ">
    import * as THREE from "
  ++ [dquote] ++ js "https://esm.sh/three"
  ++ [dquote] ++ js ";
    import { OrbitControls } from "
  ++ [dquote] ++ js "https://esm.sh/three/examples/jsm/controls/OrbitControls.js"
  ++ [dquote] ++ js ";
    import { GLTFLoader } from "
  ++ [dquote] ++ js "https://esm.sh/three/examples/jsm/loaders/GLTFLoader.js"
  ++ [dquote] ++ js ";
    
    // Set up scene
    const scene = new THREE.Scene();
    scene.background = new THREE.Color(0xf0f0f0);
    
    // Set up camera
    const camera = new THREE.PerspectiveCamera(75, window.innerWidth / window.innerHeight, 0.1, 1000);
    camera.position.set(0, 0, 5);
    
    // Set up renderer
    const renderer = new THREE.WebGLRenderer({ antialias: true });
    renderer.setSize(window.innerWidth, window.innerHeight);
    renderer.setPixelRatio(window.devicePixelRatio);
    renderer.shadowMap.enabled = true;
    document.body.appendChild(renderer.domElement);
    
    // Controls
    const controls = new OrbitControls(camera, renderer.domElement);
    controls.enableDamping = true;
    
    // Enhanced lighting setup
    // Ambient light for global illumination
    const ambientLight = new THREE.AmbientLight(0xffffff, 0.6);
    scene.add(ambientLight);
    
    // Main directional light (sun-like)
    const mainLight = new THREE.DirectionalLight(0xffffff, 1.2);
    mainLight.position.set(10, 10, 10);
    // mainLight.castShadow = true;
    // Improve shadow quality
    mainLight.shadow.mapSize.width = 2048;
    mainLight.shadow.mapSize.height = 2048;
    mainLight.shadow.camera.near = 0.5;
    mainLight.shadow.camera.far = 50;
    mainLight.shadow.bias = -0.0001;
    scene.add(mainLight);
    
    // Secondary fill light from the opposite side
    const fillLight = new THREE.DirectionalLight(0xffffee, 0.8);
    fillLight.position.set(-10, 5, -10);
    scene.add(fillLight);
    
    // Rim light to highlight edges
    const rimLight = new THREE.DirectionalLight(0xeeeeff, 0.6);
    rimLight.position.set(0, -10, -15);
    scene.add(rimLight);
    
    // Soft light from below for better dimension
    const bottomLight = new THREE.DirectionalLight(0xeeeeff, 0.4);
    bottomLight.position.set(0, -10, 0);
    scene.add(bottomLight);
    
    // Add hemisphere light for more natural outdoor-like lighting
    const hemiLight = new THREE.HemisphereLight(0xffffff, 0x444444, 0.7);
    hemiLight.position.set(0, 20, 0);
    scene.add(hemiLight);
    
    // Environment lighting for reflections (if model has reflective materials)
    renderer.outputEncoding = THREE.sRGBEncoding;
    renderer.toneMapping = THREE.ACESFilmicToneMapping;
    renderer.toneMappingExposure = 1.2;
    
    // Add a circular ground plate
    const groundRadius = 10;
    const groundGeometry = new THREE.CircleGeometry(groundRadius, 72);
    // Rotate the ground plate to be horizontal (it's vertical by default)
    groundGeometry.rotateX(-Math.PI / 2);
    
    // Create a nice material for the ground
    const groundMaterial = new THREE.MeshStandardMaterial({
      color: 0x888888,
      roughness: 0.8,
      metalness: 0.2,
      side: THREE.DoubleSide,
    });
    
    const groundPlate = new THREE.Mesh(groundGeometry, groundMaterial);
    groundPlate.receiveShadow = true;
    groundPlate.position.y = -2; // Slightly below origin to avoid z-fighting
    scene.add(groundPlate);
    
    // Load GLTF model
    const loader = new GLTFLoader();
    loader.load('".

Definition gltfDocumentAfter : jsstring :=
  js "', (gltf) => {
      const model = gltf.scene;
      
      // Center model
      const box = new THREE.Box3().setFromObject(model);
      const center = box.getCenter(new THREE.Vector3());
      const size = box.getSize(new THREE.Vector3());
      
      // Reset model position to center
      model.position.x = -center.x;
      model.position.y = -center.y;
      model.position.z = -center.z;
      
      // Scale model to fit view
      const maxDim = Math.max(size.x, size.y, size.z);
      if (maxDim > 0) {
        const scale = 3 / maxDim;
        model.scale.set(scale, scale, scale);
      }
      
      // Add spotlight directly aimed at the model for better visibility
      const spotLight = new THREE.SpotLight(0xffffff, 1.5);
      spotLight.position.set(0, 10, 0);
      spotLight.angle = Math.PI / 4;
      spotLight.penumbra = 0.1;
      spotLight.decay = 0;
      spotLight.distance = 50;
      spotLight.castShadow = true;
      spotLight.shadow.bias = -0.0001;
      spotLight.shadow.mapSize.width = 1024;
      spotLight.shadow.mapSize.height = 1024;
      scene.add(spotLight);
      
      // Target the spotlight at the model's center
      spotLight.target = model;
      scene.add(spotLight.target);
      
      // Enhance model materials for better visibility
      model.traverse((node) => {
        if (node instanceof THREE.Mesh) {
          if (node.material) {
            // For each material in the model, increase brightness
            const modifyMaterial = (material) => {
              // Increase the overall brightness
              if (material.color) {
                // Store original color for reference
                if (!material.userData) material.userData = {};
                material.userData.originalColor = material.color.clone();
                
                // Brighten the color (multiply RGB values to make it brighter)
                const brightenFactor = 10;  // Adjust as needed
                material.color.r = Math.min(material.color.r * brightenFactor, 1);
                material.color.g = Math.min(material.color.g * brightenFactor, 1);
                material.color.b = Math.min(material.color.b * brightenFactor, 1);
              }
              
              // Add slight emissive glow to make model stand out
              if (material.emissive) {
                material.emissiveIntensity = 0.4;
                material.emissive = new THREE.Color(0x333333);
              }
              
              // Increase material contrast
              if (material.roughness !== undefined) {
                material.roughness = Math.max(material.roughness * 0.8, 0.1);
              }
              
              // Enhance specularity for more visual pop
              if (material.metalness !== undefined) {
                material.metalness = Math.min(material.metalness + 0.1, 1.0);
              }
            };
            
            // Apply to individual material or material array
            if (Array.isArray(node.material)) {
              node.material.forEach(modifyMaterial);
            } else {
              modifyMaterial(node.material);
            }
          }
        }
      });
      
      scene.add(model);
      
      // Add a subtle outline effect to make the model stand out
      const edgeGlow = new THREE.Group();
      const edgeLight1 = new THREE.PointLight(0xffffcc, 0.6, 10);
      edgeLight1.position.set(2, 2, 2);
      const edgeLight2 = new THREE.PointLight(0xccffff, 0.6, 10);
      edgeLight2.position.set(-2, 1, -2);
      edgeGlow.add(edgeLight1, edgeLight2);
      scene.add(edgeGlow);
    }, 
    // Progress callback
    (xhr) => {
      console.log((xhr.loaded / xhr.total * 100) + '% loaded');
    },
    // Error callback
    (error) => {
      console.error('Error loading GLTF model:', error);
    });
    
    // Handle window resize
    window.addEventListener('resize', () => {
      camera.aspect = window.innerWidth / window.innerHeight;
      camera.updateProjectionMatrix();
      renderer.setSize(window.innerWidth, window.innerHeight);
    });
    
    // Animation loop
    function animate() {
      requestAnimationFrame(animate);
      controls.update();
      renderer.render(scene, camera);
    }
    
    animate();
    
    // Prevent zooming issues
    document.body.addEventListener('wheel', e => { 
        if (!e.ctrlKey) return; 
        e.preventDefault(); 
        return 
    }, { passive: false });
    </script>
</body>
</html>".

(** The document of scene code, before and after the place where the code
    is spliced in. *)
Definition codeDocumentBefore : jsstring :=
  js "<!DOCTYPE html>
<html>
<head>
    <meta charset="
  ++ [dquote] ++ js "utf-8"
  ++ [dquote] ++ js ">
    <meta name="
  ++ [dquote] ++ js "viewport"
  ++ [dquote] ++ js " content="
  ++ [dquote] ++ js "width=device-width, initial-scale=1.0"
  ++ [dquote] ++ js ">
    <title>3D Model Preview</title>
    <style>
        body { 
            margin: 0; 
            padding: 0; 
            overflow: hidden; 
            width: 100%; 
            height: 100%;
            background-color: transparent;
        }
        canvas { 
            display: block; 
            width: 100% !important; 
            height: 100% !important;
        }
        /* Help tooltip */
        .help-tooltip {
            position: absolute;
            bottom: 10px;
            left: 10px;
            background: rgba(0,0,0,0.7);
            color: white;
            padding: 8px 12px;
            border-radius: 4px;
            font-family: sans-serif;
            font-size: 12px;
            opacity: 0.7;
            pointer-events: none;
        }
    </style>
</head>
<body>
    <div class="
  ++ [dquote] ++ js "help-tooltip"
  ++ [dquote] ++ js ">
        <p>Left-click + drag: Rotate</p>
        <p>Right-click + drag: Pan</p>
        <p>Scroll: Zoom</p>
    </div>
    <script type="
  ++ [dquote] ++ js "module"
  ++ [dquote] ++ js ">
    import * as THREE from "
  ++ [dquote] ++ js "https://esm.sh/three"
  ++ [dquote] ++ js ";
    import { OrbitControls } from "
  ++ [dquote] ++ js "https://esm.sh/three/examples/jsm/controls/OrbitControls.js"
  ++ [dquote] ++ js ";
    ".

Definition codeDocumentAfter : jsstring :=
  js "
      // Prevent zooming issues
      document.body.addEventListener('wheel', e => { 
          if (!e.ctrlKey) return; 
          e.preventDefault(); 
          return 
      }, { passive: false });
    </script>
</body>
</html>".

Definition gltfDocument (gltfUrl : jsstring) : jsstring :=
  gltfDocumentBefore ++ gltfUrl ++ gltfDocumentAfter.

Definition codeDocument (threeJsCode : jsstring) : jsstring :=
  codeDocumentBefore ++ threeJsCode ++ codeDocumentAfter.

(** [isGltf] as a condition: [undefined] and [false] are falsy. *)
Definition isTrue (o : option bool) : bool :=
  match o with
  | Some true => true
  | _ => false
  end.

(** [htmlToUse] in [component]: the document shown in the frame of the
    preview element; the empty string when there is nothing to show. *)
Definition htmlToUse (props : shapeProps) : jsstring :=
  if isTrue (isGltf props) && truthy (gltfUrl props) then
    gltfDocument (orElse (gltfUrl props) [])
  else if truthy (threeJsCode props) then
    codeDocument (orElse (threeJsCode props) [])
  else [].

(** What [component] puts into the container of the shape: the frame
    with the document, covered by a notice while the model is regenerated
    or edited, or the spinner of an empty preview.  The buttons beside
    the frame and the hint below it are left out. *)
Inductive rendering : Type :=
| Frame (srcDoc : jsstring) (notice : option jsstring)
| Spinner.

Definition component (props : shapeProps) (isRegenerating isEditingModel : bool)
    : rendering :=
  match htmlToUse props with
  | [] => Spinner
  | htmlToUse =>
      Frame htmlToUse
            (if isRegenerating || isEditingModel then
               Some (if isRegenerating then js "Regenerating 3D model..."
                     else js "Editing 3D model...")
             else None)
  end.

(** *** [toSvg]: the snapshot taken for an export *)

(** The [data] of a [message] event on the window, as far as the
    listener reads it. *)
Record screenshotData : Type := ScreenshotData {
  screenshot : option jsstring;
  shapeid : option TLShapeId
}.

(** A [message] event on the window: its [data] is an object, or it is
    [null] or [undefined], and reading a property of it throws. *)
Inductive windowMessage : Type :=
| WithData (d : screenshotData)
| WithoutData.

(** The [image] element appended to the group. *)
Record svgImage : Type := SvgImage {
  href : jsstring;
  widthAttr : jsstring;
  heightAttr : jsstring
}.

(** The state of one call of [toSvg]: the children of the group [g], the
    listener and the timer, the calls of [resolve(g)] and the requests
    posted to the frame. *)
Record snapshot : Type := Snapshot {
  group : list svgImage;
  listening : bool;
  timeOut : bool;
  resolveCalls : nat;
  requests : list TLShapeId
}.

Section ToSvg.
(** [Number.prototype.toString] *)
Variable toString : float -> jsstring.
Variable shapeId : TLShapeId.
Variable box : boxProps.

(** [windowListener] *)
Definition windowListener (ev : windowMessage) : Eff snapshot unit :=
  data ← match ev with
         | WithData d => mret d
         | WithoutData =>
             throw (js "TypeError: Cannot read properties of null (reading 'screenshot')")
         end;
  if truthy (screenshot data)
     && match shapeid data with
        | Some i => i =? shapeId
        | None => false
        end
  then
    modifyState (fun st =>
      Snapshot (group st ++ [SvgImage (orElse (screenshot data) [])
                                      (toString (w box)) (toString (h box))])
               false false (S (resolveCalls st)) (requests st))
  else mret tt.

(** The callback of the timer of two seconds. *)
Definition snapshotTimer : Eff snapshot unit :=
  modifyState (fun st =>
    Snapshot (group st) false (timeOut st) (S (resolveCalls st)) (requests st)).

(** The state after the promise executor has run in a browser, where
    [window] is defined: the timer is set, the listener is added and,
    when the frame of the shape is in the document, a screenshot is
    requested from it. *)
Definition initSnapshot (hasFrame : bool) : snapshot :=
  Snapshot [] true true 0 (if hasFrame then [shapeId] else []).

Definition deliverMessage (st : snapshot) (ev : windowMessage) : snapshot :=
  if listening st then execEff (windowListener ev) st else st.

Definition fireSnapshotTimer (st : snapshot) : snapshot :=
  if timeOut st then
    execEff snapshotTimer
      (Snapshot (group st) (listening st) false (resolveCalls st) (requests st))
  else st.

(** A whole call of [toSvg], given the messages that arrive on the window
    with their times in milliseconds after the call. *)
Definition toSvg (hasFrame : bool) (arrivals : list (N * windowMessage))
    : snapshot :=
  let early := List.filter (fun a => fst a <? 2000) arrivals in
  let late := List.filter (fun a => 2000 <=? fst a) arrivals in
  fold_left deliverMessage (map snd late)
    (fireSnapshotTimer (fold_left deliverMessage (map snd early)
                                  (initSnapshot hasFrame))).

(** A message that carries a screenshot of this shape. *)
Definition isScreenshot (ev : windowMessage) : bool :=
  match ev with
  | WithData d =>
      truthy (screenshot d)
      && match shapeid d with
         | Some i => i =? shapeId
         | None => false
         end
  | WithoutData => false
  end.

(** The image made of the first screenshot that arrives in time. *)
Definition firstScreenshot (arrivals : list (N * windowMessage)) : list svgImage :=
  match List.find (fun a => (fst a <? 2000) && isScreenshot (snd a)) arrivals with
  | Some (_, WithData d) =>
      [SvgImage (orElse (screenshot d) []) (toString (w box)) (toString (h box))]
  | _ => []
  end.
End ToSvg.

(** A preview element that shows a model file and still has scene code. *)
Definition gltfModel : shape :=
  Shape 3 (js "model3d") 0%float 0%float
        (ShapeProps (Some (js "scene.add(mesh);")) (Some (js "model.glb"))
                    (Some true) []).

(** A world like [answeringWorld], whose answers carry no task id: the
    body is the empty object. *)
Definition anonymousWorld (p : payload) : world :=
  World [drawing] (Some sampleBounds) 7
        (fun _ => Returned (Some 0))
        (fun _ => Returned (Some 0))
        (fun _ => Returned (js "data:image/png;base64,AAAA"))
        []
        (fun _ => Returned (Response true (js "OK") (Returned (JsonBody None None None))))
        (fun _ => [(1000, Message (Json p))]).

(** A world like [answeringWorld] in which every channel is a socket that
    opens and is closed from the other side after two seconds. *)
Definition hangingWorld : world :=
  World [drawing] (Some sampleBounds) 7
        (fun _ => Returned (Some 0))
        (fun _ => Returned (Some 0))
        (fun _ => Returned (js "data:image/png;base64,AAAA"))
        []
        (fun _ => Returned (Response true (js "OK")
                         (Returned (JsonBody None (Some (js "t1"))
                                        (Some (Some (js "t1")))))))
        (fun _ => [(10, Opened)] ++ (2000, SocketClosed) :: []).

(* ===================================================================== *)
(** ** Proof tools *)
(* ===================================================================== *)

Ltac minv1 H := inversion H; subst; clear H.

(** Inversion of a match of a concrete pattern, one constructor at a time. *)
Ltac minv :=
  repeat match goal with
  | H : matches (Seq _ _) _ _ _ _ _ |- _ => minv1 H
  | H : matches (Lit _) _ _ _ _ _ |- _ => minv1 H
  | H : matches (Cls _) _ _ _ _ _ |- _ => minv1 H
  | H : matches (Star _) _ _ _ _ _ |- _ => minv1 H
  | H : matches (StarLazy _) _ _ _ _ _ |- _ => minv1 H
  | H : matches (Group _) _ _ _ _ _ |- _ => minv1 H
  | H : matches Bol _ _ _ _ _ |- _ => minv1 H
  | H : matches Eol _ _ _ _ _ |- _ => minv1 H
  end.

(** Unfolding of the effect combinators on the state of a wait. *)
Ltac effsimpl :=
  cbv [execEff runListeners fold_left tryCatch tryFinally mbind mret Eff_bind Eff_ret
       effBind effRet throw getState modifyState JSON_parse resolve reject settle close
       clearTimer cleanup snd fst kind promise settlements settleCalls ready closings
       closeCalls timerArmed inService setReady failedState] in *.

Ltac handlers :=
  cbv [codeGeneration_onmessage codeGeneration_complete codeGeneration_error
       codeGeneration_onerror codeGeneration_timer taskResult_onmessage
       taskResult_onerror taskResult_timer imageGeneration_complete
       codeEditing_complete sse_error imageGeneration_error codeEditing_error
       sse_onerror sse_timer timerCallback noData] in *.

(** Unfolding of the effect combinators on the state of the editor. *)
Ltac tasksimpl :=
  cbv [tryCatch tryFinally mbind mret Eff_bind Eff_ret effBind effRet throw
       getState modifyState emit createShape deleteShape updateShape call await
       checkOk shapes trace] in *.

(* ===================================================================== *)
(** ** The matcher is sound and complete *)
(* ===================================================================== *)

Lemma lastOr_nil prev : lastOr prev [] = prev.
Proof. reflexivity. Qed.

Lemma lastOr_cons prev c w : lastOr prev (c :: w) = lastOr (Some c) w.
Proof.
  unfold lastOr. destruct w as [|d w]; [reflexivity|].
  rewrite last_cons. destruct (last (d :: w)) eqn:E; [reflexivity|].
  simpl in E. destruct w; simpl in E; try discriminate.
  apply last_None in E. discriminate.
Qed.

Lemma lastOr_app prev w1 w2 : lastOr (lastOr prev w1) w2 = lastOr prev (w1 ++ w2).
Proof.
  revert prev. induction w1 as [|c w1 IH]; intros prev; [reflexivity|].
  simpl app. rewrite !lastOr_cons. apply IH.
Qed.

Lemma stripPrefix_Some l s s' : stripPrefix l s = Some s' -> s = l ++ s'.
Proof.
  revert s. induction l as [|x l IH]; intros [|c s]; simpl; intros H;
    try discriminate; try (injection H as <-; reflexivity).
  destruct (x =? c) eqn:E; [|discriminate].
  apply N.eqb_eq in E. subst c. f_equal. apply IH, H.
Qed.

Lemma stripPrefix_app l s : stripPrefix l (l ++ s) = Some s.
Proof.
  induction l as [|x l IH]; simpl; [reflexivity|].
  rewrite N.eqb_refl. exact IH.
Qed.

Lemma take_app_length_sub (w rest : jsstring) :
  take (length (w ++ rest) - length rest) (w ++ rest) = w.
Proof.
  rewrite length_app. replace (length w + length rest - length rest)%nat
    with (length w) by lia.
  apply take_app_length.
Qed.

Lemma take_of_split (s w rest : jsstring) :
  s = w ++ rest -> take (length s - length rest) s = w.
Proof. intros ->. apply take_app_length_sub. Qed.

Section MatcherCorrect.
Context {A : Type}.

Lemma starGreedy_sound cl (k : option N -> jsstring -> option A) prev s a :
  starGreedy cl k prev s = Some a ->
  exists w rest, s = w ++ rest /\ Forall (fun c => cmatch cl c = true) w /\
                 k (lastOr prev w) rest = Some a.
Proof.
  revert prev. induction s as [|c s IH]; intros prev; simpl.
  - intros H. exists [], []. auto.
  - destruct (cmatch cl c) eqn:E.
    + destruct (starGreedy cl k (Some c) s) as [a'|] eqn:E'.
      * intros H; injection H as ->.
        destruct (IH _ E') as (w & rest & -> & Hw & Hk).
        exists (c :: w), rest. rewrite lastOr_cons. auto.
      * intros H. exists [], (c :: s). auto.
    + intros H. exists [], (c :: s). auto.
Qed.

Lemma starLazy_sound cl (k : option N -> jsstring -> option A) prev s a :
  starLazy cl k prev s = Some a ->
  exists w rest, s = w ++ rest /\ Forall (fun c => cmatch cl c = true) w /\
                 k (lastOr prev w) rest = Some a.
Proof.
  revert prev. induction s as [|c s IH]; intros prev; simpl.
  - destruct (k prev []) eqn:E; [|discriminate].
    intros H; injection H as ->. exists [], []. auto.
  - destruct (k prev (c :: s)) eqn:E.
    + intros H; injection H as ->. exists [], (c :: s). auto.
    + destruct (cmatch cl c) eqn:Ec; [|discriminate].
      intros H. destruct (IH _ H) as (w & rest & -> & Hw & Hk).
      exists (c :: w), rest. rewrite lastOr_cons. auto.
Qed.

Lemma starGreedy_fallback cl (k : option N -> jsstring -> option A) prev s :
  k prev s <> None -> starGreedy cl k prev s <> None.
Proof.
  intros H. destruct s as [|c s]; simpl; [exact H|].
  destruct (cmatch cl c); [|exact H].
  destruct (starGreedy cl k (Some c) s); [discriminate|exact H].
Qed.

Lemma starGreedy_complete cl (k : option N -> jsstring -> option A) prev w rest :
  Forall (fun c => cmatch cl c = true) w ->
  k (lastOr prev w) rest <> None ->
  starGreedy cl k prev (w ++ rest) <> None.
Proof.
  intros Hw. revert prev. induction Hw as [|c w Hc _ IH]; intros prev Hk.
  - apply starGreedy_fallback, Hk.
  - simpl. rewrite Hc. rewrite lastOr_cons in Hk. specialize (IH _ Hk).
    destruct (starGreedy cl k (Some c) (w ++ rest)); [discriminate|contradiction].
Qed.

Lemma starLazy_complete cl (k : option N -> jsstring -> option A) prev w rest :
  Forall (fun c => cmatch cl c = true) w ->
  k (lastOr prev w) rest <> None ->
  starLazy cl k prev (w ++ rest) <> None.
Proof.
  intros Hw. revert prev. induction Hw as [|c w Hc _ IH]; intros prev Hk.
  - simpl app. destruct rest as [|c rest]; simpl;
      destruct (k prev _) eqn:E; try discriminate; contradiction.
  - simpl. destruct (k prev (c :: w ++ rest)); [discriminate|].
    rewrite Hc. rewrite lastOr_cons in Hk. apply IH, Hk.
Qed.
End MatcherCorrect.

(** Soundness: the matcher only reports matches of the pattern. *)
Lemma rmatch_sound (r : re) :
  forall (A : Type) (k : @cont A) prev s cap a,
    rmatch r prev s cap k = Some a ->
    exists w rest cap',
      s = w ++ rest /\ matches r prev w rest cap cap' /\
      k (lastOr prev w) rest cap' = Some a.
Proof.
  induction r as [l | cl | cl | cl | r IH | r1 IH1 r2 IH2 | r IH | | ];
    intros A k prev s cap a; simpl.
  - destruct (stripPrefix l s) as [s'|] eqn:E; [|discriminate].
    apply stripPrefix_Some in E. subst s. intros H.
    exists l, s', cap. split; [reflexivity|]. split; [constructor|exact H].
  - destruct s as [|c s]; [discriminate|].
    destruct (cmatch cl c) eqn:E; [|discriminate]. intros H.
    exists [c], s, cap. split; [reflexivity|]. split; [constructor; exact E|exact H].
  - intros H. apply starGreedy_sound in H as (w & rest & -> & Hw & Hk).
    exists w, rest, cap. split; [reflexivity|]. split; [constructor; exact Hw|exact Hk].
  - intros H. apply starLazy_sound in H as (w & rest & -> & Hw & Hk).
    exists w, rest, cap. split; [reflexivity|]. split; [constructor; exact Hw|exact Hk].
  - destruct (rmatch r prev s cap k) as [a'|] eqn:E.
    + intros H; injection H as ->.
      destruct (IH _ _ _ _ _ _ E) as (w & rest & cap' & -> & Hm & Hk).
      exists w, rest, cap'. split; [reflexivity|]. split; [apply MOptSome, Hm|exact Hk].
    + intros H. exists [], s, cap. split; [reflexivity|].
      split; [apply MOptNone|exact H].
  - intros H.
    destruct (IH1 _ _ _ _ _ _ H) as (w1 & rest1 & cap1 & -> & Hm1 & Hk1).
    destruct (IH2 _ _ _ _ _ _ Hk1) as (w2 & rest & cap2 & -> & Hm2 & Hk2).
    exists (w1 ++ w2), rest, cap2. rewrite <- app_assoc. split; [reflexivity|].
    split; [econstructor; eassumption|]. rewrite <- lastOr_app. exact Hk2.
  - intros H.
    destruct (IH _ _ _ _ _ _ H) as (w & rest & cap' & -> & Hm & Hk).
    rewrite take_app_length_sub in Hk.
    exists w, rest, (Some w). split; [reflexivity|].
    split; [econstructor; exact Hm|exact Hk].
  - destruct (atLineStart prev) eqn:E; [|discriminate]. intros H.
    exists [], s, cap. split; [reflexivity|]. split; [constructor; exact E|exact H].
  - destruct (atLineEnd s) eqn:E; [|discriminate]. intros H.
    exists [], s, cap. split; [reflexivity|]. split; [constructor; exact E|exact H].
Qed.

(** Completeness: where the pattern can match and the continuation
    accepts, the matcher does not fail. *)
Lemma rmatch_complete r prev w rest cap cap' :
  matches r prev w rest cap cap' ->
  forall (A : Type) (k : @cont A),
    k (lastOr prev w) rest cap' <> None ->
    rmatch r prev (w ++ rest) cap k <> None.
Proof.
  induction 1 as [l prev rest cap | cl c prev rest cap Hc
                 | cl w prev rest cap Hw | cl w prev rest cap Hw
                 | r prev w rest cap cap' Hm IH | r prev rest cap
                 | r1 r2 prev w1 w2 rest cap cap1 cap2 Hm1 IH1 Hm2 IH2
                 | r prev w rest cap cap' Hm IH
                 | prev rest cap Hb | prev rest cap He];
    intros A k Hk; simpl.
  - rewrite stripPrefix_app. exact Hk.
  - rewrite Hc. exact Hk.
  - apply (starGreedy_complete cl (fun p s' => k p s' cap)); assumption.
  - apply (starLazy_complete cl (fun p s' => k p s' cap)); assumption.
  - specialize (IH A k Hk).
    destruct (rmatch r prev (w ++ rest) cap k); [discriminate|contradiction].
  - destruct (rmatch r prev rest cap k); [discriminate|exact Hk].
  - rewrite <- app_assoc. apply IH1. apply IH2. rewrite lastOr_app. exact Hk.
  - apply IH. rewrite take_app_length_sub. exact Hk.
  - rewrite Hb. exact Hk.
  - rewrite He. exact Hk.
Qed.

Lemma exec_sound r prev s cap rest :
  exec r prev s = Some (cap, rest) ->
  exists w, s = w ++ rest /\ matches r prev w rest None cap.
Proof.
  unfold exec. intros H. apply rmatch_sound in H as (w & rest' & cap' & -> & Hm & Hk).
  injection Hk as -> ->. exists w. auto.
Qed.

Lemma exec_complete r prev w rest cap :
  matches r prev w rest None cap -> exec r prev (w ++ rest) <> None.
Proof.
  intros H. unfold exec. eapply rmatch_complete; [exact H|discriminate].
Qed.

Lemma searchFrom_eq r before prev s :
  searchFrom r before prev s
  = match exec r prev s with
    | Some (cap, rest) =>
        Some (MatchResult before (take (length s - length rest) s) cap rest)
    | None =>
        match s with
        | [] => None
        | c :: s' => searchFrom r (before ++ [c]) (Some c) s'
        end
    end.
Proof. destruct s; reflexivity. Qed.

(** The search reports a match of the pattern. *)
Lemma searchFrom_sound r before prev s m :
  searchFrom r before prev s = Some m ->
  exists skipped,
    mBefore m = before ++ skipped /\
    s = skipped ++ mText m ++ mAfter m /\
    matches r (lastOr prev skipped) (mText m) (mAfter m) None (mGroup1 m).
Proof.
  revert before prev. induction s as [|c s IH]; intros before prev;
    rewrite searchFrom_eq;
    (destruct (exec r prev _) as [[cap rest]|] eqn:E;
     [ intros H; injection H as <-; cbn [mBefore mText mGroup1 mAfter];
       apply exec_sound in E as (w & Hs & Hm);
       exists []; rewrite app_nil_r;
       try change (S (length s)) with (length (c :: s));
       first [ rewrite (take_of_split _ _ _ Hs)
             | symmetry in Hs; apply app_eq_nil in Hs as [-> ->] ];
       auto
     | ]).
  - discriminate.
  - intros H. apply IH in H as (skipped & Hb & Hs & Hm).
    exists (c :: skipped). rewrite Hb, <- app_assoc. simpl.
    rewrite lastOr_cons. split; [reflexivity|]. split; [f_equal; exact Hs|exact Hm].
Qed.

Lemma searchFrom_leftmost r before prev skipped w post cap m :
  matches r (lastOr prev skipped) w post None cap ->
  searchFrom r before prev (skipped ++ w ++ post) = Some m ->
  (length (mBefore m) <= length before + length skipped)%nat.
Proof.
  revert before prev. induction skipped as [|c skipped IH]; intros before prev Hw;
    rewrite searchFrom_eq.
  - apply exec_complete in Hw. change (lastOr prev []) with prev in Hw.
    simpl app.
    destruct (exec r prev (w ++ post)) as [[cap' rest]|]; [|congruence].
    intros H; injection H as <-. simpl. lia.
  - simpl app.
    destruct (exec r prev (c :: skipped ++ w ++ post)) as [[cap' rest]|].
    + intros H; injection H as <-. simpl. lia.
    + intros H. rewrite lastOr_cons in Hw.
      specialize (IH (before ++ [c]) (Some c) Hw H).
      rewrite length_app in IH. simpl in *. lia.
Qed.

Lemma searchFrom_complete r before prev skipped w post cap :
  matches r (lastOr prev skipped) w post None cap ->
  searchFrom r before prev (skipped ++ w ++ post) <> None.
Proof.
  revert before prev. induction skipped as [|c skipped IH]; intros before prev Hm.
  - apply exec_complete in Hm. change (lastOr prev []) with prev in Hm.
    simpl app. rewrite searchFrom_eq.
    destruct (exec r prev (w ++ post)) as [[? ?]|]; [discriminate|congruence].
  - rewrite searchFrom_eq. simpl app.
    destruct (exec r prev (c :: skipped ++ w ++ post)) as [[? ?]|];
      [discriminate|].
    apply IH. rewrite <- (lastOr_cons prev). exact Hm.
Qed.

(* ===================================================================== *)
(** ** The patterns of the extraction cascade *)
(* ===================================================================== *)

Ltac mbuild :=
  repeat first
    [ eapply MSeq | apply MLit | apply MCls | apply MStar | apply MStarLazy
    | eapply MGroup | apply MBol | apply MEol ].

Lemma Forall_any (w : jsstring) : Forall (fun c => cmatch CAny c = true) w.
Proof. apply Forall_forall. reflexivity. Qed.

Lemma cls_nl c : cmatch (CIn [nl]) c = true -> c = nl.
Proof.
  simpl. rewrite orb_false_r. apply N.eqb_eq.
Qed.

Lemma notIn_gt c : cmatch (CNotIn (js ">")) c = true <-> c <> 62.
Proof.
  simpl. rewrite orb_false_r, negb_true_iff. apply N.eqb_neq.
Qed.

Lemma jsPattern_inv prev w rest cap :
  matches jsPattern prev w rest None cap ->
  exists ws body,
    w = js "```javascript" ++ ws ++ [nl] ++ body ++ js "```" /\
    allSpace ws /\ cap = Some body.
Proof.
  unfold jsPattern. intros H. minv.
  match goal with H : cmatch (CIn [nl]) _ = true |- _ => apply cls_nl in H; subst end.
  eexists _, _. split; [reflexivity|]. split; [assumption|reflexivity].
Qed.

Lemma jsPattern_intro prev ws body rest :
  allSpace ws ->
  matches jsPattern prev (js "```javascript" ++ ws ++ [nl] ++ body ++ js "```")
          rest None (Some body).
Proof.
  intros Hws. unfold jsPattern. mbuild; try reflexivity; try exact Hws.
  apply Forall_any.
Qed.

Lemma codePattern_inv prev w rest cap :
  matches codePattern prev w rest None cap ->
  exists word ws body,
    w = js "```" ++ word ++ ws ++ [nl] ++ body ++ js "```" /\
    Forall (fun c => isWord c = true) word /\ allSpace ws /\ cap = Some body.
Proof.
  unfold codePattern. intros H. minv.
  match goal with H : cmatch (CIn [nl]) _ = true |- _ => apply cls_nl in H; subst end.
  match goal with H : matches (Opt _) _ _ _ _ _ |- _ => minv1 H end.
  - minv.
    match goal with
    | |- exists _ _ _, _ ++ (?a ++ ?b) ++ _ ++ ?c ++ _ = _ /\ _ => exists a, b, c
    end.
    rewrite <- !app_assoc.
    split; [reflexivity|]. split; [assumption|]. split; [assumption|reflexivity].
  - exists [], []. eexists. split; [reflexivity|].
    split; [constructor|]. split; [constructor|reflexivity].
Qed.

Lemma codePattern_intro prev word ws body rest :
  Forall (fun c => isWord c = true) word -> allSpace ws ->
  matches codePattern prev
          (js "```" ++ (word ++ ws) ++ [nl] ++ body ++ js "```") rest None (Some body).
Proof.
  intros Hw Hws. unfold codePattern.
  eapply MSeq; [apply MLit|].
  eapply MSeq; [apply MOptSome; eapply MSeq; [apply MStar; exact Hw|apply MStar; exact Hws]|].
  mbuild; try reflexivity. apply Forall_any.
Qed.

Lemma scriptPattern_inv prev w rest cap :
  matches scriptPattern prev w rest None cap ->
  exists attrs body,
    w = js "<script" ++ attrs ++ js ">" ++ body ++ js "</script>" /\
    Forall (fun c => c <> 62) attrs /\ cap = Some body.
Proof.
  unfold scriptPattern. intros H. minv.
  eexists _, _. split; [reflexivity|]. split; [|reflexivity].
  eapply List.Forall_impl; [|eassumption]. intros c Hc. apply notIn_gt, Hc.
Qed.

Lemma scriptPattern_intro prev attrs body rest :
  Forall (fun c => c <> 62) attrs ->
  matches scriptPattern prev
          (js "<script" ++ attrs ++ js ">" ++ body ++ js "</script>")
          rest None (Some body).
Proof.
  intros Ha. unfold scriptPattern. mbuild; try reflexivity.
  - eapply List.Forall_impl; [|exact Ha]. intros c Hc. apply notIn_gt, Hc.
  - apply Forall_any.
Qed.

Lemma jsMatchRe_sound code r m :
  jsMatchRe code r = Some m ->
  code = mBefore m ++ mText m ++ mAfter m /\
  matches r (lastOr None (mBefore m)) (mText m) (mAfter m) None (mGroup1 m).
Proof.
  unfold jsMatchRe. intros H.
  apply searchFrom_sound in H as (skipped & Hb & Hs & Hm).
  simpl in Hb. subst skipped. auto.
Qed.

Lemma jsMatchRe_complete code r pre w post cap :
  code = pre ++ w ++ post -> matches r (lastOr None pre) w post None cap ->
  exists m, jsMatchRe code r = Some m.
Proof.
  intros -> Hm. unfold jsMatchRe.
  pose proof (searchFrom_complete r [] None pre w post cap Hm) as H.
  destruct (searchFrom r [] None (pre ++ w ++ post)) as [m|]; [eauto|contradiction].
Qed.

(** The match that [jsMatchRe] reports starts at the leftmost position at
    which the pattern can match. *)
Lemma jsMatchRe_leftmost code r m pre w post cap :
  jsMatchRe code r = Some m ->
  code = pre ++ w ++ post -> matches r (lastOr None pre) w post None cap ->
  (length (mBefore m) <= length pre)%nat.
Proof.
  unfold jsMatchRe. intros Hm -> Hw.
  pose proof (searchFrom_leftmost r [] None pre w post cap m Hw Hm) as H.
  simpl in H. lia.
Qed.

Lemma truthyGroup1_Some m g :
  truthyGroup1 m = Some g ->
  g <> [] /\ exists r, m = Some r /\ mGroup1 r = Some g.
Proof.
  destruct m as [r|]; simpl; [|discriminate].
  destruct (mGroup1 r) as [[|c g']|] eqn:E; try discriminate.
  intros H; injection H as <-. split; [discriminate|eauto].
Qed.

Lemma truthyGroup1_None r body :
  truthyGroup1 (Some r) = None -> mGroup1 r = Some body -> body = [].
Proof.
  simpl. intros H E. rewrite E in H. destruct body; [reflexivity|discriminate].
Qed.

Lemma jsPattern_reads : reads jsPattern jsFenceAt.
Proof.
  split.
  - intros prev w rest cap Hm.
    apply jsPattern_inv in Hm as (ws & body & -> & Hws & ->).
    exists body. split; [reflexivity|]. intros pre. exists ws.
    split; [|exact Hws]. rewrite <- !app_assoc. reflexivity.
  - intros code pre body post (ws & -> & Hws).
    exists (js "```javascript" ++ ws ++ [nl] ++ body ++ js "```").
    split; [rewrite <- !app_assoc; reflexivity|].
    intros prev. apply jsPattern_intro, Hws.
Qed.

Lemma codePattern_reads : reads codePattern fenceAt.
Proof.
  split.
  - intros prev w rest cap Hm.
    apply codePattern_inv in Hm as (word & ws & body & -> & Hword & Hws & ->).
    exists body. split; [reflexivity|]. intros pre. exists word, ws.
    split; [|auto]. rewrite <- !app_assoc. reflexivity.
  - intros code pre body post (word & ws & -> & Hword & Hws).
    exists (js "```" ++ (word ++ ws) ++ [nl] ++ body ++ js "```").
    split; [rewrite <- !app_assoc; reflexivity|].
    intros prev. apply codePattern_intro; assumption.
Qed.

Lemma scriptPattern_reads : reads scriptPattern scriptTagAt.
Proof.
  split.
  - intros prev w rest cap Hm.
    apply scriptPattern_inv in Hm as (attrs & body & -> & Ha & ->).
    exists body. split; [reflexivity|]. intros pre. exists attrs.
    split; [|exact Ha]. rewrite <- !app_assoc. reflexivity.
  - intros code pre body post (attrs & -> & Ha).
    exists (js "<script" ++ attrs ++ js ">" ++ body ++ js "</script>").
    split; [rewrite <- !app_assoc; reflexivity|].
    intros prev. apply scriptPattern_intro, Ha.
Qed.

Section Cascade.
Context (r : re) (blockAt : jsstring -> jsstring -> jsstring -> jsstring -> Prop).
Hypothesis r_reads : reads r blockAt.

(** The first match of the pattern is the leftmost block. *)
Lemma first_match_is_leftmost code m :
  jsMatchRe code r = Some m ->
  exists body, mGroup1 m = Some body /\
               blockAt code (mBefore m) body (mAfter m) /\
               leftmost (blockAt code) (mBefore m).
Proof.
  intros Hm. destruct r_reads as [Hsound Hcomplete].
  destruct (jsMatchRe_sound _ _ _ Hm) as (Hcode & Hmat).
  destruct (Hsound _ _ _ _ Hmat) as (body & Hcap & Hblock).
  exists body. split; [exact Hcap|]. split.
  - rewrite Hcode at 1. apply Hblock.
  - intros pre' body' post' Hb.
    destruct (Hcomplete _ _ _ _ Hb) as (w & Hw & Hmat').
    eapply jsMatchRe_leftmost; [exact Hm | exact Hw | apply Hmat'].
Qed.

(** What a search of the cascade finds: the non-empty contents of the
    leftmost block. *)
Lemma found_block code g :
  found code r = Some g ->
  g <> [] /\
  exists pre post, blockAt code pre g post /\ leftmost (blockAt code) pre.
Proof.
  intros H. apply truthyGroup1_Some in H as (Hg & m & Hm & Hcap).
  split; [exact Hg|].
  destruct (first_match_is_leftmost code m Hm) as (body & Hcap' & Hb & Hl).
  rewrite Hcap in Hcap'. injection Hcap' as <-. eauto.
Qed.

(** When a search finds nothing to use although a block is there, the
    leftmost block is empty. *)
Lemma unfound_block code pre body post :
  found code r = None -> blockAt code pre body post ->
  exists pre' post', blockAt code pre' [] post' /\ leftmost (blockAt code) pre'.
Proof.
  intros Hf Hb. destruct r_reads as [_ Hcomplete].
  destruct (Hcomplete _ _ _ _ Hb) as (w & Hw & Hmat).
  destruct (jsMatchRe_complete code r pre w post (Some body) Hw (Hmat _)) as [m Hm].
  destruct (first_match_is_leftmost code m Hm) as (body' & Hcap & Hb' & Hl).
  unfold found in Hf. rewrite Hm in Hf.
  pose proof (truthyGroup1_None _ _ Hf Hcap) as ->. eauto.
Qed.
End Cascade.

(* ===================================================================== *)
(** ** The order in which the matcher tries *)
(* ===================================================================== *)

Section MatcherPriority.
Context {A : Type}.

(** The lazy star stops at the first position the continuation accepts. *)
Lemma starLazy_first cl (k : option N -> jsstring -> option A) prev s a :
  starLazy cl k prev s = Some a ->
  exists w rest, s = w ++ rest /\ Forall (fun c => cmatch cl c = true) w /\
                 k (lastOr prev w) rest = Some a /\
                 forall w1 rest1, s = w1 ++ rest1 -> (length w1 < length w)%nat ->
                                  k (lastOr prev w1) rest1 = None.
Proof.
  revert prev. induction s as [|c s IH]; intros prev; simpl.
  - destruct (k prev []) eqn:E; [|discriminate].
    intros H; injection H as ->. exists [], []. repeat split; auto.
    intros w1 rest1 _ Hlt. simpl in Hlt. lia.
  - destruct (k prev (c :: s)) eqn:E.
    + intros H; injection H as ->. exists [], (c :: s). repeat split; auto.
      intros w1 rest1 _ Hlt. simpl in Hlt. lia.
    + destruct (cmatch cl c) eqn:Ec; [|discriminate].
      intros H. destruct (IH _ H) as (w & rest & -> & Hw & Hk & Hfirst).
      exists (c :: w), rest. rewrite lastOr_cons. repeat split; auto.
      intros [|c1 w1] rest1 Hs Hlt.
      * simpl in Hs. subst rest1. exact E.
      * injection Hs as <- Hs. rewrite lastOr_cons. apply Hfirst; [exact Hs|].
        simpl in Hlt. lia.
Qed.

(** The greedy star takes the longest run the continuation accepts. *)
Lemma starGreedy_last cl (k : option N -> jsstring -> option A) prev s a :
  starGreedy cl k prev s = Some a ->
  exists w rest, s = w ++ rest /\ Forall (fun c => cmatch cl c = true) w /\
                 k (lastOr prev w) rest = Some a /\
                 forall w1 rest1, s = w1 ++ rest1 ->
                                  Forall (fun c => cmatch cl c = true) w1 ->
                                  (length w < length w1)%nat ->
                                  k (lastOr prev w1) rest1 = None.
Proof.
  revert prev. induction s as [|c s IH]; intros prev; simpl.
  - intros H. exists [], []. repeat split; auto.
    intros w1 rest1 Hs _ Hlt. symmetry in Hs. apply app_eq_nil in Hs as [-> _].
    simpl in Hlt. lia.
  - destruct (cmatch cl c) eqn:Ec.
    + destruct (starGreedy cl k (Some c) s) as [a'|] eqn:E'.
      * intros H; injection H as ->.
        destruct (IH _ E') as (w & rest & -> & Hw & Hk & Hlast).
        exists (c :: w), rest. rewrite lastOr_cons. repeat split; auto.
        intros [|c1 w1] rest1 Hs Hw1 Hlt; [simpl in Hlt; lia|].
        injection Hs as <- Hs. rewrite lastOr_cons.
        apply Hlast; [exact Hs|inversion Hw1; assumption|simpl in Hlt; lia].
      * intros H. exists [], (c :: s). repeat split; auto.
        intros [|c1 w1] rest1 Hs Hw1 Hlt; [simpl in Hlt; lia|].
        injection Hs as <- Hs. subst s. rewrite lastOr_cons.
        destruct (k (lastOr (Some c) w1) rest1) eqn:Ek; [|reflexivity].
        exfalso. inversion Hw1; subst.
        apply (starGreedy_complete cl k (Some c) w1 rest1); [assumption| |exact E'].
        rewrite Ek. discriminate.
    + intros H. exists [], (c :: s). repeat split; auto.
      intros [|c1 w1] rest1 Hs Hw1 Hlt; [simpl in Hlt; lia|].
      injection Hs as <- Hs. inversion Hw1; subst. congruence.
Qed.
End MatcherPriority.

(** The end of the three patterns of the cascade, the capture group with
    the lazy star and the closing delimiter: the group ends at the first
    closing delimiter. *)
Lemma body_tight close prev s cap0 cap rest :
  rmatch (Group (StarLazy CAny) >> Lit close) prev s cap0 finish = Some (cap, rest) ->
  exists body, s = body ++ close ++ rest /\ cap = Some body /\
               endsAtFirst close body rest.
Proof.
  intros H.
  change (starLazy CAny
            (fun p s' =>
               match stripPrefix close s' with
               | Some s'' => Some (Some (take (length s - length s') s), s'')
               | None => None
               end) prev s = Some (cap, rest)) in H.
  apply starLazy_first in H as (w & rest0 & -> & _ & Hk & Hfirst).
  destruct (stripPrefix close rest0) as [s''|] eqn:E; [|discriminate].
  apply stripPrefix_Some in E. subst rest0.
  rewrite take_app_length_sub in Hk. injection Hk as <- <-.
  exists w. split; [reflexivity|]. split; [reflexivity|].
  intros b1 rest1 He.
  destruct (Nat.le_gt_cases (length w) (length b1)) as [|Hlt]; [assumption|].
  specialize (Hfirst b1 (close ++ rest1) He Hlt).
  rewrite stripPrefix_app in Hfirst. discriminate.
Qed.

(** Where a closing delimiter follows, the end of the pattern matches. *)
Lemma body_found close prev body post cap0 :
  rmatch (Group (StarLazy CAny) >> Lit close) prev (body ++ close ++ post) cap0 finish
  <> None.
Proof.
  replace (body ++ close ++ post) with ((body ++ close) ++ post)
    by (rewrite <- app_assoc; reflexivity).
  apply (rmatch_complete _ prev (body ++ close) post cap0 (Some body)); [|discriminate].
  eapply MSeq; [eapply MGroup, MStarLazy, Forall_any|apply MLit].
Qed.

Lemma allSpace_app a b : allSpace a -> allSpace b -> allSpace (a ++ b).
Proof. intros Ha Hb. apply Forall_app. split; assumption. Qed.

Lemma allSpace_nl ws : allSpace ws -> allSpace (nl :: ws).
Proof. intros H. constructor; [reflexivity|exact H]. Qed.

(** After the blanks of an opening fence: the greedy star has taken every
    blank up to the last line break that a closing fence follows. *)
Lemma lead_tight prev s cap rest :
  starGreedy CSpace
    (fun p s' => rmatch (Cls (CIn [nl]) >> Group (StarLazy CAny) >> Lit (js "```"))
                        p s' None finish) prev s
  = Some (cap, rest) ->
  exists ws body, s = ws ++ nl :: body ++ js "```" ++ rest /\ allSpace ws /\
                  cap = Some body /\ noBlankLead body /\
                  endsAtFirst (js "```") body rest.
Proof.
  intros H. apply starGreedy_last in H as (ws & rest0 & -> & Hws & Hk & Hlast).
  destruct rest0 as [|c s3]; [discriminate|].
  change ((if cmatch (CIn [nl]) c
           then rmatch (Group (StarLazy CAny) >> Lit (js "```")) (Some c) s3 None finish
           else None) = Some (cap, rest)) in Hk.
  destruct (cmatch (CIn [nl]) c) eqn:Ec; [|discriminate].
  pose proof (cls_nl c Ec) as ->.
  apply body_tight in Hk as (body & -> & -> & Hend).
  exists ws, body. split; [reflexivity|]. split; [exact Hws|].
  split; [reflexivity|]. split; [|exact Hend].
  intros ws2 r2 -> Hws2.
  specialize (Hlast (ws ++ nl :: ws2) (nl :: r2 ++ js "```" ++ rest)).
  assert (Hnone : rmatch (Cls (CIn [nl]) >> Group (StarLazy CAny) >> Lit (js "```"))
                    (lastOr prev (ws ++ nl :: ws2)) (nl :: r2 ++ js "```" ++ rest)
                    None finish = None).
  { apply Hlast.
    - rewrite <- !app_assoc. reflexivity.
    - apply allSpace_app; [exact Hws|apply allSpace_nl, Hws2].
    - rewrite length_app. simpl. lia. }
  exact (body_found (js "```") (Some nl) r2 rest None Hnone).
Qed.

Lemma jsPattern_tight prev s cap rest :
  exec jsPattern prev s = Some (cap, rest) ->
  exists ws body,
    s = js "```javascript" ++ ws ++ nl :: body ++ js "```" ++ rest /\
    allSpace ws /\ cap = Some body /\ noBlankLead body /\
    endsAtFirst (js "```") body rest.
Proof.
  unfold exec, jsPattern. intros H.
  change (match stripPrefix (js "```javascript") s with
          | Some s1 =>
              starGreedy CSpace
                (fun p s' =>
                   rmatch (Cls (CIn [nl]) >> Group (StarLazy CAny) >> Lit (js "```"))
                          p s' None finish)
                (lastOr prev (js "```javascript")) s1
          | None => None
          end = Some (cap, rest)) in H.
  destruct (stripPrefix (js "```javascript") s) as [s1|] eqn:E; [|discriminate].
  apply stripPrefix_Some in E. subst s.
  apply lead_tight in H as (ws & body & -> & Hws & Hcap & Hlead & Hend).
  exists ws, body. auto.
Qed.

Lemma codePattern_tight prev s cap rest :
  exec codePattern prev s = Some (cap, rest) ->
  exists word ws body,
    s = js "```" ++ word ++ ws ++ nl :: body ++ js "```" ++ rest /\
    Forall (fun c => isWord c = true) word /\ allSpace ws /\ cap = Some body /\
    noBlankLead body /\ endsAtFirst (js "```") body rest.
Proof.
  unfold exec, codePattern. intros H.
  set (K := fun (p : option N) (s' : jsstring) =>
              rmatch (Cls (CIn [nl]) >> Group (StarLazy CAny) >> Lit (js "```"))
                     p s' None finish) in *.
  change (match stripPrefix (js "```") s with
          | Some s1 =>
              match starGreedy CWord (fun p s' => starGreedy CSpace K p s')
                               (lastOr prev (js "```")) s1 with
              | Some a => Some a
              | None => K (lastOr prev (js "```")) s1
              end
          | None => None
          end = Some (cap, rest)) in H.
  destruct (stripPrefix (js "```") s) as [s1|] eqn:E; [|discriminate].
  apply stripPrefix_Some in E. subst s.
  destruct (starGreedy CWord _ _ s1) as [a|] eqn:E1.
  - injection H as ->.
    apply starGreedy_sound in E1 as (word & s2 & -> & Hword & E2).
    apply lead_tight in E2 as (ws & body & -> & Hws & Hcap & Hlead & Hend).
    exists word, ws, body. auto 10.
  - exfalso. revert E1. apply starGreedy_fallback, starGreedy_fallback.
    rewrite H. discriminate.
Qed.

Lemma scriptPattern_tight prev s cap rest :
  exec scriptPattern prev s = Some (cap, rest) ->
  exists attrs body,
    s = js "<script" ++ attrs ++ js ">" ++ body ++ js "</script>" ++ rest /\
    Forall (fun c => c <> 62) attrs /\ cap = Some body /\
    endsAtFirst (js "</script>") body rest.
Proof.
  unfold exec, scriptPattern. intros H.
  change (match stripPrefix (js "<script") s with
          | Some s1 =>
              starGreedy (CNotIn (js ">"))
                (fun p s' =>
                   match stripPrefix (js ">") s' with
                   | Some s2 =>
                       rmatch (Group (StarLazy CAny) >> Lit (js "</script>"))
                              (lastOr p (js ">")) s2 None finish
                   | None => None
                   end)
                (lastOr prev (js "<script")) s1
          | None => None
          end = Some (cap, rest)) in H.
  destruct (stripPrefix (js "<script") s) as [s1|] eqn:E; [|discriminate].
  apply stripPrefix_Some in E. subst s.
  apply starGreedy_sound in H as (attrs & s2 & -> & Hattrs & H).
  destruct (stripPrefix (js ">") s2) as [s3|] eqn:E; [|discriminate].
  apply stripPrefix_Some in E. subst s2.
  apply body_tight in H as (body & -> & -> & Hend).
  exists attrs, body. split; [reflexivity|]. split; [|auto].
  eapply List.Forall_impl; [|exact Hattrs]. intros c Hc. apply notIn_gt, Hc.
Qed.

(* ===================================================================== *)
(** ** The first block is determined *)
(* ===================================================================== *)

Lemma endsAtFirst_unique close b p b' p' :
  b ++ close ++ p = b' ++ close ++ p' ->
  endsAtFirst close b p -> endsAtFirst close b' p' -> b = b'.
Proof.
  intros He H1 H2.
  pose proof (H1 _ _ He) as L1. pose proof (H2 _ _ (eq_sym He)) as L2.
  assert (Hlen : length b = length b') by lia.
  exact (proj1 (app_inj_1 _ _ _ _ Hlen He)).
Qed.

(** A run of characters of one kind that is followed by a character of
    another kind is determined. *)
Lemma run_le (P : N -> Prop) (a X a' X' : jsstring) :
  a ++ X = a' ++ X' -> Forall P a' ->
  (forall c t, X = c :: t -> ~ P c) -> (length a' <= length a)%nat.
Proof.
  intros He Ha' HX.
  apply app_eq_inv in He as [(k & -> & _) | (k & -> & Hk)].
  - rewrite length_app. lia.
  - destruct k as [|c k]; [rewrite app_nil_r; lia|].
    exfalso. apply (HX c (k ++ X') Hk).
    apply Forall_app in Ha' as [_ Hk']. inversion Hk'; assumption.
Qed.

Lemma run_unique (P : N -> Prop) (a X a' X' : jsstring) :
  a ++ X = a' ++ X' -> Forall P a -> Forall P a' ->
  (forall c t, X = c :: t -> ~ P c) -> (forall c t, X' = c :: t -> ~ P c) ->
  a = a' /\ X = X'.
Proof.
  intros He Ha Ha' HX HX'.
  pose proof (run_le P a X a' X' He Ha' HX).
  pose proof (run_le P a' X' a X (eq_sym He) Ha HX').
  apply app_inj_1; [lia|exact He].
Qed.

Lemma fence_head : js "```" = 96 :: js "``".
Proof. reflexivity. Qed.

Lemma lead_le (ws body post ws' T' : jsstring) :
  ws ++ nl :: body ++ js "```" ++ post = ws' ++ nl :: T' ->
  allSpace ws' -> noBlankLead body -> (length ws' <= length ws)%nat.
Proof.
  rewrite fence_head. generalize (js "``"). intros F He Hws' Hlead.
  apply app_eq_inv in He as [(k & -> & _) | (k & -> & Hk)].
  - rewrite length_app. lia.
  - destruct k as [|c k]; [rewrite app_nil_r; lia|].
    exfalso. injection Hk as <- Hk.
    apply Forall_app in Hws' as [_ Hk']. inversion Hk' as [|? ? _ Hk'']; subst.
    apply app_eq_inv in Hk as [(j & -> & Hj) | (j & -> & Hj)].
    + destruct j as [|c j]; [discriminate Hj|].
      injection Hj as <- _. exact (Hlead k j eq_refl Hk'').
    + destruct j as [|c j]; [discriminate Hj|].
      injection Hj as <- _.
      apply Forall_app in Hk'' as [_ Hj']. inversion Hj' as [|? ? H96 _].
      discriminate H96.
Qed.

Lemma lead_unique (ws body post ws' body' post' : jsstring) :
  ws ++ nl :: body ++ js "```" ++ post = ws' ++ nl :: body' ++ js "```" ++ post' ->
  allSpace ws -> allSpace ws' -> noBlankLead body -> noBlankLead body' ->
  endsAtFirst (js "```") body post -> endsAtFirst (js "```") body' post' ->
  body = body'.
Proof.
  intros He Hws Hws' Hl Hl' He1 He2.
  pose proof (lead_le _ _ _ _ _ He Hws' Hl).
  pose proof (lead_le _ _ _ _ _ (eq_sym He) Hws Hl').
  apply app_inj_1 in He as [_ He]; [|lia].
  assert (He' : body ++ js "```" ++ post = body' ++ js "```" ++ post')
    by congruence.
  exact (endsAtFirst_unique _ _ _ _ _ He' He1 He2).
Qed.

Lemma space_not_word c : isSpace c = true -> isWord c = false.
Proof.
  intros H. destruct (isWord c) eqn:E; [|reflexivity]. exfalso.
  unfold isSpace in H. unfold isWord in E.
  repeat rewrite ?orb_true_iff, ?andb_true_iff, ?N.leb_le, ?N.eqb_eq in H.
  repeat rewrite ?orb_true_iff, ?andb_true_iff, ?N.leb_le, ?N.eqb_eq in E.
  lia.
Qed.

Lemma lead_not_word (ws T : jsstring) c t :
  allSpace ws -> ws ++ nl :: T = c :: t -> ~ isWord c = true.
Proof.
  intros Hws He Hc. destruct ws as [|d ws].
  - injection He as <- _. discriminate Hc.
  - injection He as <- _. inversion Hws as [|? ? Hd _]; subst.
    rewrite (space_not_word _ Hd) in Hc. discriminate.
Qed.

Lemma jsFence_unique code pre body post body' post' :
  jsFenceAt code pre body post -> jsFenceAt code pre body' post' ->
  noBlankLead body -> noBlankLead body' ->
  endsAtFirst (js "```") body post -> endsAtFirst (js "```") body' post' ->
  body = body'.
Proof.
  intros (ws & -> & Hws) (ws' & He & Hws') Hl Hl' He1 He2.
  apply app_inv_head, app_inv_head in He.
  exact (lead_unique _ _ _ _ _ _ He Hws Hws' Hl Hl' He1 He2).
Qed.

Lemma fence_unique code pre body post body' post' :
  fenceAt code pre body post -> fenceAt code pre body' post' ->
  noBlankLead body -> noBlankLead body' ->
  endsAtFirst (js "```") body post -> endsAtFirst (js "```") body' post' ->
  body = body'.
Proof.
  intros (word & ws & -> & Hword & Hws) (word' & ws' & He & Hword' & Hws')
         Hl Hl' He1 He2.
  apply app_inv_head, app_inv_head in He.
  apply (run_unique (fun c => isWord c = true)) in He as [_ He]; try assumption.
  - exact (lead_unique _ _ _ _ _ _ He Hws Hws' Hl Hl' He1 He2).
  - intros c t. apply lead_not_word, Hws.
  - intros c t. apply lead_not_word, Hws'.
Qed.

Lemma scriptTag_unique code pre body post body' post' :
  scriptTagAt code pre body post -> scriptTagAt code pre body' post' ->
  anyLead body -> anyLead body' ->
  endsAtFirst (js "</script>") body post ->
  endsAtFirst (js "</script>") body' post' ->
  body = body'.
Proof.
  intros (attrs & -> & Ha) (attrs' & He & Ha') _ _ He1 He2.
  apply app_inv_head, app_inv_head in He.
  apply (run_unique (fun c => c <> 62)) in He as [_ He]; try assumption.
  - apply app_inv_head in He. exact (endsAtFirst_unique _ _ _ _ _ He He1 He2).
  - intros c t H Hc. injection H as <- _. apply Hc. reflexivity.
  - intros c t H Hc. injection H as <- _. apply Hc. reflexivity.
Qed.

(* ===================================================================== *)
(** ** What a search of the cascade finds *)
(* ===================================================================== *)

(** The search reports the match attempt that succeeded. *)
Lemma searchFrom_exec r before prev s m :
  searchFrom r before prev s = Some m ->
  exists skipped,
    mBefore m = before ++ skipped /\
    s = skipped ++ mText m ++ mAfter m /\
    exec r (lastOr prev skipped) (mText m ++ mAfter m) = Some (mGroup1 m, mAfter m).
Proof.
  revert before prev. induction s as [|c s IH]; intros before prev;
    rewrite searchFrom_eq.
  - destruct (exec r prev []) as [[cap rest]|] eqn:E; [|discriminate].
    intros H; injection H as <-. cbn [mBefore mText mGroup1 mAfter].
    exists []. rewrite app_nil_r.
    pose proof E as E'. apply exec_sound in E' as (w & Hs & _).
    symmetry in Hs. apply app_eq_nil in Hs as [-> ->].
    split; [reflexivity|]. split; [reflexivity|exact E].
  - destruct (exec r prev (c :: s)) as [[cap rest]|] eqn:E.
    + intros H; injection H as <-. cbn [mBefore mText mGroup1 mAfter].
      exists []. rewrite app_nil_r.
      pose proof E as E'. apply exec_sound in E' as (w & Hs & _).
      change (S (length s)) with (length (c :: s)).
      rewrite (take_of_split _ _ _ Hs), <- Hs.
      split; [reflexivity|]. split; [reflexivity|exact E].
    + intros H. apply IH in H as (skipped & Hb & Hs & He).
      exists (c :: skipped). rewrite Hb, <- app_assoc. simpl.
      rewrite lastOr_cons. split; [reflexivity|].
      split; [f_equal; exact Hs|exact He].
Qed.

Lemma jsMatchRe_exec code r m :
  jsMatchRe code r = Some m ->
  code = mBefore m ++ mText m ++ mAfter m /\
  exec r (lastOr None (mBefore m)) (mText m ++ mAfter m)
  = Some (mGroup1 m, mAfter m).
Proof.
  unfold jsMatchRe. intros H.
  apply searchFrom_exec in H as (skipped & Hb & Hs & He).
  simpl in Hb. subst skipped. auto.
Qed.

Section FirstBlock.
Context (r : re) (blockAt : jsstring -> jsstring -> jsstring -> jsstring -> Prop)
        (lead : jsstring -> Prop) (close : jsstring).
Hypothesis r_reads : reads r blockAt.
Hypothesis r_tight :
  forall prev s cap rest,
    exec r prev s = Some (cap, rest) ->
    exists body, cap = Some body /\ lead body /\ endsAtFirst close body rest /\
                 forall pre, blockAt (pre ++ s) pre body rest.
Hypothesis block_unique :
  forall code pre body post body' post',
    blockAt code pre body post -> blockAt code pre body' post' ->
    lead body -> lead body' ->
    endsAtFirst close body post -> endsAtFirst close body' post' ->
    body = body'.

(** The first match of the pattern is the first block. *)
Lemma first_match_is_first code m :
  jsMatchRe code r = Some m ->
  exists body, mGroup1 m = Some body /\ firstBlock blockAt lead close code body.
Proof.
  intros Hm. destruct (jsMatchRe_exec _ _ _ Hm) as (Hcode & He).
  destruct (r_tight _ _ _ _ He) as (body & Hcap & Hlead & Hend & Hblock).
  exists body. split; [exact Hcap|]. exists (mBefore m), (mAfter m).
  split; [rewrite Hcode at 1; apply Hblock|]. split; [|auto].
  intros pre' body' post' Hb. destruct r_reads as [_ Hcomplete].
  destruct (Hcomplete _ _ _ _ Hb) as (w & Hw & Hmat').
  eapply jsMatchRe_leftmost; [exact Hm | exact Hw | apply Hmat'].
Qed.

(** There is at most one first block. *)
Lemma firstBlock_unique code g g' :
  firstBlock blockAt lead close code g -> firstBlock blockAt lead close code g' ->
  g = g'.
Proof.
  intros (pre & post & Hb & Hl & Hlead & Hend)
         (pre' & post' & Hb' & Hl' & Hlead' & Hend').
  pose proof (Hl _ _ _ Hb') as L1. pose proof (Hl' _ _ _ Hb) as L2.
  destruct r_reads as [_ Hc].
  destruct (Hc _ _ _ _ Hb) as (w & Hw & _).
  destruct (Hc _ _ _ _ Hb') as (w' & Hw' & _).
  assert (Hpre : pre = pre').
  { rewrite Hw in Hw'. apply app_inj_1 in Hw' as [? _]; [assumption|lia]. }
  subst pre'. eapply block_unique; eassumption.
Qed.

(** Where there is a block, there is a first one. *)
Lemma block_has_first code pre body post :
  blockAt code pre body post -> exists g, firstBlock blockAt lead close code g.
Proof.
  intros Hb. destruct r_reads as [_ Hc].
  destruct (Hc _ _ _ _ Hb) as (w & Hw & Hmat).
  destruct (jsMatchRe_complete code r pre w post (Some body) Hw (Hmat _)) as [m Hm].
  destruct (first_match_is_first code m Hm) as (g & _ & Hf). eauto.
Qed.

(** What a search of the cascade finds: the contents of the first block,
    when they are not empty. *)
Lemma found_first code g :
  found code r = Some g <-> g <> [] /\ firstBlock blockAt lead close code g.
Proof.
  split.
  - intros H. apply truthyGroup1_Some in H as (Hg & m & Hm & Hcap).
    split; [exact Hg|].
    destruct (first_match_is_first code m Hm) as (body & Hcap' & Hf).
    rewrite Hcap in Hcap'. injection Hcap' as <-. exact Hf.
  - intros (Hg & Hf). pose proof Hf as (pre & post & Hb & _).
    destruct r_reads as [_ Hc]. destruct (Hc _ _ _ _ Hb) as (w & Hw & Hmat).
    destruct (jsMatchRe_complete code r pre w post (Some g) Hw (Hmat _)) as [m Hm].
    destruct (first_match_is_first code m Hm) as (body & Hcap & Hf').
    pose proof (firstBlock_unique code _ _ Hf' Hf) as ->.
    unfold found. rewrite Hm. simpl. rewrite Hcap.
    destruct g; [contradiction|reflexivity].
Qed.

Lemma found_none code :
  found code r = None <-> unusable (firstBlock blockAt lead close) code.
Proof.
  split.
  - intros H g Hf. destruct g as [|c g]; [reflexivity|].
    assert (E : found code r = Some (c :: g))
      by (apply found_first; split; [discriminate|exact Hf]).
    congruence.
  - intros H. destruct (found code r) as [g|] eqn:E; [|reflexivity].
    apply found_first in E as (Hg & Hf). contradiction (Hg (H g Hf)).
Qed.
End FirstBlock.

Lemma jsPattern_first prev s cap rest :
  exec jsPattern prev s = Some (cap, rest) ->
  exists body, cap = Some body /\ noBlankLead body /\
               endsAtFirst (js "```") body rest /\
               forall pre, jsFenceAt (pre ++ s) pre body rest.
Proof.
  intros H. apply jsPattern_tight in H as (ws & body & -> & Hws & -> & Hl & He).
  exists body. repeat split; auto. intros pre. exists ws.
  split; [reflexivity|exact Hws].
Qed.

Lemma codePattern_first prev s cap rest :
  exec codePattern prev s = Some (cap, rest) ->
  exists body, cap = Some body /\ noBlankLead body /\
               endsAtFirst (js "```") body rest /\
               forall pre, fenceAt (pre ++ s) pre body rest.
Proof.
  intros H.
  apply codePattern_tight in H as (word & ws & body & -> & Hw & Hws & -> & Hl & He).
  exists body. repeat split; auto. intros pre. exists word, ws.
  split; [reflexivity|auto].
Qed.

Lemma scriptPattern_first prev s cap rest :
  exec scriptPattern prev s = Some (cap, rest) ->
  exists body, cap = Some body /\ anyLead body /\
               endsAtFirst (js "</script>") body rest /\
               forall pre, scriptTagAt (pre ++ s) pre body rest.
Proof.
  intros H. apply scriptPattern_tight in H as (attrs & body & -> & Ha & -> & He).
  exists body. repeat split; auto. intros pre. exists attrs.
  split; [reflexivity|exact Ha].
Qed.

Lemma jsFence_found code g :
  found code jsPattern = Some g <-> g <> [] /\ firstJsFence code g.
Proof.
  exact (found_first _ _ _ _ jsPattern_reads jsPattern_first jsFence_unique code g).
Qed.

Lemma fence_found code g :
  found code codePattern = Some g <-> g <> [] /\ firstFence code g.
Proof.
  exact (found_first _ _ _ _ codePattern_reads codePattern_first fence_unique code g).
Qed.

Lemma scriptTag_found code g :
  found code scriptPattern = Some g <-> g <> [] /\ firstScript code g.
Proof.
  exact (found_first _ _ _ _ scriptPattern_reads scriptPattern_first
           scriptTag_unique code g).
Qed.

Lemma jsFence_none code :
  found code jsPattern = None <-> unusable firstJsFence code.
Proof.
  exact (found_none _ _ _ _ jsPattern_reads jsPattern_first jsFence_unique code).
Qed.

Lemma fence_none code :
  found code codePattern = None <-> unusable firstFence code.
Proof.
  exact (found_none _ _ _ _ codePattern_reads codePattern_first fence_unique code).
Qed.

Lemma scriptTag_none code :
  found code scriptPattern = None <-> unusable firstScript code.
Proof.
  exact (found_none _ _ _ _ scriptPattern_reads scriptPattern_first
           scriptTag_unique code).
Qed.

Lemma extractCode_found code :
  extractCode code
  = match found code jsPattern with
    | Some g => (FromJsFence, g)
    | None =>
        match found code codePattern with
        | Some g => (FromAnyFence, g)
        | None =>
            match found code scriptPattern with
            | Some g => (FromScriptTag, g)
            | None => (FromRawText, code)
            end
        end
    end.
Proof. reflexivity. Qed.

(* ===================================================================== *)
(** ** Texts that no pattern touches *)
(* ===================================================================== *)

Ltac head_lit :=
  repeat match goal with
  | H : matches (Seq Bol _) _ _ _ _ _ |- _ =>
      minv1 H; match goal with Hb : matches Bol _ _ _ _ _ |- _ => minv1 Hb end
  | H : matches (Seq (Lit _) _) _ _ _ _ _ |- _ =>
      minv1 H; match goal with Hl : matches (Lit _) _ _ _ _ _ |- _ => minv1 Hl end
  | H : matches (Lit _) _ _ _ _ _ |- _ => minv1 H
  end.

Ltac starts_with :=
  let H := fresh "H" in
  intros ? ? ? ? ? H; cbv delta [jsPattern codePattern scriptPattern
    importFromPattern importStarAsPattern importBarePattern requirePattern
    threeStarPattern orbitImportPattern threeNamedPattern threeDefaultPattern
    orbitNamePattern] in H;
  head_lit; eexists; simpl; reflexivity.

Lemma jsPattern_starts : startsWith jsPattern (js "```").
Proof. starts_with. Qed.
Lemma codePattern_starts : startsWith codePattern (js "```").
Proof. starts_with. Qed.
Lemma scriptPattern_starts : startsWith scriptPattern (js "<script").
Proof. starts_with. Qed.
Lemma importFromPattern_starts : startsWith importFromPattern (js "import").
Proof. starts_with. Qed.
Lemma importStarAsPattern_starts : startsWith importStarAsPattern (js "import").
Proof. starts_with. Qed.
Lemma importBarePattern_starts : startsWith importBarePattern (js "import").
Proof. starts_with. Qed.
Lemma requirePattern_starts : startsWith requirePattern (js "const").
Proof. starts_with. Qed.
Lemma threeStarPattern_starts : startsWith threeStarPattern (js "import").
Proof. starts_with. Qed.
Lemma orbitImportPattern_starts : startsWith orbitImportPattern (js "import").
Proof. starts_with. Qed.
Lemma threeNamedPattern_starts : startsWith threeNamedPattern (js "import").
Proof. starts_with. Qed.
Lemma threeDefaultPattern_starts : startsWith threeDefaultPattern (js "import").
Proof. starts_with. Qed.
Lemma orbitNamePattern_starts :
  startsWith orbitNamePattern (js "THREE.OrbitControls").
Proof. starts_with. Qed.

Lemma exec_absent r l s :
  startsWith r l -> ~ occursIn l s ->
  forall pre sfx prev, s = pre ++ sfx -> exec r prev sfx = None.
Proof.
  intros Hr Hno pre sfx prev ->.
  destruct (exec r prev sfx) as [[cap rest]|] eqn:E; [|reflexivity].
  exfalso. apply Hno.
  apply exec_sound in E as (w & -> & Hm).
  apply Hr in Hm as (w' & ->).
  exists pre, (w' ++ rest). rewrite <- !app_assoc. reflexivity.
Qed.

Lemma jsMatchRe_absent r l code :
  startsWith r l -> ~ occursIn l code -> jsMatchRe code r = None.
Proof.
  intros Hr Hno. destruct (jsMatchRe code r) as [m|] eqn:E; [|reflexivity].
  exfalso. apply Hno.
  apply jsMatchRe_sound in E as (Hc & Hm).
  apply Hr in Hm as (w' & Hw).
  exists (mBefore m), (w' ++ mAfter m). rewrite Hc, Hw, <- !app_assoc. reflexivity.
Qed.

Lemma replaceLoop_eq r by_ prev s :
  replaceLoop r by_ prev s 0
  = match exec r prev s with
    | Some (_, rest) =>
        match (length s - length rest)%nat, s with
        | O, c :: s' => by_ ++ c :: replaceLoop r by_ (Some c) s' 0
        | O, [] => by_
        | S n, c :: s' => by_ ++ replaceLoop r by_ (Some c) s' n
        | S _, [] => by_
        end
    | None =>
        match s with
        | c :: s' => c :: replaceLoop r by_ (Some c) s' 0
        | [] => []
        end
    end.
Proof. destruct s; reflexivity. Qed.

Lemma replaceLoop_absent r by_ s0 :
  (forall pre sfx prev, s0 = pre ++ sfx -> exec r prev sfx = None) ->
  forall s pre prev, s0 = pre ++ s -> replaceLoop r by_ prev s 0 = s.
Proof.
  intros Hno. induction s as [|c s IH]; intros pre prev Hs;
    rewrite replaceLoop_eq, (Hno pre _ prev Hs); [reflexivity|].
  f_equal. apply (IH (pre ++ [c])). rewrite <- app_assoc. exact Hs.
Qed.

Lemma jsReplaceAll_absent r l by_ s :
  startsWith r l -> ~ occursIn l s -> jsReplaceAll s r by_ = s.
Proof.
  intros Hr Hno. unfold jsReplaceAll.
  apply (replaceLoop_absent r by_ s (exec_absent r l s Hr Hno) s []). reflexivity.
Qed.

(** The worst case: a text without any of the five leading literals comes
    back as it is. *)
Lemma processThreeJsCode_unchanged code :
  ~ occursIn (js "```") code -> ~ occursIn (js "<script") code ->
  ~ occursIn (js "import") code -> ~ occursIn (js "const") code ->
  ~ occursIn (js "THREE.OrbitControls") code ->
  extractCode code = (FromRawText, code) /\ processThreeJsCode code = code.
Proof.
  intros Hf Hs Hi Hc Ht.
  assert (He : extractCode code = (FromRawText, code)).
  { unfold extractCode.
    rewrite (jsMatchRe_absent _ _ _ jsPattern_starts Hf),
            (jsMatchRe_absent _ _ _ codePattern_starts Hf),
            (jsMatchRe_absent _ _ _ scriptPattern_starts Hs). reflexivity. }
  split; [exact He|].
  unfold processThreeJsCode. rewrite He. unfold stripModuleSyntax. simpl snd.
  rewrite (jsReplaceAll_absent _ _ _ _ importFromPattern_starts Hi),
          (jsReplaceAll_absent _ _ _ _ importStarAsPattern_starts Hi),
          (jsReplaceAll_absent _ _ _ _ importBarePattern_starts Hi),
          (jsReplaceAll_absent _ _ _ _ requirePattern_starts Hc),
          (jsReplaceAll_absent _ _ _ _ threeStarPattern_starts Hi),
          (jsReplaceAll_absent _ _ _ _ orbitImportPattern_starts Hi),
          (jsReplaceAll_absent _ _ _ _ threeNamedPattern_starts Hi),
          (jsReplaceAll_absent _ _ _ _ threeDefaultPattern_starts Hi),
          (jsReplaceAll_absent _ _ _ _ orbitNamePattern_starts Ht).
  reflexivity.
Qed.

(** Claim C6, amended.  [processThreeJsCode] is a function of its input
    and takes its text from the first of these that applies: (a) the
    first fenced block tagged [javascript], when its contents are not
    empty; (b) the first fenced block of the form fence, word, blanks,
    line break, when its contents are not empty; (c) the first [script]
    element, when its contents are not empty; (d) the raw text.  The first
    block of a kind is the one that starts leftmost; its contents begin
    after the last line break of the blanks that follow the opening fence
    (after the [>] that ends the opening tag) and end before the first
    closing delimiter.  These contents are determined by the text, and
    they exist wherever a block of the kind does; a kind whose first block
    is empty is passed over.  The result is the text taken with the module
    syntax stripped, and a text in which none of the literals [```],
    [<script], [import], [const] and [THREE.OrbitControls] occurs comes
    back unchanged. *)
Theorem processThreeJsCode_cascade (code : jsstring) :
  ((forall g g', firstJsFence code g -> firstJsFence code g' -> g = g') /\
   (forall g g', firstFence code g -> firstFence code g' -> g = g') /\
   (forall g g', firstScript code g -> firstScript code g' -> g = g')) /\
  ((forall pre body post,
      jsFenceAt code pre body post -> exists g, firstJsFence code g) /\
   (forall pre body post,
      fenceAt code pre body post -> exists g, firstFence code g) /\
   (forall pre body post,
      scriptTagAt code pre body post -> exists g, firstScript code g)) /\
  (forall g, firstJsFence code g -> g <> [] ->
             extractCode code = (FromJsFence, g)) /\
  (unusable firstJsFence code ->
   forall g, firstFence code g -> g <> [] ->
             extractCode code = (FromAnyFence, g)) /\
  (unusable firstJsFence code -> unusable firstFence code ->
   forall g, firstScript code g -> g <> [] ->
             extractCode code = (FromScriptTag, g)) /\
  (unusable firstJsFence code -> unusable firstFence code ->
   unusable firstScript code -> extractCode code = (FromRawText, code)) /\
  match extractCode code with
  | (FromJsFence, g) => firstJsFence code g /\ g <> []
  | (FromAnyFence, g) =>
      unusable firstJsFence code /\ firstFence code g /\ g <> []
  | (FromScriptTag, g) =>
      unusable firstJsFence code /\ unusable firstFence code /\
      firstScript code g /\ g <> []
  | (FromRawText, g) =>
      unusable firstJsFence code /\ unusable firstFence code /\
      unusable firstScript code /\ g = code
  end /\
  processThreeJsCode code = stripModuleSyntax (snd (extractCode code)) /\
  (~ occursIn (js "```") code -> ~ occursIn (js "<script") code ->
   ~ occursIn (js "import") code -> ~ occursIn (js "const") code ->
   ~ occursIn (js "THREE.OrbitControls") code ->
   processThreeJsCode code = code).
Proof.
  split.
  { split; [|split]; intros g g'.
    - apply (firstBlock_unique _ _ _ _ jsPattern_reads jsFence_unique).
    - apply (firstBlock_unique _ _ _ _ codePattern_reads fence_unique).
    - apply (firstBlock_unique _ _ _ _ scriptPattern_reads scriptTag_unique). }
  split.
  { split; [|split]; intros pre body post.
    - apply (block_has_first _ _ _ _ jsPattern_reads jsPattern_first).
    - apply (block_has_first _ _ _ _ codePattern_reads codePattern_first).
    - apply (block_has_first _ _ _ _ scriptPattern_reads scriptPattern_first). }
  rewrite extractCode_found.
  split.
  { intros g Hf Hg. rewrite (proj2 (jsFence_found code g) (conj Hg Hf)).
    reflexivity. }
  split.
  { intros H1 g Hf Hg.
    rewrite (proj2 (jsFence_none code) H1),
            (proj2 (fence_found code g) (conj Hg Hf)). reflexivity. }
  split.
  { intros H1 H2 g Hf Hg.
    rewrite (proj2 (jsFence_none code) H1), (proj2 (fence_none code) H2),
            (proj2 (scriptTag_found code g) (conj Hg Hf)). reflexivity. }
  split.
  { intros H1 H2 H3.
    rewrite (proj2 (jsFence_none code) H1), (proj2 (fence_none code) H2),
            (proj2 (scriptTag_none code) H3). reflexivity. }
  split.
  { destruct (found code jsPattern) as [g|] eqn:E1.
    { apply jsFence_found in E1 as [Hg Hf]. auto. }
    apply jsFence_none in E1.
    destruct (found code codePattern) as [g|] eqn:E2.
    { apply fence_found in E2 as [Hg Hf]. auto. }
    apply fence_none in E2.
    destruct (found code scriptPattern) as [g|] eqn:E3.
    { apply scriptTag_found in E3 as [Hg Hf]. auto. }
    apply scriptTag_none in E3. auto. }
  split; [reflexivity|].
  intros. apply processThreeJsCode_unchanged; assumption.
Qed.

(** Of two fenced blocks the first is read, up to its own closing fence. *)
Lemma first_of_two_fences :
  extractCode (js "```javascript" ++ nl :: js "a```b```")
  = (FromJsFence, js "a").
Proof. vm_compute. reflexivity. Qed.

(* ===================================================================== *)
(** ** Import lines *)
(* ===================================================================== *)

Lemma keepMask_eq r prev s :
  keepMask r prev s 0
  = match exec r prev s with
    | Some (_, rest) =>
        match (length s - length rest)%nat, s with
        | O, c :: s' => true :: keepMask r (Some c) s' 0
        | S n, c :: s' => false :: keepMask r (Some c) s' n
        | _, [] => []
        end
    | None =>
        match s with
        | c :: s' => true :: keepMask r (Some c) s' 0
        | [] => []
        end
    end.
Proof. destruct s; reflexivity. Qed.

(** The mask describes the replace with an empty replacement. *)
Lemma replaceLoop_kept r s :
  forall prev skip,
    replaceLoop r [] prev s skip = kept s (keepMask r prev s skip).
Proof.
  induction s as [|c s IH]; intros prev [|n].
  - rewrite replaceLoop_eq, keepMask_eq.
    destruct (exec r prev []) as [[cap rest]|]; [|reflexivity].
    destruct (length [] - length rest)%nat; reflexivity.
  - reflexivity.
  - rewrite replaceLoop_eq, keepMask_eq.
    destruct (exec r prev (c :: s)) as [[cap rest]|].
    + destruct (length (c :: s) - length rest)%nat; simpl; rewrite IH; reflexivity.
    + simpl. rewrite IH. reflexivity.
  - simpl. apply IH.
Qed.

Lemma keepMask_skip r s :
  forall prev skip i,
    (i < skip)%nat -> (i < length s)%nat ->
    keepMask r prev s skip !! i = Some false.
Proof.
  induction s as [|c s IH]; intros prev skip i Hi Hs; simpl in Hs; [lia|].
  destruct skip as [|n]; [lia|]. simpl.
  destruct i as [|i]; [reflexivity|]. simpl. apply IH; lia.
Qed.

(** A position strictly inside a line is not the end of a line. *)
Lemma inside_line_not_end (pre l post w rest : jsstring) :
  pre ++ l ++ post = w ++ rest -> noLineTerminator l ->
  (length pre <= length w)%nat -> (length w < length pre + length l)%nat ->
  atLineEnd rest = false.
Proof.
  intros He Hl H1 H2.
  assert (Hr : rest = drop (length w) (pre ++ l ++ post)).
  { rewrite He, drop_app_length. reflexivity. }
  rewrite drop_app_ge in Hr by exact H1.
  rewrite drop_app_le in Hr by lia.
  destruct (drop (length w - length pre) l) as [|x l2] eqn:E.
  - apply (f_equal length) in E. rewrite length_drop in E. simpl in E. lia.
  - subst rest. simpl.
    assert (Hx : In x l).
    { apply list_elem_of_In. eapply list_elem_of_lookup_2.
      apply (f_equal (fun t => t !! 0%nat)) in E. rewrite lookup_drop in E.
      simpl in E. exact E. }
    unfold noLineTerminator in Hl. rewrite List.Forall_forall in Hl.
    apply Hl, Hx.
Qed.

Section DropLine.
Context (r : re) (l post : jsstring).
Hypothesis ends_line :
  forall prev s cap rest, exec r prev s = Some (cap, rest) -> atLineEnd rest = true.
Hypothesis takes_line :
  forall prev, atLineStart prev = true -> exec r prev (l ++ post) <> None.
Hypothesis line : noLineTerminator l.

(** A match that starts at or before the line and reaches into it
    swallows it whole. *)
Lemma match_covers_line pre prev cap rest :
  exec r prev (pre ++ l ++ post) = Some (cap, rest) ->
  let len := (length (pre ++ l ++ post) - length rest)%nat in
  (len < length pre \/ length pre + length l <= len)%nat.
Proof.
  intros E len.
  pose proof (ends_line _ _ _ _ E) as Hend.
  apply exec_sound in E as (w & Hs & _).
  assert (Hlen : len = length w).
  { unfold len. rewrite Hs, length_app. lia. }
  rewrite Hlen.
  destruct (Nat.lt_ge_cases (length w) (length pre)) as [|H1]; [auto|].
  destruct (Nat.lt_ge_cases (length w) (length pre + length l)) as [H2|]; [|auto].
  rewrite (inside_line_not_end _ _ _ _ _ Hs line H1 H2) in Hend. discriminate.
Qed.

Lemma keepMask_drops_line pre :
  forall prev skip i,
    atLineStart (lastOr prev pre) = true ->
    (skip = 0 \/ skip < length pre \/ length pre + length l <= skip)%nat ->
    (length pre <= i < length pre + length l)%nat ->
    keepMask r prev (pre ++ l ++ post) skip !! i = Some false.
Proof.
  induction pre as [|c pre IH]; intros prev skip i Hstart Hskip Hi.
  - simpl in *. destruct skip as [|n].
    + rewrite keepMask_eq.
      destruct (exec r prev (l ++ post)) as [[cap rest]|] eqn:E;
        [|exfalso; apply (takes_line prev Hstart), E].
      pose proof (match_covers_line [] prev cap rest E) as Hc. simpl in Hc.
      destruct (length (l ++ post) - length rest)%nat as [|n] eqn:En; [lia|].
      destruct (l ++ post) as [|x s'] eqn:Es.
      { apply (f_equal length) in Es. rewrite length_app in Es. simpl in Es. lia. }
      destruct i as [|i]; [reflexivity|]. simpl.
      apply keepMask_skip; [lia|].
      apply (f_equal length) in Es. rewrite length_app in Es. simpl in Es. lia.
    + apply keepMask_skip; [lia|]. rewrite length_app. lia.
  - rewrite lastOr_cons in Hstart. simpl length in *.
    destruct i as [|i]; [lia|].
    destruct skip as [|n].
    + rewrite keepMask_eq. simpl app.
      destruct (exec r prev (c :: pre ++ l ++ post)) as [[cap rest]|] eqn:E.
      * pose proof (match_covers_line (c :: pre) prev cap rest E) as Hc.
        simpl in Hc.
        change (length (c :: pre ++ l ++ post)) with (S (length (pre ++ l ++ post))).
        destruct (S (length (pre ++ l ++ post)) - length rest)%nat as [|n];
          simpl; apply IH; try assumption; lia.
      * simpl. apply IH; try assumption; lia.
    + simpl. apply IH; try assumption; lia.
Qed.
End DropLine.

Lemma importFrom_ends_line prev s cap rest :
  exec importFromPattern prev s = Some (cap, rest) -> atLineEnd rest = true.
Proof.
  intros E. apply exec_sound in E as (w & _ & Hm).
  unfold importFromPattern, Plus in Hm. minv. assumption.
Qed.

Lemma quote_matches q : isQuote q -> cmatch quoteCls q = true.
Proof. intros [-> | ->]; reflexivity. Qed.

Lemma dot_matches (w : jsstring) :
  noLineTerminator w -> Forall (fun c => cmatch CDot c = true) w.
Proof.
  intros H. eapply List.Forall_impl; [|exact H].
  intros c Hc. simpl. rewrite Hc. reflexivity.
Qed.

Lemma importFrom_takes_line l post prev :
  importThreeLine l -> atLineEnd post = true -> atLineStart prev = true ->
  exec importFromPattern prev (l ++ post) <> None.
Proof.
  intros (ws1 & body & ws2 & q1 & q2 & semi & ws3 & Hl & Hn1 & Hs1 & Hn2 & Hs2
          & Hq1 & Hq2 & Hsemi & Hs3 & Hline) Hend Hstart.
  destruct ws1 as [|c1 ws1]; [contradiction|].
  destruct ws2 as [|c2 ws2]; [contradiction|].
  assert (Hbody : noLineTerminator body).
  { unfold noLineTerminator in *. rewrite Hl in Hline.
    rewrite !Forall_app in Hline. tauto. }
  apply (exec_complete importFromPattern prev l post None).
  replace l with
    ([] ++ js "import" ++ ([c1] ++ ws1) ++ body ++ js "from" ++ ([c2] ++ ws2)
     ++ [q1] ++ js "three" ++ [q2] ++ semi ++ ws3 ++ [])
    by (rewrite Hl, app_nil_r; reflexivity).
  inversion Hs1; subst. inversion Hs2; subst.
  unfold importFromPattern, Plus.
  eapply MSeq; [apply MBol, Hstart|].
  eapply MSeq; [apply MLit|].
  eapply MSeq; [eapply MSeq; [apply MCls; assumption|apply MStar; assumption]|].
  eapply MSeq; [apply MStarLazy, dot_matches, Hbody|].
  eapply MSeq; [apply MLit|].
  eapply MSeq; [eapply MSeq; [apply MCls; assumption|apply MStar; assumption]|].
  eapply MSeq; [apply MCls, quote_matches, Hq1|].
  eapply MSeq; [apply MStarLazy; repeat constructor|].
  eapply MSeq; [apply MCls, quote_matches, Hq2|].
  eapply MSeq; [destruct Hsemi as [-> | ->]; [apply MOptNone|apply MOptSome, MLit]|].
  eapply MSeq; [apply MStar, Hs3|].
  apply MEol, Hend.
Qed.

(** The counterexample to claim C6 as stated: a [javascript] fence is
    present, with empty contents, and the text is taken from the [script]
    element that follows it. *)
Lemma empty_fence_falls_through :
  jsFenceAt emptyFenceThenScript [] [] (js "<script>x</script>") /\
  extractCode emptyFenceThenScript = (FromScriptTag, js "x") /\
  processThreeJsCode emptyFenceThenScript = js "x".
Proof.
  split; [exists []; split; [reflexivity|constructor]|].
  split; vm_compute; reflexivity.
Qed.


Lemma processThreeJsCode_cascade_witness :
  extractCode fencedCode = (FromJsFence, js "code" ++ [nl]).
Proof.
  refine (proj1 (proj2 (proj2 (processThreeJsCode_cascade fencedCode)))
            (js "code" ++ [nl]) _ _).
  - apply (proj1 (jsFence_found fencedCode (js "code" ++ [nl]))).
    vm_compute. reflexivity.
  - discriminate.
Defined.

Lemma importLine_form : importThreeLine importLine.
Proof.
  exists (js " "), (js "* as THREE "), (js " "), squote, squote, (js ";"), [].
  repeat split; try discriminate; try (right; reflexivity);
    try (left; reflexivity); vm_compute; repeat constructor.
Qed.

(* ===================================================================== *)
(** ** The result-wait protocol: single events *)
(* ===================================================================== *)

Lemma jsEqb_eq a b : jsEqb a b = true -> a = b.
Proof.
  revert b. induction a as [|x a IH]; intros [|y b]; simpl; try discriminate; auto.
  intros H. apply andb_prop in H as [H1 H2].
  apply N.eqb_eq in H1. apply IH in H2. congruence.
Qed.

Lemma terminalStatus_false p :
  terminalStatus p = false ->
  statusIs p "completed" = false /\ statusIs p "failed" = false /\
  statusIs p "error" = false.
Proof.
  unfold terminalStatus. intros H.
  apply orb_false_elim in H as [H H3]. apply orb_false_elim in H as [H1 H2]. auto.
Qed.

Lemma terminalStatus_cases p :
  terminalStatus p = true ->
  statusIs p "completed" = true \/
  (statusIs p "completed" = false /\
   (statusIs p "failed" || statusIs p "error") = true).
Proof.
  unfold terminalStatus. destruct (statusIs p "completed"); simpl; auto.
Qed.

Lemma statusIs_exclusive p (a b : string) :
  statusIs p a = true -> js a <> js b -> statusIs p b = false.
Proof.
  unfold statusIs. destruct (status p) as [t|]; [|discriminate].
  intros Ha Hne. apply jsEqb_eq in Ha. subst t.
  destruct (jsEqb (js a) (js b)) eqn:E; [|reflexivity].
  apply jsEqb_eq in E. contradiction.
Qed.

Lemma failure_not_completed p :
  statusIs p "failed" || statusIs p "error" = true ->
  statusIs p "completed" = false.
Proof.
  intros H. apply orb_prop in H as [H | H];
    eapply statusIs_exclusive; try exact H; discriminate.
Qed.

Lemma orElse_nonempty o m dflt : o = Some m -> m <> [] -> orElse o dflt = m.
Proof. intros -> H. destruct m; [contradiction|reflexivity]. Qed.

(** A message that is passed over changes nothing at all. *)
Lemma passedOver_ignored f ev st :
  ev <> Opened -> passedOver f ev = true -> deliver f st ev = st.
Proof.
  intros Hno. destruct ev as [d | t d | lost | | ]; simpl; try discriminate;
    try contradiction; intros H.
  - apply negb_true_iff in H.
    destruct (inService st); [|reflexivity].
    destruct f, d; simpl in *; try reflexivity; try discriminate.
    + apply terminalStatus_false in H as (H1 & H2 & H3).
      unfold codeGeneration_onmessage. effsimpl. rewrite H1, H2, H3. reflexivity.
    + apply terminalStatus_false in H as (H1 & H2 & H3).
      unfold taskResult_onmessage. effsimpl. rewrite H1, H2, H3. reflexivity.
  - apply negb_true_iff in H.
    destruct (inService st); [|reflexivity].
    destruct f; simpl in *.
    + apply orb_false_elim in H as [H1 H2]. rewrite H1, H2.
      destruct (jsEqb t (js "start")); reflexivity.
    + apply orb_false_elim in H as [H H3]. apply orb_false_elim in H as [H1 H2].
      rewrite H2, H3.
      destruct (jsEqb t (js "message")) eqn:E.
      * simpl in H1. destruct d; simpl in H1; try discriminate.
        apply terminalStatus_false in H1 as (Ha & Hb & Hc).
        unfold codeGeneration_onmessage. effsimpl. rewrite Ha, Hb, Hc. reflexivity.
      * destruct (jsEqb t (js "start")); reflexivity.
    + reflexivity.
    + apply orb_false_elim in H as [H1 H2]. rewrite H1, H2.
      destruct (jsEqb t (js "start")); reflexivity.
Qed.

(** Evaluation of listeners on a wait that is still going: the state is
    taken apart, the two values of [readyState] that are in service are
    tried, and the listeners are run. *)
Ltac from_waiting Hw st :=
  let Hin := fresh "Hin" in
  destruct Hw as (? & ? & ? & ? & Hin & ? & ? & ?);
  destruct st as [k p s sc r c cc t]; unfold inService in Hin; simpl in *; subst;
  destruct r; try discriminate Hin; clear Hin;
  unfold endedWith, finished; handlers; effsimpl.

Ltac ended := simpl; repeat split; congruence.

Lemma codeGeneration_onmessage_ends d st :
  waiting CodeGeneration st -> endsOnMessage CodeGeneration d = true ->
  endedWith 1 (execEff (codeGeneration_onmessage d) st).
Proof.
  intros Hw Hd. destruct d as [pl|exn]; simpl in Hd.
  - apply terminalStatus_cases in Hd as [H1 | [H1 H2]];
      from_waiting Hw st; rewrite H1, ?H2;
      try destruct (truthy (content pl)); ended.
  - from_waiting Hw st; ended.
Qed.

Lemma taskResult_onmessage_ends d st :
  waiting TaskResult st -> endsOnMessage TaskResult d = true ->
  endedWith 1 (execEff (taskResult_onmessage d) st).
Proof.
  intros Hw Hd. destruct d as [pl|exn]; simpl in Hd; [|discriminate].
  apply terminalStatus_cases in Hd as [H1 | [H1 H2]];
    from_waiting Hw st; rewrite H1, ?H2; ended.
Qed.

Lemma codeGeneration_complete_ends d st :
  waiting CodeGeneration st ->
  endedWith 1 (execEff (codeGeneration_complete d) st).
Proof.
  intros Hw. destruct d as [pl|exn]; from_waiting Hw st;
    try destruct (truthy (content pl)); ended.
Qed.

Lemma codeEditing_complete_ends d st :
  waiting CodeEditing st -> endedWith 1 (execEff (codeEditing_complete d) st).
Proof.
  intros Hw. destruct d as [pl|exn]; from_waiting Hw st;
    try destruct (truthy (content pl)); ended.
Qed.

Lemma imageGeneration_complete_ends d st :
  waiting ImageGeneration st ->
  endedWith 1 (execEff (imageGeneration_complete d) st).
Proof.
  intros Hw. destruct d as [pl|exn]; from_waiting Hw st;
    try destruct (images pl) as [[|im ims]|]; ended.
Qed.

(** An event of type [error] reaches the listener added for it and the
    [onerror] handler: two rejections and two closings are requested. *)
Lemma codeGeneration_error_ends d st :
  waiting CodeGeneration st ->
  endedWith 2 (runListeners [codeGeneration_error d; codeGeneration_onerror] st).
Proof. intros Hw. destruct d as [pl|exn]; from_waiting Hw st; ended. Qed.

Lemma codeEditing_error_ends d st :
  waiting CodeEditing st ->
  endedWith 2 (runListeners [codeEditing_error d; sse_onerror] st).
Proof. intros Hw. destruct d as [pl|exn]; from_waiting Hw st; ended. Qed.

Lemma imageGeneration_error_ends d st :
  waiting ImageGeneration st ->
  endedWith 2 (runListeners [imageGeneration_error d; sse_onerror] st).
Proof. intros Hw. destruct d as [pl|exn]; from_waiting Hw st; ended. Qed.

(** Case analysis on the name of an event. *)
Ltac name_case ty a :=
  let E := fresh "E" in
  destruct (jsEqb ty a) eqn:E; [apply jsEqb_eq in E; subst ty|].

(** What a terminal message does to a wait that is still going. *)
Lemma settles_from_waiting f ev st :
  waiting f st -> settles f ev = true ->
  endedWith (if isErrorEvent ev then 2 else 1) (deliver f st ev).
Proof.
  intros Hw Hev.
  assert (Hin : inService st = true) by apply Hw.
  destruct ev as [d | ty d | lost | | ]; simpl in Hev; try discriminate;
    unfold deliver; rewrite Hin.
  - destruct f; try discriminate Hev; simpl.
    + apply codeGeneration_onmessage_ends; assumption.
    + apply taskResult_onmessage_ends; assumption.
  - destruct f; try discriminate Hev; cbn [listeners isErrorEvent].
    + name_case ty (js "start"%string); [discriminate Hev|].
      name_case ty (js "complete"%string); [apply imageGeneration_complete_ends, Hw|].
      simpl in Hev. rewrite Hev. apply imageGeneration_error_ends, Hw.
    + name_case ty (js "message"%string).
      * apply codeGeneration_onmessage_ends; [exact Hw|].
        destruct (endsOnMessage CodeGeneration d); [reflexivity|discriminate Hev].
      * name_case ty (js "start"%string); [discriminate Hev|].
        name_case ty (js "complete"%string); [apply codeGeneration_complete_ends, Hw|].
        simpl in Hev. rewrite Hev. apply codeGeneration_error_ends, Hw.
    + name_case ty (js "start"%string); [discriminate Hev|].
      name_case ty (js "complete"%string); [apply codeEditing_complete_ends, Hw|].
      simpl in Hev. rewrite Hev. apply codeEditing_error_ends, Hw.
Qed.

(* ===================================================================== *)
(** ** The result-wait protocol: whole runs *)
(* ===================================================================== *)

(** Once a wait is over, nothing changes what its promise and its channel
    show: not a further event, and not the timer. *)
Lemma finished_deliver f st ev :
  finished st -> finished (deliver f st ev) /\ sameOutcome st (deliver f st ev).
Proof.
  intros [Hp Hin]. unfold deliver, sameOutcome, finished.
  destruct ev as [d | ty d | lost | | ]; rewrite ?Hin; auto.
  - destruct st as [k p s sc r c cc t]; unfold inService in *; simpl in *.
    destruct r; try discriminate; auto.
    destruct p; [congruence| |];
      destruct f, k, lost, t; handlers; effsimpl; simpl; auto.
  - destruct st as [k p s sc r c cc t]; unfold inService in *; simpl in *.
    destruct r; try discriminate; auto.
  - destruct st as [k p s sc r c cc t]; unfold inService in *; simpl in *.
    destruct k; simpl; auto.
Qed.

Lemma finished_deliverAll f evs st :
  finished st -> finished (deliverAll f evs st) /\ sameOutcome st (deliverAll f evs st).
Proof.
  revert st. induction evs as [|ev evs IH]; intros st H; simpl.
  - unfold sameOutcome; auto.
  - destruct (finished_deliver f st ev H) as [H1 (Ha & Hb & Hc)].
    destruct (IH _ H1) as [H2 (Ha' & Hb' & Hc')].
    split; [exact H2|]. unfold sameOutcome. repeat split; congruence.
Qed.

Lemma finished_fireTimer f st :
  finished st -> finished (fireTimer f st) /\ sameOutcome st (fireTimer f st).
Proof.
  intros [Hp Hin]. unfold fireTimer, sameOutcome, finished.
  destruct st as [k p s sc r c cc t]; unfold inService in *; simpl in *.
  destruct t; [|auto].
  destruct r; try discriminate Hin; destruct p; try congruence;
    destruct f; handlers; effsimpl; simpl; auto.
Qed.

Lemma initWait_waiting f : waiting f (initWait f).
Proof. unfold waiting, initWait; simpl; auto 10. Qed.

Lemma quiet_deliver f st ev :
  waiting f st -> passedOver f ev = true -> waiting f (deliver f st ev).
Proof.
  intros Hw Hq.
  destruct ev;
    try (rewrite (passedOver_ignored f _ st); [exact Hw | discriminate | exact Hq]).
  destruct Hw as (Hk & Hp & Hs & Hsc & Hin & Hc & Hcc & Ht).
  destruct st as [k p s sc r c cc t]; unfold inService in *; simpl in *.
  unfold waiting, deliver. simpl.
  destruct r; try discriminate; destruct f; simpl; auto 10.
Qed.

Lemma quiet_deliverAll f evs st :
  waiting f st -> Forall (fun ev => passedOver f ev = true) evs ->
  waiting f (deliverAll f evs st).
Proof.
  revert st. induction evs as [|ev evs IH]; intros st Hw Hq; simpl; [exact Hw|].
  inversion Hq; subst. apply IH; [apply quiet_deliver|]; assumption.
Qed.

(** The timer of a wait that is still going rejects and closes. *)
Lemma timer_from_waiting f st :
  waiting f st ->
  let st' := fireTimer f st in
  promise st' = Rejected (timeoutText f) /\ endedWith 1 st' /\
  kind st' = channelOf f /\
  ready st' = match channelOf f with
              | EventSourceChannel => CLOSED
              | WebSocketChannel => CLOSING
              end.
Proof.
  intros Hw. unfold fireTimer.
  assert (Ht : timerArmed st = true) by apply Hw. rewrite Ht.
  destruct f; from_waiting Hw st; simpl; repeat split; congruence.
Qed.

Lemma deliverAll_app f l1 l2 st :
  deliverAll f (l1 ++ l2) st = deliverAll f l2 (deliverAll f l1 st).
Proof. apply fold_left_app. Qed.

Lemma closed_deliverAll f evs st :
  kind st = EventSourceChannel -> ready st = CLOSED ->
  ready (deliverAll f evs st) = CLOSED.
Proof.
  revert st. induction evs as [|ev evs IH]; intros st Hk Hr; simpl; [exact Hr|].
  assert (H : deliver f st ev = st).
  { unfold deliver, inService. rewrite Hr, Hk. destruct ev; reflexivity. }
  rewrite H. apply IH; assumption.
Qed.

(** The arrivals before the delay of the timer. *)
Lemma early_all (T : N) (l : list (N * event)) :
  Forall (fun a => fst a < T) l -> List.filter (fun a => fst a <? T) l = l.
Proof.
  induction 1 as [|a l H _ IH]; simpl; [reflexivity|].
  apply N.ltb_lt in H. rewrite H, IH. reflexivity.
Qed.

Lemma early_split (T : N) (pre post : list (N * event)) a :
  Forall (fun a => fst a < T) pre -> fst a < T ->
  List.filter (fun a => fst a <? T) (pre ++ a :: post)
  = pre ++ a :: List.filter (fun a => fst a <? T) post.
Proof.
  intros Hpre Ha. rewrite List.filter_app, (early_all _ _ Hpre). simpl.
  apply N.ltb_lt in Ha. rewrite Ha. reflexivity.
Qed.

Lemma quiet_early (f : job) (arrivals : list (N * event)) :
  Forall (fun a => fst a < timeoutMs f -> passedOver f (snd a) = true) arrivals ->
  Forall (fun ev => passedOver f ev = true)
         (map snd (List.filter (fun a => fst a <? timeoutMs f) arrivals)).
Proof.
  induction 1 as [|a l H _ IH]; simpl; [constructor|].
  destruct (fst a <? timeoutMs f) eqn:E; [|exact IH].
  simpl. constructor; [apply H, N.ltb_lt, E | exact IH].
Qed.

(* ===================================================================== *)
(** ** The result-wait protocol on arbitrary runs *)
(* ===================================================================== *)

(** Case analysis on every test a listener makes. *)
Ltac branches :=
  repeat match goal with
  | |- context [if ?b then _ else _] => destruct b
  | |- context [match ?x with Some _ => _ | None => _ end] => destruct x
  | |- context [match ?x with [] => _ | _ :: _ => _ end] => destruct x
  end.

Ltac from_running Hr st :=
  let Hin := fresh "Hin" in
  destruct Hr as (? & ? & Hin & ?);
  destruct st as [k p s sc r c cc t]; unfold inService in Hin; simpl in *; subst;
  destruct r; try discriminate Hin; clear Hin.

Ltac from_over Ho st :=
  let Hin := fresh "Hin" in
  let Hp := fresh "Hp" in
  let Hc := fresh "Hc" in
  destruct Ho as (? & Hp & Hin & Hc);
  destruct st as [k p s sc r c cc t]; unfold inService in Hin; simpl in *; subst;
  destruct p; try (exfalso; apply Hp; reflexivity);
  destruct r; try discriminate Hin; clear Hin.

Ltac settle_cases :=
  unfold running, over, inService; simpl;
  first [ left; repeat split; congruence
        | right; repeat split; congruence ].

Ltac tame_handler :=
  split; intros st H;
  [ from_running H st; handlers; effsimpl; branches; settle_cases
  | from_over H st; handlers; effsimpl; branches;
    unfold over, inService; simpl; repeat split; auto; congruence ].

Lemma tame_skip f : tame f (mret tt).
Proof. split; intros st H; [left|split]; auto. Qed.

Lemma tame_codeGeneration_onmessage d :
  tame CodeGeneration (codeGeneration_onmessage d).
Proof. destruct d as [pl|exn]; tame_handler. Qed.

Lemma tame_codeGeneration_complete d :
  tame CodeGeneration (codeGeneration_complete d).
Proof. destruct d as [pl|exn]; tame_handler. Qed.

Lemma tame_codeGeneration_error d :
  tame CodeGeneration (codeGeneration_error d).
Proof. destruct d as [pl|exn]; tame_handler. Qed.

Lemma tame_codeGeneration_onerror :
  tame CodeGeneration codeGeneration_onerror.
Proof. tame_handler. Qed.

Lemma tame_taskResult_onmessage d : tame TaskResult (taskResult_onmessage d).
Proof. destruct d as [pl|exn]; tame_handler. Qed.

Lemma tame_taskResult_onerror : tame TaskResult taskResult_onerror.
Proof. tame_handler. Qed.

Lemma tame_imageGeneration_complete d :
  tame ImageGeneration (imageGeneration_complete d).
Proof. destruct d as [pl|exn]; tame_handler. Qed.

Lemma tame_codeEditing_complete d :
  tame CodeEditing (codeEditing_complete d).
Proof. destruct d as [pl|exn]; tame_handler. Qed.

Lemma tame_sse_error f dflt unknown d :
  channelOf f = EventSourceChannel -> tame f (sse_error dflt unknown d).
Proof. intros Hf. destruct f; try discriminate Hf; destruct d as [pl|exn]; tame_handler. Qed.

Lemma tame_sse_onerror f :
  channelOf f = EventSourceChannel -> tame f sse_onerror.
Proof. intros Hf. destruct f; try discriminate Hf; tame_handler. Qed.

Lemma tame_listeners f ev : Forall (tame f) (listeners f ev).
Proof.
  destruct f, ev; cbn [listeners];
    repeat match goal with
    | |- context [jsEqb ?t ?a] => destruct (jsEqb t a)
    end;
    repeat match goal with
    | |- Forall _ (_ :: _) => constructor
    | |- Forall _ [] => constructor
    end;
    auto using tame_skip, tame_codeGeneration_onmessage,
      tame_codeGeneration_complete, tame_codeGeneration_error,
      tame_codeGeneration_onerror, tame_taskResult_onmessage,
      tame_taskResult_onerror, tame_imageGeneration_complete,
      tame_codeEditing_complete;
    try (apply tame_sse_error; reflexivity);
    try (apply tame_sse_onerror; reflexivity).
Qed.

Lemma tame_runListeners f hs :
  Forall (tame f) hs ->
  (forall st, running f st ->
              running f (runListeners hs st) \/ over f (runListeners hs st)) /\
  (forall st, over f st -> over f (runListeners hs st) /\
                           promise (runListeners hs st) = promise st).
Proof.
  induction 1 as [|h hs [Hr Ho] _ [IHr IHo]]; [split; intros; auto|].
  split; intros st Hst; change (runListeners (h :: hs) st)
                          with (runListeners hs (execEff h st)).
  - destruct (Hr st Hst) as [H1 | H1]; [apply IHr, H1 | right; apply IHo, H1].
  - destruct (Ho st Hst) as [H1 H2]. destruct (IHo _ H1) as [H3 H4].
    split; [exact H3 | congruence].
Qed.

(** A failing connection ends a wait that is running. *)
Lemma error_from_running f st lost :
  running f st -> over f (deliver f st (ConnectionError lost)).
Proof.
  intros Hr. unfold deliver.
  destruct f, lost; from_running Hr st; handlers; effsimpl;
    unfold over, inService; simpl; repeat split; congruence.
Qed.

Lemma running_deliver f st ev :
  running f st -> phase f (deliver f st ev).
Proof.
  intros Hr. unfold phase.
  assert (Hin : inService st = true) by apply Hr.
  destruct (tame_runListeners f _ (tame_listeners f ev)) as [Hl _].
  destruct ev as [d | ty d | lost | | ];
    [| | right; left; apply error_from_running, Hr | |];
    unfold deliver; rewrite ?Hin;
    try (destruct (Hl st Hr); auto; fail).
  - destruct (ready st) eqn:Er; auto.
    assert (Hr' : running f (setReady OPEN st)).
    { destruct Hr as (H1 & H2 & H3 & H4).
      unfold running, setReady, inService; simpl; auto. }
    destruct (Hl _ Hr'); auto.
  - destruct Hr as (H1 & H2 & H3 & H4).
    destruct (kind st) eqn:Ek; [left; repeat split; congruence|].
    right; right. unfold stranded, setReady. simpl.
    destruct f; try discriminate H1. auto.
Qed.

Lemma over_deliver f st ev :
  over f st -> over f (deliver f st ev) /\ promise (deliver f st ev) = promise st.
Proof.
  intros Ho.
  assert (Hin : inService st = false) by apply Ho.
  destruct ev as [d | ty d | lost | | ]; unfold deliver; rewrite ?Hin; auto.
  - destruct (ready st) eqn:Er; auto;
      try (unfold inService in Hin; rewrite Er in Hin; discriminate Hin).
    destruct (tame_runListeners f _ (tame_listeners f (ConnectionError lost)))
      as [_ Hl].
    apply (Hl (setReady CLOSED st)).
    destruct Ho as (H1 & H2 & H3 & H4).
    unfold over, setReady, inService; simpl. auto.
  - destruct st as [k p s sc r c cc t]; unfold inService in Hin; simpl in *.
    destruct r; try discriminate Hin; auto.
  - destruct Ho as (H1 & H2 & H3 & H4).
    destruct (kind st) eqn:Ek; [unfold over; rewrite Ek; auto|].
    split; [|reflexivity]. unfold over, setReady, inService. simpl.
    repeat split; auto; congruence.
Qed.

Lemma stranded_deliver f st ev :
  stranded f st -> stranded f (deliver f st ev).
Proof.
  intros (Hf & Hk & Hp & Hr). unfold stranded, deliver, inService.
  rewrite Hr, Hk. destruct ev; auto.
Qed.

Lemma phase_deliver f st ev : phase f st -> phase f (deliver f st ev).
Proof.
  intros [H | [H | H]].
  - apply running_deliver, H.
  - right; left. apply over_deliver, H.
  - right; right. apply stranded_deliver, H.
Qed.

Lemma phase_deliverAll f evs st : phase f st -> phase f (deliverAll f evs st).
Proof.
  revert st. induction evs as [|ev evs IH]; intros st H; [exact H|].
  apply IH, phase_deliver, H.
Qed.

Lemma initWait_running f : running f (initWait f).
Proof. unfold running, initWait; simpl; auto. Qed.

Lemma stranded_fireTimer f st : stranded f st -> stranded f (fireTimer f st).
Proof.
  unfold fireTimer. intros H. destruct (timerArmed st) eqn:Et; [|exact H].
  destruct H as (Hf & Hk & Hp & Hr). subst f.
  destruct st as [k p s sc r c cc t]; simpl in *; subst.
  handlers; effsimpl. unfold stranded. simpl. auto.
Qed.

Lemma stranded_deliverAll f evs st :
  stranded f st -> stranded f (deliverAll f evs st).
Proof.
  revert st. induction evs as [|ev evs IH]; intros st H; [exact H|].
  apply IH, stranded_deliver, H.
Qed.

(** The timer ends a wait that is running, and changes nothing else that
    an observer sees. *)
Lemma phase_fireTimer f st :
  phase f st -> over f (fireTimer f st) \/ stranded f (fireTimer f st).
Proof.
  unfold fireTimer. intros [H | [H | H]].
  - left. assert (Ht : timerArmed st = true) by apply H. rewrite Ht.
    destruct f; from_running H st; handlers; effsimpl;
      unfold over, inService; simpl; repeat split; congruence.
  - left. destruct (timerArmed st) eqn:Et; [|exact H].
    destruct f; from_over H st; handlers; effsimpl;
      unfold over, inService; simpl; repeat split; auto; congruence.
  - right. apply stranded_fireTimer, H.
Qed.

Lemma settled_deliverAll f evs st :
  over f st \/ stranded f st ->
  over f (deliverAll f evs st) \/ stranded f (deliverAll f evs st).
Proof.
  revert st. induction evs as [|ev evs IH]; intros st H; [exact H|].
  apply IH. destruct H as [H | H];
    [left; apply over_deliver, H | right; apply stranded_deliver, H].
Qed.

(** Every run of a wait ends settled and closed, or stranded. *)
Lemma runWait_ends f arrivals :
  over f (runWait f arrivals) \/ stranded f (runWait f arrivals).
Proof.
  unfold runWait. apply settled_deliverAll, phase_fireTimer, phase_deliverAll.
  left. apply initWait_running.
Qed.

Lemma sse_never_stranded f st :
  channelOf f = EventSourceChannel -> stranded f st -> False.
Proof. intros Hf (-> & _). discriminate Hf. Qed.

Lemma sse_runWait_over f arrivals :
  channelOf f = EventSourceChannel -> over f (runWait f arrivals).
Proof.
  intros Hf. destruct (runWait_ends f arrivals) as [H | H]; [exact H|].
  destruct (sse_never_stranded f _ Hf H).
Qed.

(* ===================================================================== *)
(** ** The tags of the specification and the listeners of the source *)
(* ===================================================================== *)

Lemma statusTag_terminal d :
  match statusTag d with
  | Some TagCompleted | Some TagFailed =>
      exists p, d = Json p /\ terminalStatus p = true
  | Some TagProgress => exists p, d = Json p /\ terminalStatus p = false
  | None => exists exn, d = Unparsable exn
  end.
Proof.
  destruct d as [p|exn]; [|simpl; eauto]. unfold statusTag, terminalStatus.
  destruct (statusIs p "completed") eqn:E1, (statusIs p "failed") eqn:E2,
    (statusIs p "error") eqn:E3; simpl; exists p; rewrite E1, E2, E3; auto.
Qed.

(** A progress message is passed over by every wait function. *)
Lemma progress_passedOver f ev :
  progressMessage ev = true -> passedOver f ev = true /\ ev <> Opened.
Proof.
  unfold progressMessage. intros H. split; [|intros ->; discriminate H].
  destruct ev as [d | ty d | lost | | ]; simpl in H; try discriminate H.
  - pose proof (statusTag_terminal d) as Hd.
    destruct (statusTag d) as [[]|]; try discriminate H.
    destruct Hd as (p & -> & Hp). destruct f; simpl; rewrite ?Hp; reflexivity.
  - name_case ty (js "message"%string).
    + pose proof (statusTag_terminal d) as Hd.
      destruct (statusTag d) as [[]|]; try discriminate H.
      destruct Hd as (p & -> & Hp). destruct f; simpl; rewrite ?Hp; reflexivity.
    + destruct (jsEqb ty (js "complete")) eqn:E1; [discriminate H|].
      destruct (jsEqb ty (js "error")) eqn:E2; [discriminate H|].
      destruct f; simpl; rewrite ?E, ?E1, ?E2; reflexivity.
Qed.

Lemma quiet_passedOver f ev : quiet ev = true -> passedOver f ev = true.
Proof.
  destruct ev; try reflexivity; intros H; apply progress_passedOver, H.
Qed.

(** A progress message changes nothing at all, on any wait function and
    in any state. *)
Lemma progress_ignored f st ev :
  progressMessage ev = true -> deliver f st ev = st.
Proof.
  intros H. destruct (progress_passedOver f ev H) as [H1 H2].
  apply passedOver_ignored; assumption.
Qed.

Lemma terminal_tag ev :
  terminalMessage ev = true ->
  tagOf ev = Some TagCompleted \/ tagOf ev = Some TagFailed.
Proof.
  unfold terminalMessage, completedMessage, failureMessage.
  destruct (tagOf ev) as [[]|]; simpl; auto; discriminate.
Qed.

(** A terminal message that reaches a listener of [f] is one on which the
    source of [f] resolves or rejects. *)
Lemma terminal_settles f ev :
  terminalMessage ev = true -> carries (channelOf f) ev = true ->
  handles f ev = true -> settles f ev = true.
Proof.
  intros Ht Hc Hh.
  assert (Htag : match tagOf ev with
                 | Some TagCompleted | Some TagFailed => True
                 | _ => False
                 end)
    by (destruct (terminal_tag ev Ht) as [-> | ->]; exact I).
  clear Ht.
  destruct ev as [d | ty d | lost | | ]; simpl in Htag; try contradiction.
  - pose proof (statusTag_terminal d) as Hd.
    destruct (statusTag d) as [[]|]; try contradiction;
      destruct Hd as (p & -> & Hp);
      destruct f; simpl; try exact Hp; discriminate Hh.
  - destruct f; try discriminate Hc; unfold handles in Hh; simpl in *.
    + name_case ty (js "message"%string); [discriminate Hh|].
      destruct (jsEqb ty (js "complete")); [reflexivity|].
      destruct (jsEqb ty (js "error")); [reflexivity|contradiction].
    + name_case ty (js "message"%string).
      * pose proof (statusTag_terminal d) as Hd.
        destruct (statusTag d) as [[]|]; try contradiction;
          destruct Hd as (p & -> & Hp); simpl; rewrite Hp; reflexivity.
      * destruct (jsEqb ty (js "complete")); [reflexivity|].
        destruct (jsEqb ty (js "error")); [reflexivity|contradiction].
    + name_case ty (js "message"%string); [discriminate Hh|].
      destruct (jsEqb ty (js "complete")); [reflexivity|].
      destruct (jsEqb ty (js "error")); [reflexivity|contradiction].
Qed.

(** A terminal message that reaches no listener: only the image and edit
    waits have such, and they ignore it. *)
Lemma terminal_unheard f ev :
  terminalMessage ev = true -> carries (channelOf f) ev = true ->
  handles f ev = false ->
  (f = ImageGeneration \/ f = CodeEditing) /\ forall st, deliver f st ev = st.
Proof.
  intros Ht Hc Hh.
  assert (Hl : listeners f ev = []).
  { unfold handles in Hh. destruct (listeners f ev); [reflexivity|discriminate]. }
  assert (Hd : forall st, deliver f st ev = st).
  { intros st. destruct (terminal_tag ev Ht) as [E | E];
      destruct ev; try discriminate E; unfold deliver; rewrite Hl;
      destruct (inService st); reflexivity. }
  split; [|exact Hd].
  destruct (terminal_tag ev Ht) as [E | E];
    destruct ev as [d | ty d | lost | | ]; try discriminate E;
    destruct f; auto; try discriminate Hc; try discriminate Hl;
    simpl in Hl, E;
    destruct (jsEqb ty (js "message")); try discriminate Hl;
    destruct (jsEqb ty (js "start")); try discriminate Hl;
    destruct (jsEqb ty (js "complete")); try discriminate Hl;
    destruct (jsEqb ty (js "error")); try discriminate Hl; discriminate E.
Qed.

(** What a failing connection does to a wait that is still going. *)
Lemma error_from_waiting f st lost :
  waiting f st ->
  let st' := deliver f st (ConnectionError lost) in
  promise st' = Rejected (connectionErrorText f) /\ finished st' /\
  settlements st' = 1%nat /\
  closings st' = match failedState (channelOf f) lost with
                 | CLOSED => 0%nat
                 | _ => 1%nat
                 end /\
  settleCalls st' = match f with TaskResult => 1%nat | _ => 2%nat end /\
  closeCalls st' = match f with TaskResult => 1%nat | _ => 2%nat end /\
  (channelOf f = EventSourceChannel -> ready st' = CLOSED) /\
  (f = ImageGeneration \/ f = CodeEditing -> timerArmed st' = false).
Proof.
  intros Hw st'. unfold st', deliver.
  destruct f, lost; from_waiting Hw st; simpl; repeat split;
    try congruence; try discriminate; intros [H | H]; discriminate H.
Qed.

(** A socket that is closed from the other side before a terminal message
    leaves the wait stranded. *)
Lemma stranded_run (pre post : list (N * event)) (t : N) :
  Forall (fun a => fst a < timeoutMs TaskResult /\
                   passedOver TaskResult (snd a) = true) pre ->
  t < timeoutMs TaskResult ->
  let final := runWait TaskResult (pre ++ (t, SocketClosed) :: post) in
  promise final = Pending /\ ready final = CLOSED /\
  settleCalls final = 0%nat /\ closeCalls final = 0%nat.
Proof.
  intros Hpre Ht final.
  pose (before := deliverAll TaskResult (map snd pre) (initWait TaskResult)).
  assert (Hw : waiting TaskResult before).
  { apply quiet_deliverAll; [apply initWait_waiting|].
    rewrite List.Forall_map. eapply List.Forall_impl; [|exact Hpre].
    intros a [_ H]; exact H. }
  pose (closed := deliver TaskResult before SocketClosed).
  assert (Hc : stranded TaskResult closed /\
               settleCalls closed = 0%nat /\ closeCalls closed = 0%nat).
  { unfold closed. destruct Hw as (Hk & Hp & Hs & Hsc & Hin & Hcl & Hcc & Htm).
    unfold deliver, stranded, setReady. rewrite Hk. simpl. auto 10. }
  assert (Hkeep : forall st,
             stranded TaskResult st /\ settleCalls st = 0%nat /\
             closeCalls st = 0%nat ->
             forall evs,
               let st' := deliverAll TaskResult evs st in
               stranded TaskResult st' /\ settleCalls st' = 0%nat /\
               closeCalls st' = 0%nat).
  { intros st H evs. revert st H.
    induction evs as [|ev evs IH]; intros st H; [exact H|].
    apply IH. destruct H as ((Hf & Hk & Hp & Hr) & Hsc & Hcc).
    unfold deliver, stranded, setReady, inService. rewrite Hr, Hk.
    destruct ev; simpl; auto 10. }
  assert (Hrun : exists l1 l2,
             final = deliverAll TaskResult l2
                       (fireTimer TaskResult (deliverAll TaskResult l1 closed))).
  { unfold final, runWait.
    rewrite early_split;
      [|eapply List.Forall_impl; [|exact Hpre]; intros a [H _]; exact H|exact Ht].
    rewrite map_app, deliverAll_app. simpl. eauto. }
  destruct Hrun as (l1 & l2 & ->).
  assert (Hfire : forall st,
             stranded TaskResult st /\ settleCalls st = 0%nat /\
             closeCalls st = 0%nat ->
             let st' := fireTimer TaskResult st in
             stranded TaskResult st' /\ settleCalls st' = 0%nat /\
             closeCalls st' = 0%nat).
  { intros st ((Hf & Hk & Hp & Hr) & Hsc & Hcc). unfold fireTimer.
    destruct st as [k p s sc r c cc tm]; simpl in *; subst.
    destruct tm; handlers; effsimpl; unfold stranded; simpl; auto 10. }
  destruct (Hkeep _ (Hfire _ (Hkeep _ Hc l1)) l2) as ((_ & _ & Hp & Hr) & Hsc & Hcc).
  auto.
Qed.

(* ===================================================================== *)
(** ** The claims about the result-wait protocol *)
(* ===================================================================== *)




(** A wait that is still going and receives a failing connection ends
    rejected, whatever arrives later. *)
Lemma failed_run (f : job) (pre post : list (N * event)) (t : N) (lost : bool) :
  Forall (fun a => fst a < timeoutMs f /\ passedOver f (snd a) = true) pre ->
  t < timeoutMs f ->
  promise (runWait f (pre ++ (t, ConnectionError lost) :: post))
  = Rejected (connectionErrorText f).
Proof.
  intros Hpre Ht.
  pose (before := deliverAll f (map snd pre) (initWait f)).
  assert (Hw : waiting f before).
  { apply quiet_deliverAll; [apply initWait_waiting|].
    rewrite List.Forall_map. eapply List.Forall_impl; [|exact Hpre].
    intros a [_ H]; exact H. }
  destruct (error_from_waiting f before lost Hw) as (Hp & Hfin & _).
  unfold runWait.
  rewrite early_split;
    [|eapply List.Forall_impl; [|exact Hpre]; intros a [H _]; exact H|exact Ht].
  rewrite map_app, deliverAll_app.
  change (map snd ((t, ConnectionError lost) :: ?l))
    with (ConnectionError lost :: map snd l).
  change (deliverAll f (ConnectionError lost :: ?l) ?s)
    with (deliverAll f l (deliver f s (ConnectionError lost))).
  fold before.
  match goal with
  | |- promise (deliverAll f ?l2 (fireTimer f (deliverAll f ?l1 ?s))) = _ =>
      destruct (finished_deliverAll f l1 s Hfin) as [F1 (P1 & _)];
      destruct (finished_fireTimer f _ F1) as [F2 (P2 & _)];
      destruct (finished_deliverAll f l2 _ F2) as [F3 (P3 & _)]
  end.
  congruence.
Qed.

(** Claim C4, amended.  When every event that arrives before the delay
    of the timer is a progress message or the opening of the connection,
    the promise is rejected with the timeout error of the function and
    the channel is closed (an event stream is [CLOSED], a socket has been
    told to close).  The delay is 120000 ms for image and edit jobs and
    for the socket wait, and 300000 ms for scene-code jobs.  A connection
    that fails before the delay rejects at once, with the error of the
    connection.  The socket wait does not time out once its socket has
    been closed from the other side: the timer finds it [CLOSED] and does
    nothing, and the promise stays pending. *)
Theorem wait_times_out (f : job) (pre post : list (N * event)) (t : N) :
  Forall (fun a => fst a < timeoutMs f /\ quiet (snd a) = true) pre ->
  (Forall (fun a => timeoutMs f <= fst a) post ->
   let final := runWait f (pre ++ post) in
   promise final = Rejected (timeoutText f) /\ inService final = false /\
   (f <> TaskResult -> ready final = CLOSED) /\
   settlements final = 1%nat /\ closings final = 1%nat) /\
  (t < timeoutMs f -> forall lost,
   promise (runWait f (pre ++ (t, ConnectionError lost) :: post))
   = Rejected (connectionErrorText f)) /\
  (t < timeoutMs f -> f = TaskResult ->
   let final := runWait f (pre ++ (t, SocketClosed) :: post) in
   promise final = Pending /\ ready final = CLOSED) /\
  timeoutMs ImageGeneration = 120000 /\ timeoutMs CodeEditing = 120000 /\
  timeoutMs CodeGeneration = 300000 /\ timeoutMs TaskResult = 120000.
Proof.
  intros Hpre.
  assert (Hpass : Forall (fun a => fst a < timeoutMs f /\
                                   passedOver f (snd a) = true) pre).
  { eapply List.Forall_impl; [|exact Hpre].
    intros a [H1 H2]. split; [exact H1 | apply quiet_passedOver, H2]. }
  split; [|split; [|split; [|repeat split; reflexivity]]].
  - intros Hpost final. unfold final, runWait.
    assert (Hq : Forall (fun a => fst a < timeoutMs f ->
                                  passedOver f (snd a) = true) (pre ++ post)).
    { apply Forall_app. split.
      - eapply List.Forall_impl; [|exact Hpass]. intros a [_ H] _; exact H.
      - eapply List.Forall_impl; [|exact Hpost]. intros a H1 H2.
        exfalso. apply N.lt_nge in H2. contradiction. }
    pose proof (quiet_deliverAll f _ _ (initWait_waiting f)
                  (quiet_early f _ Hq)) as Hw.
    destruct (timer_from_waiting f _ Hw) as (Hp & (Hfin & Hs & Hc & _) & Hk & Hr).
    match goal with |- context [deliverAll f ?l (fireTimer f ?s)] =>
      destruct (finished_deliverAll f l (fireTimer f s) Hfin) as [F (P & S' & C)];
      pose proof (closed_deliverAll f l (fireTimer f s)) as Hclosed
    end.
    split; [congruence|]. split; [apply F|].
    split; [|split; congruence].
    intros Hf.
    assert (Hes : channelOf f = EventSourceChannel) by (destruct f; simpl; congruence).
    rewrite Hes in Hk, Hr. apply Hclosed; assumption.
  - intros Ht lost. apply failed_run; assumption.
  - intros Ht -> final.
    destruct (stranded_run pre post t Hpass Ht) as (H1 & H2 & _). auto.
Qed.

Lemma wait_times_out_witness :
  promise (runWait ImageGeneration
             ([(1000, Named (js "start") noData)]
                ++ [(130000, Named (js "complete") (Json boom))]))
  = Rejected (timeoutText ImageGeneration).
Proof.
  refine (proj1 (proj1 (wait_times_out ImageGeneration
                          [(1000, Named (js "start") noData)]
                          [(130000, Named (js "complete") (Json boom))] 0 _) _)).
  - repeat constructor.
  - repeat constructor. discriminate.
Defined.

(** The counterexample to claim C4 as stated: a socket that opens and is
    closed from the other side after a second delivers no terminal
    message before the bound, and [waitForTaskResult] never rejects: when
    the timer fires, it finds the socket [CLOSED] and does nothing. *)
Lemma closed_socket_never_times_out :
  let final := runWait TaskResult [(10, Opened); (1000, SocketClosed)] in
  terminalMessage Opened = false /\ terminalMessage SocketClosed = false /\
  promise final = Pending /\ settleCalls final = 0%nat /\
  closeCalls final = 0%nat /\ timerArmed final = false.
Proof. vm_compute. repeat split. Qed.

(** Running one listener on a pending promise whose channel is in service. *)
Ltac run_pending st :=
  destruct st as [k pr s sc r c cc t]; unfold deliver, inService in *; simpl in *;
  subst pr; destruct r; try discriminate; destruct k; simpl; handlers; effsimpl;
  simpl.

(** Claim C5, amended.  On [waitForCodeGeneration] and
    [waitForTaskResult], a message whose status is [failed] or [error] and
    whose [message] is a non-empty string rejects a pending promise with
    exactly that text.  A message that does not parse rejects
    [waitForCodeGeneration] with the parse exception itself.  An event of
    type [error] of the three event-stream waits rejects with the [error]
    property of its data, with the default text of the function when that
    is missing or empty, and with the text [Unknown error in ...] when
    the data does not parse.  [waitForImageGeneration] and
    [waitForCodeEditing] do not react to an event of type [message],
    whatever its data and whatever the state of the wait. *)
Theorem failure_message_rejects (st : waitState) (p : payload) (m : jsstring) :
  promise st = Pending -> inService st = true ->
  statusIs p "failed" || statusIs p "error" = true ->
  message p = Some m -> m <> [] ->
  promise (deliver CodeGeneration st (Message (Json p))) = Rejected m /\
  promise (deliver TaskResult st (Message (Json p))) = Rejected m /\
  (forall exn, promise (deliver CodeGeneration st (Message (Unparsable exn)))
               = Rejected exn) /\
  (forall q, promise (deliver CodeGeneration st (Named (js "error") (Json q)))
             = Rejected (orElse (errorField q) (js "Error generating code"))) /\
  (forall q, promise (deliver ImageGeneration st (Named (js "error") (Json q)))
             = Rejected (orElse (errorField q) (js "Error generating image"))) /\
  (forall q, promise (deliver CodeEditing st (Named (js "error") (Json q)))
             = Rejected (orElse (errorField q) (js "Error editing code"))) /\
  (forall exn,
     promise (deliver CodeGeneration st (Named (js "error") (Unparsable exn)))
     = Rejected (js "Unknown error in code generation") /\
     promise (deliver ImageGeneration st (Named (js "error") (Unparsable exn)))
     = Rejected (js "Unknown error in image generation") /\
     promise (deliver CodeEditing st (Named (js "error") (Unparsable exn)))
     = Rejected (js "Unknown error in code editing")) /\
  (forall st' d, deliver ImageGeneration st' (Message d) = st' /\
                 deliver CodeEditing st' (Message d) = st').
Proof.
  intros Hp Hin Hst Hm Hne.
  pose proof (failure_not_completed p Hst) as Hnc.
  pose proof (orElse_nonempty _ _ (js "Error generating code") Hm Hne) as E1.
  pose proof (orElse_nonempty _ _ (js "Unknown error occurred") Hm Hne) as E2.
  split; [|split; [|split; [|split; [|split; [|split; [|split]]]]]];
    try (intros st' d; unfold deliver; cbn [listeners runListeners fold_left];
         destruct (inService st'); auto);
    repeat split; intros; run_pending st;
    rewrite ?Hnc, ?Hst, ?E1, ?E2; simpl; try reflexivity;
    destruct t; reflexivity.
Qed.

Lemma failure_message_rejects_witness :
  promise (deliver CodeGeneration (initWait CodeGeneration) (Message (Json boom)))
  = Rejected (js "boom").
Proof.
  refine (proj1 (failure_message_rejects (initWait CodeGeneration) boom (js "boom")
                   eq_refl eq_refl eq_refl eq_refl _)).
  discriminate.
Defined.

(** The counterexample to claim C5 as stated: the failed message with
    message [boom], delivered as an event of type [error], rejects
    [waitForCodeGeneration] with the default text; delivered as a plain
    message it does not reject the edit and image waits at all, which
    have no [onmessage]. *)
Lemma failure_message_not_relayed :
  message boom = Some (js "boom") /\ statusIs boom "failed" = true /\
  promise (deliver CodeGeneration (initWait CodeGeneration)
             (Named (js "error") (Json boom)))
  = Rejected (js "Error generating code") /\
  promise (deliver CodeEditing (initWait CodeEditing) (Message (Json boom)))
  = Pending /\
  promise (deliver ImageGeneration (initWait ImageGeneration) (Message (Json boom)))
  = Pending.
Proof. vm_compute. auto. Qed.

(** A message that does not parse is lost on [waitForTaskResult]: the
    exception escapes [onmessage], which has no [try]. *)
Lemma taskResult_unparsable_message_lost exn :
  deliver TaskResult (initWait TaskResult) (Message (Unparsable exn))
  = initWait TaskResult.
Proof. reflexivity. Qed.




(* ===================================================================== *)
(** ** The orchestrators *)
(* ===================================================================== *)

Lemma nonempty_length {A} (l : list A) : l <> [] -> (length l =? 0)%nat = false.
Proof. destruct l; [contradiction | reflexivity]. Qed.

Lemma filter_app_single {A} (f : A -> bool) l a :
  List.filter f (l ++ [a]) = List.filter f l ++ (if f a then [a] else []).
Proof. rewrite List.filter_app. reflexivity. Qed.

(** *** Effects that a piece of code does not have *)

Section Silent.
Context (keep : effect -> bool).

Lemma silent_ret {A} (a : A) : silent keep (mret a).
Proof. intros ed. reflexivity. Qed.

Lemma silent_throw {A} e : silent keep (@throw editor A e).
Proof. intros ed. reflexivity. Qed.

Lemma silent_call {A} (r : outcome A) : silent keep (call r).
Proof. intros ed; reflexivity. Qed.

Lemma silent_await st : silent keep (await st).
Proof. unfold await. destruct (promise st); intros ed; reflexivity. Qed.

Lemma silent_bind {A B} (m : Task A) (f : A -> Task B) :
  silent keep m -> (forall a, silent keep (f a)) -> silent keep (m ≫= f).
Proof.
  intros Hm Hf ed. specialize (Hm ed). unfold mbind, Eff_bind, effBind.
  destruct (m ed) as [[a | e |] ed']; cbn [fst snd] in *; try exact Hm.
  rewrite Hf. exact Hm.
Qed.

Lemma silent_tryCatch {A} (m : Task A) (h : error -> Task A) :
  silent keep m -> (forall e, silent keep (h e)) -> silent keep (tryCatch m h).
Proof.
  intros Hm Hh ed. specialize (Hm ed). unfold tryCatch.
  destruct (m ed) as [[a | e |] ed']; cbn [fst snd] in *; try exact Hm.
  rewrite Hh. exact Hm.
Qed.

Lemma silent_tryFinally {A} (m : Task A) (f : Task unit) :
  silent keep m -> silent keep f -> silent keep (tryFinally m f).
Proof.
  intros Hm Hf ed. specialize (Hm ed). unfold tryFinally.
  destruct (m ed) as [[a | e |] ed']; cbn [fst snd] in *; try exact Hm;
    specialize (Hf ed'); destruct (f ed') as [[[] | e' |] ed''];
    cbn [fst snd] in *; congruence.
Qed.

Lemma silent_emit e : keep e = false -> silent keep (emit e).
Proof.
  intros H ed. unfold emit, modifyState. cbn [fst snd trace].
  rewrite filter_app_single, H. apply app_nil_r.
Qed.

Lemma silent_createShape s :
  keep (CreateShape s) = false -> silent keep (createShape s).
Proof.
  intros H ed. unfold createShape, modifyState. cbn [fst snd trace].
  rewrite filter_app_single, H. apply app_nil_r.
Qed.

Lemma silent_deleteShape i :
  keep (DeleteShape i) = false -> silent keep (deleteShape i).
Proof.
  intros H ed. unfold deleteShape, modifyState. cbn [fst snd trace].
  rewrite filter_app_single, H. apply app_nil_r.
Qed.

Lemma silent_updateShape i patch :
  keep (UpdateShape i) = false -> silent keep (updateShape i patch).
Proof.
  intros H ed. unfold updateShape, modifyState. cbn [fst snd trace].
  rewrite filter_app_single, H. apply app_nil_r.
Qed.
End Silent.

Ltac silent_step :=
  first
    [ apply silent_ret | apply silent_throw | apply silent_call
    | apply silent_await
    | apply silent_emit; reflexivity
    | apply silent_deleteShape; reflexivity
    | apply silent_updateShape; reflexivity
    | apply silent_createShape; reflexivity
    | apply silent_bind; [|intros ?]
    | apply silent_tryCatch; [|intros ?]
    | apply silent_tryFinally
    | match goal with
      | |- silent _ (match ?x with _ => _ end) => destruct x
      end ].

Lemma submit_creates_nothing w i thinkingMode :
  silent isCreate (vibe3DCode_submit w i thinkingMode).
Proof.
  unfold vibe3DCode_submit, waitForTaskResult, waitForCodeGeneration, checkOk.
  repeat silent_step.
Qed.

(** The submit-and-wait chain sends exactly one request. *)
Lemma submit_fetches_once w i thinkingMode ed :
  length (List.filter isFetch (trace (snd (vibe3DCode_submit w i thinkingMode ed))))
  = S (length (List.filter isFetch (trace ed))).
Proof.
  unfold vibe3DCode_submit.
  destruct thinkingMode;
    match goal with
    | |- context [snd ((emit ?e ≫= ?k) ed)] =>
        change (snd ((emit e ≫= k) ed))
          with (snd (k tt (Editor (shapes ed) (trace ed ++ [e]))));
        assert (Hs : silent isFetch (k tt))
    end;
    try (unfold waitForTaskResult, waitForCodeGeneration, checkOk;
         repeat silent_step);
    rewrite Hs; cbn [trace]; rewrite filter_app_single, length_app;
    cbn [isFetch length]; lia.
Qed.

(** *** [vibe3DCode] *)

(** Up to the [try] block: with a selection that can be rasterized,
    [vibe3DCode] is its [try] block run on [afterRaster]. *)
Lemma vibe3DCode_rasterized (w : world) (shapeId : option TLShapeId)
    (thinkingMode : bool) (ed : editor) (b : bounds) (dataUrl : jsstring) :
  getSelectedShapes w <> [] ->
  getSelectionPageBounds w = Some b ->
  rasterOk w dataUrl ->
  vibe3DCode w shapeId thinkingMode ed
  = tryCatch (vibe3DCode_submit w (targetOf w shapeId) thinkingMode)
             (fun e => deleteShape (targetOf w shapeId);; throw e)
             (afterRaster w shapeId b ed).
Proof.
  intros Hsel Hb (svg & blob & Hsvg & Hblob & Hurl).
  unfold vibe3DCode, afterRaster, guides. rewrite (nonempty_length _ Hsel).
  destruct shapeId as [i|]; rewrite ?Hb;
    unfold call, emit, createShape, targetOf;
    unfold mbind, mret, Eff_bind, Eff_ret, effBind, effRet, modifyState;
    rewrite Hsvg; cbv beta iota; rewrite Hblob; cbv beta iota; rewrite Hurl;
    reflexivity.
Qed.

(** A submission that is answered with a non-OK status throws right after
    the request. *)
Lemma submit_non_ok (w : world) (i : TLShapeId) (thinkingMode : bool)
    (ed : editor) (resp : response) :
  fetch w (submitUrl thinkingMode) = Returned resp -> ok resp = false ->
  vibe3DCode_submit w i thinkingMode ed
  = (match json resp with
     | Returned errorData => Threw (apiError errorData resp)
     | Threw exn => Threw exn
     | Pends => Pends
     end,
     Editor (shapes ed) (trace ed ++ [Fetch (submitUrl thinkingMode)])).
Proof.
  intros Hfetch Hok. unfold vibe3DCode_submit, submitUrl in *.
  destruct thinkingMode;
    unfold call, checkOk, emit;
    unfold mbind, mret, Eff_bind, Eff_ret, effBind, effRet, modifyState, throw;
    rewrite Hfetch; cbv beta iota; rewrite Hok; destruct (json resp); reflexivity.
Qed.

Lemma afterRaster_opens_nothing w shapeId b ed :
  List.filter isOpen (trace (afterRaster w shapeId b ed))
  = List.filter isOpen (trace ed).
Proof.
  unfold afterRaster. destruct shapeId; cbn [trace];
    rewrite ?filter_app_single; cbn [isOpen]; rewrite ?app_nil_r; reflexivity.
Qed.

Lemma afterRaster_deletes_nothing w shapeId b ed :
  List.filter isDelete (trace (afterRaster w shapeId b ed))
  = List.filter isDelete (trace ed).
Proof.
  unfold afterRaster. destruct shapeId; cbn [trace];
    rewrite ?filter_app_single; cbn [isDelete]; rewrite ?app_nil_r; reflexivity.
Qed.

Lemma afterRaster_fetches_nothing w shapeId b ed :
  List.filter isFetch (trace (afterRaster w shapeId b ed))
  = List.filter isFetch (trace ed).
Proof.
  unfold afterRaster. destruct shapeId; cbn [trace];
    rewrite ?filter_app_single; cbn [isFetch]; rewrite ?app_nil_r; reflexivity.
Qed.

(** Claim C3, amended.  When the submission request of [vibe3DCode] is
    answered with a non-OK status and the body of the answer has been
    read, the call rejects before any notification channel is opened,
    after that single request, and the preview element (created or
    targeted) is deleted last.  The error is
    [API error: <detail or status text>] when the body of the answer is
    JSON, and otherwise the error with which reading the body failed.
    Reading the body is awaited without a time limit: as long as it does
    not end, the call does not end either, and nothing is opened or
    deleted. *)
Theorem non_ok_submission_rejects (w : world) (shapeId : option TLShapeId)
    (thinkingMode : bool) (ed : editor) (b : bounds) (dataUrl : jsstring)
    (resp : response) :
  getSelectedShapes w <> [] ->
  getSelectionPageBounds w = Some b ->
  rasterOk w dataUrl ->
  fetch w (submitUrl thinkingMode) = Returned resp ->
  ok resp = false ->
  let r := vibe3DCode w shapeId thinkingMode ed in
  fst r = match json resp with
          | Returned errorData => Threw (apiError errorData resp)
          | Threw exn => Threw exn
          | Pends => Pends
          end /\
  List.filter isOpen (trace (snd r)) = List.filter isOpen (trace ed) /\
  length (List.filter isFetch (trace (snd r)))
  = S (length (List.filter isFetch (trace ed))) /\
  (json resp <> Pends ->
   shapes (snd r) !! targetOf w shapeId = None /\
   last (trace (snd r)) = Some (DeleteShape (targetOf w shapeId))) /\
  (json resp = Pends ->
   List.filter isDelete (trace (snd r)) = List.filter isDelete (trace ed)).
Proof.
  intros Hsel Hb Hraster Hfetch Hok r. unfold r.
  rewrite (vibe3DCode_rasterized w shapeId thinkingMode ed b dataUrl Hsel Hb Hraster).
  unfold tryCatch. rewrite (submit_non_ok _ _ _ _ resp Hfetch Hok).
  pose proof (afterRaster_opens_nothing w shapeId b ed) as Ho.
  pose proof (afterRaster_fetches_nothing w shapeId b ed) as Hf.
  pose proof (afterRaster_deletes_nothing w shapeId b ed) as Hd.
  destruct (json resp) as [errorData | exn |];
    unfold mbind, Eff_bind, effBind, deleteShape, modifyState, throw;
    cbn [fst snd shapes trace];
    rewrite ?last_snoc, ?lookup_delete_eq, !filter_app_single;
    cbn [isOpen isFetch isDelete]; rewrite !app_nil_r, ?length_app, Ho, Hf;
    cbn [length]; repeat split; try reflexivity; try lia; try congruence;
    intros H; try discriminate H; try (exfalso; apply H; reflexivity).
Qed.

Lemma plainTextErrorWorld_rasterOk :
  rasterOk plainTextErrorWorld (js "data:image/png;base64,AAAA").
Proof. exists 0, (Some 0). repeat split. Qed.

Lemma jsonErrorWorld_rasterOk :
  rasterOk jsonErrorWorld (js "data:image/png;base64,AAAA").
Proof. exists 0, (Some 0). repeat split. Qed.

Lemma non_ok_submission_rejects_witness :
  fst (vibe3DCode jsonErrorWorld None false emptyEditor)
  = Threw (apiError (JsonBody (Some (js "bad image")) None None)
                    (Response false (js "Unprocessable Entity")
                       (Returned (JsonBody (Some (js "bad image")) None None)))).
Proof.
  refine (proj1 (non_ok_submission_rejects jsonErrorWorld None false emptyEditor
                   sampleBounds (js "data:image/png;base64,AAAA") _
                   _ eq_refl jsonErrorWorld_rasterOk eq_refl eq_refl)).
  discriminate.
Defined.

(** The counterexample to claim C3 as stated: a non-OK answer whose body
    is plain text makes [vibe3DCode] reject with the error of reading the
    body, which is not an [API error]. *)
Lemma non_ok_plain_text_is_not_api_error :
  ok (Response false (js "Internal Server Error")
        (Threw (js "SyntaxError: Unexpected token 'I'"))) = false /\
  fetch plainTextErrorWorld queue3dUrl
  = Returned (Response false (js "Internal Server Error")
                (Threw (js "SyntaxError: Unexpected token 'I'"))) /\
  fst (vibe3DCode plainTextErrorWorld None false emptyEditor)
  = Threw (js "SyntaxError: Unexpected token 'I'") /\
  stripPrefix (js "API error") (js "SyntaxError: Unexpected token 'I'") = None.
Proof. vm_compute. repeat split. Qed.




(** The failure policy inside the [try] block: once the selection has been
    rasterized, an error of the submit-and-wait chain deletes the preview
    element and reaches the caller unchanged, after a single request. *)
Lemma vibe3DCode_failure_policy (w : world) (shapeId : option TLShapeId)
    (thinkingMode : bool) (ed : editor) (b : bounds) (dataUrl : jsstring)
    (e : error) :
  getSelectedShapes w <> [] ->
  getSelectionPageBounds w = Some b ->
  rasterOk w dataUrl ->
  let r := vibe3DCode w shapeId thinkingMode ed in
  fst r = Threw e ->
  fst (vibe3DCode_submit w (targetOf w shapeId) thinkingMode
         (afterRaster w shapeId b ed)) = Threw e /\
  shapes (snd r) !! targetOf w shapeId = None /\
  last (trace (snd r)) = Some (DeleteShape (targetOf w shapeId)) /\
  length (List.filter isFetch (trace (snd r)))
  = S (length (List.filter isFetch (trace ed))).
Proof.
  intros Hsel Hb Hraster r. unfold r.
  rewrite (vibe3DCode_rasterized w shapeId thinkingMode ed b dataUrl Hsel Hb Hraster).
  unfold tryCatch.
  pose proof (submit_fetches_once w (targetOf w shapeId) thinkingMode
                (afterRaster w shapeId b ed)) as Hf.
  destruct (vibe3DCode_submit w (targetOf w shapeId) thinkingMode
              (afterRaster w shapeId b ed)) as [[[] | e' |] ed2];
    cbn [fst snd] in *; try discriminate.
  unfold mbind, Eff_bind, effBind, deleteShape, modifyState, throw.
  cbn [fst snd shapes trace]. intros He.
  rewrite last_snoc, lookup_delete_eq, filter_app_single.
  cbn [isFetch]. rewrite app_nil_r, Hf, afterRaster_fetches_nothing.
  repeat split; assumption || reflexivity.
Qed.

(** Claim C2, the code at two inputs where it departs from the claim: an
    error of the rasterize stage reaches the caller while the empty
    preview element that was just created stays on the canvas, and a
    selection of preview elements only makes the call return without an
    error, again leaving the empty preview element. *)
Lemma vibe3DCode_raster_failure_leaves_placeholder :
  (let r := vibe3DCode noImageWorld None false emptyEditor in
   fst r = Threw (js "TypeError: parameter 1 is not of type 'Blob'") /\
   shapes (snd r) !! 7 = Some (previewShape 7 sampleBounds [drawing]) /\
   threeJsCode (props (previewShape 7 sampleBounds [drawing])) = Some [] /\
   List.filter isDelete (trace (snd r)) = []) /\
  (let r := vibe3DCode onlyModelWorld None false emptyEditor in
   fst r = Returned tt /\
   shapes (snd r) !! 7 = Some (previewShape 7 sampleBounds [model]) /\
   List.filter isDelete (trace (snd r)) = []).
Proof. vm_compute. repeat split. Qed.

(** *** [edit3DCode] *)

Lemma invalidCode_test c :
  invalidCode c ->
  negb (truthy c) || (length (orElse c []) <? 10)%nat = true.
Proof.
  intros [-> | (s & -> & H)]; [reflexivity|].
  destruct s as [|x s]; [reflexivity|]. simpl orElse. simpl truthy. simpl negb.
  apply Nat.ltb_lt. exact H.
Qed.

(** An error of the validation passes through the [catch] and the
    [finally] of [edit3DCode], which only call [setIsEditing]. *)
Lemma edit3DCode_wrap (w : world) (cb : bool) (ed : editor) (e : error) :
  (forall ed', edit3DCode_body w ed' = (Threw e, ed')) ->
  fst (edit3DCode w cb ed) = Threw e /\ untouched ed (snd (edit3DCode w cb ed)).
Proof.
  intros H. unfold edit3DCode, untouched. destruct ed as [sh tr].
  unfold mbind, mret, Eff_bind, Eff_ret, effBind, effRet, tryFinally, tryCatch,
         emit, modifyState, throw.
  destruct cb; rewrite H; cbn [fst snd shapes trace]; [|auto].
  rewrite !filter_app_single. cbn [isWork]. rewrite !app_nil_r. auto.
Qed.

(** Claim C10.  [edit3DCode] checks its selection before any export or
    network work and throws an error with its own message in each case:
    no selection; no [model3d] element; more than one [model3d] element;
    no guiding element; code of the model absent or shorter than 10.  In
    each case no shape is changed and nothing is exported, fetched or
    opened. *)
Theorem edit3DCode_validates_first (w : world) (cb : bool) (ed : editor) :
  let r := edit3DCode w cb ed in
  (getSelectedShapes w = [] ->
   fst r = Threw (js "First select shapes for editing.") /\ untouched ed (snd r)) /\
  (getSelectedShapes w <> [] -> models w = [] ->
   fst r = Threw (js "First select a 3D model to edit.") /\ untouched ed (snd r)) /\
  (forall m1 m2 ms, models w = m1 :: m2 :: ms ->
   fst r = Threw (js "Select only one 3D model at a time.") /\
   untouched ed (snd r)) /\
  (forall m, models w = [m] -> guides w = [] ->
   fst r = Threw (js "Select at least one drawing or shape to guide the editing.")
   /\ untouched ed (snd r)) /\
  (forall m, models w = [m] -> guides w <> [] ->
   invalidCode (threeJsCode (props m)) ->
   fst r = Threw (js "The selected 3D model does not contain valid code.") /\
   untouched ed (snd r)) /\
  NoDup [js "First select shapes for editing.";
         js "First select a 3D model to edit.";
         js "Select only one 3D model at a time.";
         js "Select at least one drawing or shape to guide the editing.";
         js "The selected 3D model does not contain valid code."].
Proof.
  intros r. unfold r, models, guides.
  split; [|split; [|split; [|split; [|split]]]].
  - intros Hsel. apply edit3DCode_wrap. intros ed'.
    unfold edit3DCode_body. rewrite Hsel. reflexivity.
  - intros Hsel Hm. apply edit3DCode_wrap. intros ed'.
    unfold edit3DCode_body. rewrite (nonempty_length _ Hsel), Hm. reflexivity.
  - intros m1 m2 ms Hm. apply edit3DCode_wrap. intros ed'.
    unfold edit3DCode_body. rewrite Hm.
    destruct (getSelectedShapes w); [discriminate|]. reflexivity.
  - intros m Hm Hg. apply edit3DCode_wrap. intros ed'.
    unfold edit3DCode_body. rewrite Hm, Hg.
    destruct (getSelectedShapes w); [discriminate|]. reflexivity.
  - intros m Hm Hg Hc. apply edit3DCode_wrap. intros ed'.
    unfold edit3DCode_body. rewrite Hm, (nonempty_length _ Hg).
    rewrite (invalidCode_test _ Hc).
    destruct (getSelectedShapes w); [discriminate|]. reflexivity.
  - apply (bool_decide_unpack _). vm_compute. reflexivity.
Qed.

Lemma edit3DCode_validates_first_witness :
  fst (edit3DCode noImageWorld true emptyEditor)
  = Threw (js "First select a 3D model to edit.") /\
  untouched emptyEditor (snd (edit3DCode noImageWorld true emptyEditor)).
Proof.
  refine (proj1 (proj2 (edit3DCode_validates_first noImageWorld true emptyEditor))
            _ eq_refl).
  discriminate.
Defined.

(* ===================================================================== *)
(** ** Properties of the wait functions beyond the claims *)
(* ===================================================================== *)

(** X1.  The three waits on an event stream ([waitForImageGeneration],
    [waitForCodeGeneration], [waitForCodeEditing]) always settle: whatever
    arrives on the channel, in whatever order and at whatever time, the
    promise is settled and the stream is [CLOSED] once the delay of the
    timer has passed. *)
Theorem event_stream_wait_always_settles (f : job) (arrivals : list (N * event)) :
  channelOf f = EventSourceChannel ->
  let final := runWait f arrivals in
  promise final <> Pending /\ ready final = CLOSED /\ inService final = false.
Proof.
  intros Hf final.
  destruct (sse_runWait_over f arrivals Hf) as (_ & Hp & Hin & Hc).
  auto.
Qed.

Lemma event_stream_wait_always_settles_witness :
  promise (runWait CodeEditing [(5, Message (Json sceneDone)); (7, Opened)])
  <> Pending.
Proof.
  exact (proj1 (event_stream_wait_always_settles CodeEditing
                  [(5, Message (Json sceneDone)); (7, Opened)] eq_refl)).
Defined.

(** X2.  A wait never settles its promise and keeps its channel: at every
    point of every run of any of the four wait functions, before the
    timer and after it, the promise is still pending or the channel is out
    of service. *)
Theorem settled_wait_has_released_channel (f : job) (evs : list event)
    (arrivals : list (N * event)) :
  let st := deliverAll f evs (initWait f) in
  let final := runWait f arrivals in
  (promise st = Pending \/ inService st = false) /\
  (promise final = Pending \/ inService final = false).
Proof.
  intros st final. split.
  - destruct (phase_deliverAll f evs _ (or_introl (initWait_running f)))
      as [H | [H | H]].
    + left. apply H.
    + right. apply H.
    + left. apply H.
  - destruct (runWait_ends f arrivals) as [H | H].
    + right. apply H.
    + left. apply H.
Qed.

(** X3.  A failing connection ends a wait that is still going, whether
    the connection is retried or given up.  On an event stream the
    rejection carries the text [Unknown error in ...] of the listener for
    [error] events, which runs first and finds no data, and not the text
    of [onerror]; on the socket it carries
    [Error with WebSocket connection].  The promise is settled once and
    the channel is out of service afterwards.  [reject] and [close()] are
    called twice on an event stream and once on the socket; when the
    connection was given up, and on a socket always, the channel is
    already [CLOSED] when the listeners run and none of these calls of
    [close()] closes anything.  The image and edit waits clear their
    timer. *)
Theorem connection_error_rejects (f : job) (st : waitState) (lost : bool) :
  waiting f st ->
  let st' := deliver f st (ConnectionError lost) in
  let calls := match f with TaskResult => 1%nat | _ => 2%nat end in
  promise st' = Rejected (connectionErrorText f) /\
  settlements st' = 1%nat /\ inService st' = false /\
  settleCalls st' = calls /\ closeCalls st' = calls /\
  closings st' = match failedState (channelOf f) lost with
                 | CLOSED => 0%nat
                 | _ => 1%nat
                 end /\
  (channelOf f = EventSourceChannel -> ready st' = CLOSED) /\
  (f = ImageGeneration \/ f = CodeEditing -> timerArmed st' = false).
Proof.
  intros Hw st' calls.
  destruct (error_from_waiting f st lost Hw)
    as (Hp & (_ & Hin) & Hs & Hc & Hsc & Hcc & Hr & Ht).
  repeat split; assumption.
Qed.

Lemma connection_error_rejects_witness :
  promise (deliver CodeGeneration (initWait CodeGeneration) (ConnectionError true))
  = Rejected (js "Unknown error in code generation") /\
  closings (deliver CodeGeneration (initWait CodeGeneration) (ConnectionError true))
  = 0%nat.
Proof.
  pose proof (connection_error_rejects CodeGeneration (initWait CodeGeneration)
                true (initWait_waiting CodeGeneration)) as H.
  split; [exact (proj1 H) | exact (proj1 (proj2 (proj2 (proj2 (proj2 (proj2 H))))))].
Defined.

(** X4.  [waitForTaskResult] can be left pending for ever: when the socket
    is closed from the other side before a terminal message has arrived,
    the handler of [close] only logs, no further message is delivered and
    the timer, finding the socket [CLOSED], does nothing.  Neither
    [resolve] nor [reject] is ever called. *)
Theorem socket_closure_strands_task (pre post : list (N * event)) (t : N) :
  Forall (fun a => fst a < timeoutMs TaskResult /\
                   passedOver TaskResult (snd a) = true) pre ->
  t < timeoutMs TaskResult ->
  let final := runWait TaskResult (pre ++ (t, SocketClosed) :: post) in
  promise final = Pending /\ ready final = CLOSED /\
  settleCalls final = 0%nat /\ closeCalls final = 0%nat.
Proof. exact (stranded_run pre post t). Qed.

Lemma socket_closure_strands_task_witness :
  promise (runWait TaskResult
             ([(10, Opened)] ++ (2000, SocketClosed)
                :: [(3000, Message (Json sceneDone))]))
  = Pending.
Proof.
  refine (proj1 (socket_closure_strands_task [(10, Opened)]
                   [(3000, Message (Json sceneDone))] 2000 _ eq_refl)).
  repeat constructor.
Defined.

(** X5.  A [complete] event whose data is not JSON ends each of the three
    waits on an event stream: the promise is rejected with the exception
    of [JSON.parse] itself and the stream is closed. *)
Theorem unparsable_completion_rejects (st : waitState) (exn : error) :
  promise st = Pending -> inService st = true ->
  let bad := Named (js "complete") (Unparsable exn) in
  (promise (deliver CodeGeneration st bad) = Rejected exn /\
   inService (deliver CodeGeneration st bad) = false) /\
  (promise (deliver ImageGeneration st bad) = Rejected exn /\
   inService (deliver ImageGeneration st bad) = false) /\
  (promise (deliver CodeEditing st bad) = Rejected exn /\
   inService (deliver CodeEditing st bad) = false).
Proof.
  intros Hp Hin bad. unfold bad.
  repeat split; run_pending st; try reflexivity; destruct t; reflexivity.
Qed.

Lemma unparsable_completion_rejects_witness :
  promise (deliver CodeGeneration (initWait CodeGeneration)
             (Named (js "complete") (Unparsable (js "SyntaxError"))))
  = Rejected (js "SyntaxError").
Proof.
  exact (proj1 (proj1 (unparsable_completion_rejects (initWait CodeGeneration)
                         (js "SyntaxError") eq_refl eq_refl))).
Defined.

(* ===================================================================== *)
(** ** The sanitizer: lengths *)
(* ===================================================================== *)

Section ReplaceLength.
Context (r : re) (by_ : jsstring).
Hypothesis long_match :
  forall prev s cap rest,
    exec r prev s = Some (cap, rest) -> (length by_ <= length s - length rest)%nat.

(** A replacement that is no longer than any match does not lengthen the
    text. *)
Lemma replaceLoop_length s :
  forall prev skip,
    (length (replaceLoop r by_ prev s skip) + Nat.min skip (length s)
     <= length s)%nat.
Proof.
  induction s as [|c s IH]; intros prev [|n].
  - rewrite replaceLoop_eq.
    destruct (exec r prev []) as [[cap rest]|] eqn:E; [|simpl; lia].
    apply long_match in E. simpl in E.
    destruct (length [] - length rest)%nat; simpl; lia.
  - simpl. lia.
  - rewrite replaceLoop_eq.
    destruct (exec r prev (c :: s)) as [[cap rest]|] eqn:E.
    + apply long_match in E.
      destruct (length (c :: s) - length rest)%nat as [|n] eqn:En.
      * rewrite length_app. simpl. specialize (IH (Some c) 0%nat). lia.
      * rewrite length_app. specialize (IH (Some c) n). simpl in *. lia.
    + simpl. specialize (IH (Some c) 0%nat). lia.
  - simpl. specialize (IH (Some c) n). lia.
Qed.

Lemma jsReplaceAll_length s : (length (jsReplaceAll s r by_) <= length s)%nat.
Proof.
  unfold jsReplaceAll. pose proof (replaceLoop_length s None 0). lia.
Qed.
End ReplaceLength.

Lemma jsReplaceAll_empty_length r s :
  (length (jsReplaceAll s r []) <= length s)%nat.
Proof. apply jsReplaceAll_length. intros. simpl. lia. Qed.

Lemma exec_Lit l prev s cap rest :
  exec (Lit l) prev s = Some (cap, rest) -> s = l ++ rest.
Proof.
  intros E. apply exec_sound in E as (w & -> & Hm). minv1 Hm. reflexivity.
Qed.

Lemma orbitName_length s :
  (length (jsReplaceAll s orbitNamePattern (js "OrbitControls")) <= length s)%nat.
Proof.
  apply jsReplaceAll_length. intros prev t cap rest E.
  apply exec_Lit in E. subst t. rewrite length_app.
  change (length (js "THREE.OrbitControls")) with 19%nat.
  change (length (js "OrbitControls")) with 13%nat. lia.
Qed.

Lemma stripModuleSyntax_length s :
  (length (stripModuleSyntax s) <= length s)%nat.
Proof.
  unfold stripModuleSyntax.
  repeat match goal with
  | |- (length (jsReplaceAll ?t ?r []) <= _)%nat =>
      etransitivity; [apply (jsReplaceAll_empty_length r t)|]
  | |- (length (jsReplaceAll ?t orbitNamePattern _) <= _)%nat =>
      etransitivity; [apply (orbitName_length t)|]
  end.
  reflexivity.
Qed.

(** The text the cascade takes is a contiguous part of the input. *)
Lemma extractCode_inside code : occursIn (snd (extractCode code)) code.
Proof.
  unfold extractCode. fold (found code jsPattern).
  fold (found code codePattern). fold (found code scriptPattern).
  destruct (found code jsPattern) as [g|] eqn:E1.
  { apply (found_block _ _ jsPattern_reads) in E1
      as (_ & pre & post & (ws & -> & _) & _).
    exists (pre ++ js "```javascript" ++ ws ++ [nl]), (js "```" ++ post).
    simpl snd. rewrite <- !app_assoc. reflexivity. }
  destruct (found code codePattern) as [g|] eqn:E2.
  { apply (found_block _ _ codePattern_reads) in E2
      as (_ & pre & post & (word & ws & -> & _) & _).
    exists (pre ++ js "```" ++ word ++ ws ++ [nl]), (js "```" ++ post).
    simpl snd. rewrite <- !app_assoc. reflexivity. }
  destruct (found code scriptPattern) as [g|] eqn:E3.
  { apply (found_block _ _ scriptPattern_reads) in E3
      as (_ & pre & post & (attrs & -> & _) & _).
    exists (pre ++ js "<script" ++ attrs ++ js ">"), (js "</script>" ++ post).
    simpl snd. rewrite <- !app_assoc. reflexivity. }
  exists [], []. simpl. rewrite app_nil_r. reflexivity.
Qed.

Lemma occursIn_length l s : occursIn l s -> (length l <= length s)%nat.
Proof. intros (pre & post & ->). rewrite !length_app. lia. Qed.

(** The sanitizer never lengthens a text. *)
Lemma processThreeJsCode_length code :
  (length (processThreeJsCode code) <= length code)%nat.
Proof.
  unfold processThreeJsCode.
  etransitivity; [apply stripModuleSyntax_length|].
  apply occursIn_length, extractCode_inside.
Qed.

(* ===================================================================== *)
(** ** The sanitizer: further lines and names *)
(* ===================================================================== *)

Lemma requirePattern_ends_line prev s cap rest :
  exec requirePattern prev s = Some (cap, rest) -> atLineEnd rest = true.
Proof.
  intros E. apply exec_sound in E as (w & _ & Hm).
  unfold requirePattern, Plus in Hm. minv. assumption.
Qed.

Lemma importBare_ends_line prev s cap rest :
  exec importBarePattern prev s = Some (cap, rest) -> atLineEnd rest = true.
Proof.
  intros E. apply exec_sound in E as (w & _ & Hm).
  unfold importBarePattern, Plus in Hm. minv. assumption.
Qed.

Lemma noLineTerminator_app (a b : jsstring) :
  noLineTerminator (a ++ b) <-> noLineTerminator a /\ noLineTerminator b.
Proof. unfold noLineTerminator. apply Forall_app. Qed.

Lemma requirePattern_takes_line l post prev :
  requireLine l -> atLineEnd post = true -> atLineStart prev = true ->
  exec requirePattern prev (l ++ post) <> None.
Proof.
  intros (ws1 & name & ws2 & ws3 & q1 & module & q2 & semi & ws4 & Hl & Hn1 & Hs1
          & Hs2 & Hs3 & Hq1 & Hq2 & Hsemi & Hs4 & Hline) Hend Hstart.
  destruct ws1 as [|c1 ws1]; [contradiction|].
  assert (Hparts : noLineTerminator name /\ noLineTerminator module).
  { rewrite Hl in Hline. rewrite !noLineTerminator_app in Hline. tauto. }
  destruct Hparts as [Hname Hmod].
  apply (exec_complete requirePattern prev l post None).
  replace l with
    ([] ++ js "const" ++ ([c1] ++ ws1) ++ name ++ ws2 ++ js "=" ++ ws3
     ++ js "require(" ++ [q1] ++ module ++ [q2] ++ js ")" ++ semi ++ ws4 ++ [])
    by (rewrite Hl, app_nil_r; reflexivity).
  inversion Hs1; subst.
  unfold requirePattern, Plus.
  eapply MSeq; [apply MBol, Hstart|].
  eapply MSeq; [apply MLit|].
  eapply MSeq; [eapply MSeq; [apply MCls; assumption|apply MStar; assumption]|].
  eapply MSeq; [apply MStarLazy, dot_matches, Hname|].
  eapply MSeq; [apply MStar, Hs2|].
  eapply MSeq; [apply MLit|].
  eapply MSeq; [apply MStar, Hs3|].
  eapply MSeq; [apply MLit|].
  eapply MSeq; [apply MCls, quote_matches, Hq1|].
  eapply MSeq; [apply MStarLazy, dot_matches, Hmod|].
  eapply MSeq; [apply MCls, quote_matches, Hq2|].
  eapply MSeq; [apply MLit|].
  eapply MSeq; [destruct Hsemi as [-> | ->]; [apply MOptNone|apply MOptSome, MLit]|].
  eapply MSeq; [apply MStar, Hs4|].
  apply MEol, Hend.
Qed.

Lemma importBare_takes_line l post prev :
  bareImportLine l -> atLineEnd post = true -> atLineStart prev = true ->
  exec importBarePattern prev (l ++ post) <> None.
Proof.
  intros (ws1 & q1 & module & q2 & semi & ws2 & Hl & Hn1 & Hs1 & Hq1 & Hq2
          & Hsemi & Hs2 & Hline) Hend Hstart.
  destruct ws1 as [|c1 ws1]; [contradiction|].
  assert (Hmod : noLineTerminator module).
  { rewrite Hl in Hline. rewrite !noLineTerminator_app in Hline. tauto. }
  apply (exec_complete importBarePattern prev l post None).
  replace l with
    ([] ++ js "import" ++ ([c1] ++ ws1) ++ [q1] ++ module ++ [q2] ++ semi
     ++ ws2 ++ [])
    by (rewrite Hl, app_nil_r; reflexivity).
  inversion Hs1; subst.
  unfold importBarePattern, Plus.
  eapply MSeq; [apply MBol, Hstart|].
  eapply MSeq; [apply MLit|].
  eapply MSeq; [eapply MSeq; [apply MCls; assumption|apply MStar; assumption]|].
  eapply MSeq; [apply MCls, quote_matches, Hq1|].
  eapply MSeq; [apply MStarLazy, dot_matches, Hmod|].
  eapply MSeq; [apply MCls, quote_matches, Hq2|].
  eapply MSeq; [destruct Hsemi as [-> | ->]; [apply MOptNone|apply MOptSome, MLit]|].
  eapply MSeq; [apply MStar, Hs2|].
  apply MEol, Hend.
Qed.

Lemma exec_Lit_eq l prev s :
  exec (Lit l) prev s
  = match stripPrefix l s with
    | Some s' => Some (None, s')
    | None => None
    end.
Proof. reflexivity. Qed.

Lemma replaceLoop_Lit_prev l by_ s :
  forall prev prev' skip,
    replaceLoop (Lit l) by_ prev s skip = replaceLoop (Lit l) by_ prev' s skip.
Proof.
  destruct s as [|c s]; intros prev prev' [|n]; reflexivity.
Qed.

Lemma replaceLoop_skip r by_ (w s : jsstring) :
  forall prev,
    replaceLoop r by_ prev (w ++ s) (length w)
    = replaceLoop r by_ (lastOr prev w) s 0.
Proof.
  induction w as [|c w IH]; intros prev; [reflexivity|].
  simpl. rewrite IH, lastOr_cons. reflexivity.
Qed.

(** An occurrence of [l0 ++ [x]] that starts inside [pre] lies within
    [pre ++ l0]. *)
Lemma early_occurrence (l0 : jsstring) (x : N) (pre post s' : jsstring) :
  pre <> [] -> pre ++ (l0 ++ [x]) ++ post = (l0 ++ [x]) ++ s' ->
  occursIn (l0 ++ [x]) (pre ++ l0).
Proof.
  intros Hpre He.
  assert (Hlen : (length (l0 ++ [x]) <= length (pre ++ l0))%nat).
  { rewrite !length_app. simpl. destruct pre; [contradiction|]. simpl. lia. }
  assert (Ht : take (length (l0 ++ [x])) (pre ++ l0) = l0 ++ [x]).
  { rewrite <- (take_app_le (pre ++ l0) ([x] ++ post)) by exact Hlen.
    replace ((pre ++ l0) ++ [x] ++ post) with (pre ++ (l0 ++ [x]) ++ post)
      by (rewrite <- !app_assoc; reflexivity).
    rewrite He. apply take_app_length. }
  exists [], (drop (length (l0 ++ [x])) (pre ++ l0)).
  pose proof (take_drop (length (l0 ++ [x])) (pre ++ l0)) as Htd.
  rewrite Ht in Htd. simpl. symmetry. exact Htd.
Qed.

Lemma lit_rewrites_first (l0 : jsstring) (x : N) (by_ post : jsstring) :
  forall pre prev,
    ~ occursIn (l0 ++ [x]) (pre ++ l0) ->
    replaceLoop (Lit (l0 ++ [x])) by_ prev (pre ++ (l0 ++ [x]) ++ post) 0
    = pre ++ by_ ++ replaceLoop (Lit (l0 ++ [x])) by_ None post 0.
Proof.
  induction pre as [|c pre IH]; intros prev Hno.
  - rewrite replaceLoop_eq, exec_Lit_eq.
    rewrite !app_nil_l, stripPrefix_app.
    assert (E : (length ((l0 ++ [x]) ++ post) - length post)%nat = S (length l0))
      by (rewrite !length_app; simpl; lia).
    rewrite E. clear E.
    destruct l0 as [|c l0].
    + simpl. f_equal. apply replaceLoop_Lit_prev.
    + change (((c :: l0) ++ [x]) ++ post) with (c :: (l0 ++ [x]) ++ post).
      cbv beta iota. f_equal.
      replace (length (c :: l0)) with (length (l0 ++ [x]))
        by (rewrite length_app; simpl; lia).
      rewrite replaceLoop_skip. apply replaceLoop_Lit_prev.
  - rewrite replaceLoop_eq, exec_Lit_eq.
    destruct (stripPrefix (l0 ++ [x]) ((c :: pre) ++ (l0 ++ [x]) ++ post))
      as [s'|] eqn:E.
    + exfalso. apply Hno. apply stripPrefix_Some in E.
      eapply early_occurrence; [discriminate|exact E].
    + simpl. f_equal. apply IH. intros (p & q & Hpq). apply Hno.
      exists (c :: p), q. simpl. rewrite Hpq. reflexivity.
Qed.

Lemma occursIn_part (l a b c : jsstring) :
  occursIn l c -> occursIn l (a ++ b ++ c).
Proof.
  intros (p & q & ->). exists (a ++ b ++ p), q.
  rewrite <- !app_assoc. reflexivity.
Qed.

(** On a text without fences, script tags, imports and [const], the
    sanitizer is its last replace. *)
Lemma processThreeJsCode_plain code :
  ~ occursIn (js "```") code -> ~ occursIn (js "<script") code ->
  ~ occursIn (js "import") code -> ~ occursIn (js "const") code ->
  processThreeJsCode code
  = jsReplaceAll code orbitNamePattern (js "OrbitControls").
Proof.
  intros Hf Hs Hi Hc.
  assert (He : extractCode code = (FromRawText, code)).
  { unfold extractCode.
    rewrite (jsMatchRe_absent _ _ _ jsPattern_starts Hf),
            (jsMatchRe_absent _ _ _ codePattern_starts Hf),
            (jsMatchRe_absent _ _ _ scriptPattern_starts Hs). reflexivity. }
  unfold processThreeJsCode. rewrite He. unfold stripModuleSyntax. simpl snd.
  rewrite (jsReplaceAll_absent _ _ _ _ importFromPattern_starts Hi),
          (jsReplaceAll_absent _ _ _ _ importStarAsPattern_starts Hi),
          (jsReplaceAll_absent _ _ _ _ importBarePattern_starts Hi),
          (jsReplaceAll_absent _ _ _ _ requirePattern_starts Hc),
          (jsReplaceAll_absent _ _ _ _ threeStarPattern_starts Hi),
          (jsReplaceAll_absent _ _ _ _ orbitImportPattern_starts Hi),
          (jsReplaceAll_absent _ _ _ _ threeNamedPattern_starts Hi),
          (jsReplaceAll_absent _ _ _ _ threeDefaultPattern_starts Hi).
  reflexivity.
Qed.

(* ===================================================================== *)
(** ** The sanitizer as a deletion *)
(* ===================================================================== *)

Lemma kept_nil_r (s : jsstring) : kept s [] = [].
Proof. destruct s; reflexivity. Qed.

Lemma kept_thenMask (s : jsstring) :
  forall m1 m2, kept (kept s m1) m2 = kept s (thenMask m1 m2).
Proof.
  induction s as [|c s IH]; intros [|[|] m1] m2; try reflexivity.
  - destruct m2 as [|b m2]; simpl.
    + rewrite <- IH, kept_nil_r. reflexivity.
    + rewrite IH. reflexivity.
  - simpl. apply IH.
Qed.

Lemma length_thenMask m1 : forall m2, length (thenMask m1 m2) = length m1.
Proof.
  induction m1 as [|[|] m1 IH]; intros m2; simpl; [reflexivity| |].
  - destruct m2; simpl; rewrite IH; reflexivity.
  - rewrite IH. reflexivity.
Qed.

(** What one round deletes stays deleted. *)
Lemma thenMask_false m1 :
  forall m2 i, m1 !! i = Some false -> thenMask m1 m2 !! i = Some false.
Proof.
  induction m1 as [|b m1 IH]; intros m2 [|i] H; try discriminate.
  - simpl in H. injection H as ->. reflexivity.
  - simpl in H. destruct b; simpl; [destruct m2|]; simpl; apply IH, H.
Qed.

Lemma length_keepMask r s :
  forall prev skip, length (keepMask r prev s skip) = length s.
Proof.
  induction s as [|c s IH]; intros prev [|n].
  - rewrite keepMask_eq. destruct (exec r prev []) as [[cap rest]|]; [|reflexivity].
    destruct (length [] - length rest)%nat; reflexivity.
  - reflexivity.
  - rewrite keepMask_eq.
    destruct (exec r prev (c :: s)) as [[cap rest]|].
    + destruct (length (c :: s) - length rest)%nat; simpl; rewrite IH; reflexivity.
    + simpl. rewrite IH. reflexivity.
  - simpl. rewrite IH. reflexivity.
Qed.

Lemma length_orbitMask s :
  forall d k, length (orbitMask s d k) = length s.
Proof.
  induction s as [|c s IH]; intros d k; [reflexivity|].
  cbn [orbitMask]. destruct d as [|d]; [destruct k as [|k]|].
  - destruct (stripPrefix _ _); simpl; rewrite IH; reflexivity.
  - simpl. rewrite IH. reflexivity.
  - simpl. rewrite IH. reflexivity.
Qed.

Lemma orbitName_spelled :
  js "THREE.OrbitControls"
  = [84; 72; 82; 69; 69; 46; 79; 114; 98; 105; 116; 67; 111; 110; 116; 114; 111;
     108; 115].
Proof. reflexivity. Qed.

Lemma orbitMask_eq s :
  orbitMask s 0 0
  = match s with
    | [] => []
    | _ :: s' =>
        match stripPrefix (js "THREE.OrbitControls") s with
        | Some _ => false :: orbitMask s' 5 13
        | None => true :: orbitMask s' 0 0
        end
    end.
Proof. destruct s; reflexivity. Qed.

(** On an occurrence of the name the mask drops [THREE.] and keeps
    [OrbitControls]. *)
Lemma orbitMask_occurrence rest :
  kept (js "THREE.OrbitControls" ++ rest)
       (orbitMask (js "THREE.OrbitControls" ++ rest) 0 0)
  = js "OrbitControls" ++ kept rest (orbitMask rest 0 0).
Proof.
  rewrite orbitMask_eq, stripPrefix_app. rewrite orbitName_spelled. reflexivity.
Qed.

(** The last replace, too, only deletes. *)
Lemma orbitName_kept (n : nat) :
  forall s prev, (length s <= n)%nat ->
    replaceLoop orbitNamePattern (js "OrbitControls") prev s 0
    = kept s (orbitMask s 0 0).
Proof.
  induction n as [|n IH]; intros s prev Hn.
  - destruct s; [|simpl in Hn; lia].
    rewrite replaceLoop_eq. unfold orbitNamePattern. rewrite exec_Lit_eq.
    reflexivity.
  - destruct s as [|c s].
    { rewrite replaceLoop_eq. unfold orbitNamePattern. rewrite exec_Lit_eq.
      reflexivity. }
    rewrite replaceLoop_eq. unfold orbitNamePattern at 1. rewrite exec_Lit_eq.
    destruct (stripPrefix (js "THREE.OrbitControls") (c :: s)) as [rest|] eqn:E.
    + apply stripPrefix_Some in E.
      assert (Hs : s = js "HREE.OrbitControls" ++ rest).
      { change (js "THREE.OrbitControls" ++ rest)
          with (84 :: js "HREE.OrbitControls" ++ rest) in E. congruence. }
      assert (Hlen : (length (c :: s) - length rest)%nat = 19%nat).
      { rewrite Hs. cbn [length]. rewrite length_app.
        change (length (js "HREE.OrbitControls")) with 18%nat. lia. }
      rewrite Hlen. cbv beta iota.
      rewrite E, orbitMask_occurrence. f_equal.
      rewrite Hs. change 18%nat with (length (js "HREE.OrbitControls")).
      rewrite replaceLoop_skip. apply IH.
      rewrite Hs in Hn. cbn [length] in Hn. rewrite length_app in Hn. lia.
    + rewrite orbitMask_eq, E. simpl. f_equal. apply IH. simpl in Hn. lia.
Qed.

Lemma jsReplaceAll_orbitName s :
  jsReplaceAll s orbitNamePattern (js "OrbitControls") = kept s (orbitMask s 0 0).
Proof. apply (orbitName_kept (length s)). lia. Qed.

(** The chain of replaces deletes characters and does nothing else:
    [stripMask] tells which. *)
Lemma stripModuleSyntax_kept text :
  stripModuleSyntax text = kept text (stripMask text).
Proof.
  unfold stripModuleSyntax, stripMask, stage. cbv zeta.
  rewrite <- !kept_thenMask, <- jsReplaceAll_orbitName.
  unfold jsReplaceAll at 2 3 4 5 6 7 8 9. rewrite !replaceLoop_kept.
  reflexivity.
Qed.

Lemma length_stripMask text : length (stripMask text) = length text.
Proof.
  unfold stripMask, stage. cbv zeta. rewrite length_thenMask. apply length_keepMask.
Qed.

(** What the first replace deletes is missing from the result. *)
Lemma stripMask_first text i :
  keepMask importFromPattern None text 0 !! i = Some false ->
  stripMask text !! i = Some false.
Proof. intros H. unfold stripMask, stage. cbv zeta. apply thenMask_false, H. Qed.

(* ===================================================================== *)
(** ** Whole lines under the anchored replaces *)
(* ===================================================================== *)

Lemma line_end_not_start (l : jsstring) :
  forall c, noLineTerminator (c :: l) -> atLineStart (lastOr (Some c) l) = false.
Proof.
  induction l as [|d l IH]; intros c H; inversion H as [|? ? Hc Hl]; subst.
  - exact Hc.
  - rewrite lastOr_cons. apply IH, Hl.
Qed.

Lemma kept_trues (l s : jsstring) (mq : list bool) :
  kept (l ++ s) (replicate (length l) true ++ mq) = l ++ kept s mq.
Proof. induction l as [|c l IH]; simpl; [reflexivity|]. rewrite IH. reflexivity. Qed.

(** The second round decides about the characters the first has kept. *)
Lemma thenMask_trues n :
  forall mq m2 j, (j < n)%nat -> m2 !! j = Some false ->
                  thenMask (replicate n true ++ mq) m2 !! j = Some false.
Proof.
  induction n as [|n IH]; intros mq m2 j Hj H; [lia|].
  destruct m2 as [|b m2]; [discriminate|]. simpl.
  destruct j as [|j]; [exact H|]. simpl in *. apply IH; [lia|exact H].
Qed.

(** A mask whose first [n + 1] entries keep their characters. *)
Lemma trues_then (n : nat) :
  forall m : list bool,
    (forall i, (i <= n)%nat -> (i < length m)%nat -> m !! i = Some true) ->
    (n <= length m)%nat ->
    exists mq, m = replicate n true ++ mq /\
               forall b mq', mq = b :: mq' -> b = true.
Proof.
  induction n as [|n IH]; intros m Hm Hlen.
  - exists m. split; [reflexivity|]. intros b mq' ->.
    specialize (Hm 0%nat (Nat.le_refl _)). simpl in Hm.
    assert (H : Some b = Some true) by (apply Hm; lia). congruence.
  - destruct m as [|b m]; [simpl in Hlen; lia|].
    assert (Hb : Some b = Some true) by (apply (Hm 0%nat); simpl; lia).
    injection Hb as ->.
    destruct (IH m) as (mq & -> & Hq).
    + intros i Hi Hl. apply (Hm (S i)); simpl; lia.
    + simpl in Hlen. lia.
    + exists mq. split; [reflexivity|exact Hq].
Qed.

Section AnchoredLine.
Context (r : re) (l post : jsstring).
Hypothesis starts_line :
  forall prev s cap rest, exec r prev s = Some (cap, rest) -> atLineStart prev = true.
Hypothesis ends_line :
  forall prev s cap rest, exec r prev s = Some (cap, rest) -> atLineEnd rest = true.
Hypothesis line : noLineTerminator l.
Hypothesis filled : l <> [].
Hypothesis post_ends : atLineEnd post = true.

(** No match starts inside a line. *)
Lemma inside_line_kept (l2 : jsstring) :
  forall prev, atLineStart prev = false -> noLineTerminator l2 ->
    keepMask r prev (l2 ++ post) 0
    = replicate (length l2) true ++ keepMask r (lastOr prev l2) post 0.
Proof.
  induction l2 as [|c l2 IH]; intros prev Hp Hl; [reflexivity|].
  inversion Hl as [|? ? Hc Hl2]; subst.
  rewrite keepMask_eq. simpl app.
  destruct (exec r prev (c :: l2 ++ post)) as [[cap rest]|] eqn:E.
  { apply starts_line in E. congruence. }
  simpl. rewrite lastOr_cons. f_equal. apply IH; [exact Hc|exact Hl2].
Qed.

Lemma post_head_kept prev :
  atLineStart prev = false -> post <> [] ->
  keepMask r prev post 0 !! 0%nat = Some true.
Proof.
  intros Hp Hpost. rewrite keepMask_eq.
  destruct (exec r prev post) as [[cap rest]|] eqn:E.
  { apply starts_line in E. congruence. }
  destruct post; [contradiction|reflexivity].
Qed.

(** A line at which the pattern does not match is kept, with the
    character that follows it. *)
Lemma line_kept prev i :
  exec r prev (l ++ post) = None ->
  (i <= length l)%nat -> (i < length (l ++ post))%nat ->
  keepMask r prev (l ++ post) 0 !! i = Some true.
Proof.
  intros E Hi Hlen. destruct l as [|c l'] eqn:El; [contradiction|].
  rewrite keepMask_eq, E. simpl app. cbv beta iota.
  destruct i as [|j]; [reflexivity|]. simpl lookup.
  inversion line as [|? ? Hc Hl']; subst.
  rewrite inside_line_kept by assumption.
  simpl in Hi. destruct (Nat.lt_ge_cases j (length l')) as [Hj|Hj].
  - rewrite lookup_app_l by (rewrite length_replicate; exact Hj).
    apply lookup_replicate_2, Hj.
  - assert (j = length l') by lia. subst j.
    rewrite lookup_app_r by (rewrite length_replicate; lia).
    rewrite length_replicate, Nat.sub_diag.
    apply post_head_kept.
    + apply line_end_not_start. constructor; assumption.
    + intros ->. rewrite app_nil_r in Hlen. simpl in Hlen. lia.
Qed.

Lemma cases_cons (b : bool) (m' : list bool) (n len total : nat) :
  b = true \/ (0 < n)%nat ->
  (forall i, (n <= i < n + len)%nat -> m' !! i = Some false) \/
  (forall i, (n - 1 <= i <= n + len)%nat -> (i < total)%nat -> m' !! i = Some true) ->
  (forall i, (S n <= i < S n + len)%nat -> (b :: m') !! i = Some false) \/
  (forall i, (S n - 1 <= i <= S n + len)%nat -> (i < S total)%nat ->
             (b :: m') !! i = Some true).
Proof.
  intros Hb [He|Hw]; [left|right].
  - intros [|i] Hi; [lia|]. simpl. apply He. lia.
  - intros [|i] Hi Ht.
    + destruct Hb as [-> | Hn]; [reflexivity|lia].
    + simpl. apply Hw; lia.
Qed.

(** Under an anchored pattern a whole line is deleted as a whole, or it is
    kept as a whole, with the characters next to it. *)
Lemma keepMask_line_cases pre :
  forall prev skip,
    atLineStart (lastOr prev pre) = true ->
    (skip = 0 \/ skip < length pre \/ length pre + length l <= skip)%nat ->
    (forall i, (length pre <= i < length pre + length l)%nat ->
               keepMask r prev (pre ++ l ++ post) skip !! i = Some false) \/
    (forall i, (length pre - 1 <= i <= length pre + length l)%nat ->
               (i < length (pre ++ l ++ post))%nat ->
               keepMask r prev (pre ++ l ++ post) skip !! i = Some true).
Proof.
  induction pre as [|c pre IH]; intros prev skip Hstart Hskip.
  - simpl app. simpl length. simpl in Hskip. destruct skip as [|n].
    + destruct (exec r prev (l ++ post)) as [[cap rest]|] eqn:E.
      * left. intros i Hi. rewrite keepMask_eq, E.
        pose proof (match_covers_line r l post ends_line line [] prev cap rest E)
          as Hc.
        simpl in Hc.
        destruct (length (l ++ post) - length rest)%nat as [|n] eqn:En; [lia|].
        destruct (l ++ post) as [|x s'] eqn:Es.
        { apply (f_equal length) in Es. rewrite length_app in Es. simpl in Es. lia. }
        destruct i as [|i]; [reflexivity|]. simpl.
        apply keepMask_skip; [lia|].
        apply (f_equal length) in Es. rewrite length_app in Es. simpl in Es. lia.
      * right. intros i Hi Hlen. apply line_kept; [exact E|lia|exact Hlen].
    + left. intros i Hi. apply keepMask_skip; [lia|]. rewrite length_app. lia.
  - rewrite lastOr_cons in Hstart.
    assert (Hdrop : forall n,
              (n < length pre \/ length pre + length l <= n)%nat ->
              (forall i, (S (length pre) <= i < S (length pre) + length l)%nat ->
                 (false :: keepMask r (Some c) (pre ++ l ++ post) n) !! i
                 = Some false) \/
              (forall i, (S (length pre) - 1 <= i <= S (length pre) + length l)%nat ->
                 (i < S (length (pre ++ l ++ post)))%nat ->
                 (false :: keepMask r (Some c) (pre ++ l ++ post) n) !! i
                 = Some true)).
    { intros n Hn. destruct (Nat.eq_dec (length pre) 0%nat) as [Hz|Hz].
      - left. intros [|i] Hi; [lia|]. simpl.
        apply keepMask_skip; [lia|]. rewrite !length_app. lia.
      - apply cases_cons; [right; lia|]. apply IH; [exact Hstart|lia]. }
    assert (Hkeep :
              (forall i, (S (length pre) <= i < S (length pre) + length l)%nat ->
                 (true :: keepMask r (Some c) (pre ++ l ++ post) 0) !! i
                 = Some false) \/
              (forall i, (S (length pre) - 1 <= i <= S (length pre) + length l)%nat ->
                 (i < S (length (pre ++ l ++ post)))%nat ->
                 (true :: keepMask r (Some c) (pre ++ l ++ post) 0) !! i
                 = Some true)).
    { apply cases_cons; [left; reflexivity|]. apply IH; [exact Hstart|lia]. }
    simpl app. simpl length. destruct skip as [|n].
    + rewrite keepMask_eq.
      destruct (exec r prev (c :: pre ++ l ++ post)) as [[cap rest]|] eqn:E;
        [|exact Hkeep].
      pose proof (match_covers_line r l post ends_line line (c :: pre) prev cap rest E)
        as Hc.
      simpl in Hc.
      change (length (c :: pre ++ l ++ post)) with (S (length (pre ++ l ++ post))).
      destruct (S (length (pre ++ l ++ post)) - length rest)%nat as [|n];
        [exact Hkeep|].
      apply Hdrop. lia.
    + change (keepMask r prev (c :: pre ++ l ++ post) (S n))
        with (false :: keepMask r (Some c) (pre ++ l ++ post) n).
      apply Hdrop. simpl in Hskip. lia.
Qed.
End AnchoredLine.

(** A line that a round of deletion keeps as a whole, with the characters
    next to it, is a whole line of what is left; what the next round
    deletes of it is deleted from the text. *)
Lemma window_kept (l post : jsstring) :
  l <> [] -> atLineEnd post = true ->
  forall (pre : jsstring) (m : list bool) (prev out : option N),
    length m = length (pre ++ l ++ post) ->
    atLineStart (lastOr prev pre) = true ->
    (pre = [] -> atLineStart out = true) ->
    (forall i, (length pre - 1 <= i <= length pre + length l)%nat ->
               (i < length (pre ++ l ++ post))%nat -> m !! i = Some true) ->
    exists pre' post',
      kept (pre ++ l ++ post) m = pre' ++ l ++ post' /\
      atLineStart (lastOr out pre') = true /\ atLineEnd post' = true /\
      forall m2,
        (forall j, (length pre' <= j < length pre' + length l)%nat ->
                   m2 !! j = Some false) ->
        forall i, (length pre <= i < length pre + length l)%nat ->
                  thenMask m m2 !! i = Some false.
Proof.
  intros Hl Hpost. induction pre as [|c pre IH]; intros m prev out Hlen Hstart Hout Hw.
  - simpl app in *. simpl length in *.
    destruct (trues_then (length l) m) as (mq & -> & Hq).
    { intros i Hi Hi'. apply Hw; [lia|]. rewrite <- Hlen. exact Hi'. }
    { rewrite Hlen, length_app. lia. }
    exists [], (kept post mq). rewrite kept_trues.
    split; [reflexivity|]. split; [apply Hout; reflexivity|]. split.
    + destruct post as [|d post']; [reflexivity|].
      destruct mq as [|b mq'].
      { rewrite !length_app, length_replicate in Hlen. simpl in Hlen. lia. }
      rewrite (Hq b mq' eq_refl). exact Hpost.
    + intros m2 H2 i Hi. apply thenMask_trues; [lia|]. apply H2. simpl. lia.
  - destruct m as [|b m]; [discriminate Hlen|].
    rewrite lastOr_cons in Hstart.
    destruct (IH m (Some c) (if b then Some c else out))
      as (pre' & post' & Hk & Hs' & He' & Ht).
    + simpl in Hlen. lia.
    + exact Hstart.
    + intros ->. simpl in Hstart.
      assert (Hb : Some b = Some true)
        by (apply (Hw 0%nat); simpl; lia).
      injection Hb as ->. exact Hstart.
    + intros i Hi Hi'. apply (Hw (S i)); simpl; simpl in Hi; lia.
    + destruct b.
      * exists (c :: pre'), post'. simpl. rewrite Hk.
        split; [reflexivity|]. rewrite lastOr_cons.
        split; [exact Hs'|]. split; [exact He'|].
        intros m2 H2 [|i] Hi; [simpl in Hi; lia|].
        destruct m2 as [|b2 m2].
        { destruct l as [|x l']; [contradiction|].
          specialize (H2 (S (length pre'))). simpl in H2.
          assert (H : None = Some false) by (apply H2; lia). discriminate H. }
        simpl. apply Ht; [|simpl in Hi; lia].
        intros j Hj. apply (H2 (S j)). simpl. lia.
      * exists pre', post'. simpl. rewrite Hk.
        split; [reflexivity|]. split; [exact Hs'|]. split; [exact He'|].
        intros m2 H2 [|i] Hi; [simpl in Hi; lia|].
        simpl. apply Ht; [exact H2|simpl in Hi; lia].
Qed.

Section Stage.
Context (r : re) (next : jsstring -> list bool) (pre l post : jsstring).
Hypothesis line : noLineTerminator l.
Hypothesis filled : l <> [].
Hypothesis pre_ends : atLineStart (lastOr None pre) = true.
Hypothesis post_ends : atLineEnd post = true.

(** A replace that deletes the line deletes it for good. *)
Lemma stage_deletes :
  (forall i, (length pre <= i < length pre + length l)%nat ->
             keepMask r None (pre ++ l ++ post) 0 !! i = Some false) ->
  forall i, (length pre <= i < length pre + length l)%nat ->
            stage r next (pre ++ l ++ post) !! i = Some false.
Proof. intros H i Hi. unfold stage. apply thenMask_false, H, Hi. Qed.

(** An anchored replace leaves the line to the replaces after it, unless
    it deletes the line itself. *)
Lemma stage_passes :
  (forall prev s cap rest, exec r prev s = Some (cap, rest) -> atLineStart prev = true) ->
  (forall prev s cap rest, exec r prev s = Some (cap, rest) -> atLineEnd rest = true) ->
  (forall pre' post',
     atLineStart (lastOr None pre') = true -> atLineEnd post' = true ->
     forall j, (length pre' <= j < length pre' + length l)%nat ->
               next (pre' ++ l ++ post') !! j = Some false) ->
  forall i, (length pre <= i < length pre + length l)%nat ->
            stage r next (pre ++ l ++ post) !! i = Some false.
Proof.
  intros Hstarts Hends Hnext.
  destruct (keepMask_line_cases r l post Hstarts Hends line filled post_ends
              pre None 0%nat pre_ends (or_introl eq_refl)) as [He|Hw].
  - apply stage_deletes, He.
  - destruct (window_kept l post filled post_ends pre
                (keepMask r None (pre ++ l ++ post) 0) None None)
      as (pre' & post' & Hk & Hs' & He' & Ht).
    + apply length_keepMask.
    + exact pre_ends.
    + reflexivity.
    + exact Hw.
    + unfold stage. cbv zeta. rewrite Hk. apply Ht. apply Hnext; assumption.
Qed.
End Stage.

Lemma importFrom_starts_line prev s cap rest :
  exec importFromPattern prev s = Some (cap, rest) -> atLineStart prev = true.
Proof.
  intros E. apply exec_sound in E as (w & _ & Hm).
  unfold importFromPattern, Plus in Hm. minv. assumption.
Qed.

Lemma importStarAs_starts_line prev s cap rest :
  exec importStarAsPattern prev s = Some (cap, rest) -> atLineStart prev = true.
Proof.
  intros E. apply exec_sound in E as (w & _ & Hm).
  unfold importStarAsPattern, Plus in Hm. minv. assumption.
Qed.

Lemma importStarAs_ends_line prev s cap rest :
  exec importStarAsPattern prev s = Some (cap, rest) -> atLineEnd rest = true.
Proof.
  intros E. apply exec_sound in E as (w & _ & Hm).
  unfold importStarAsPattern, Plus in Hm. minv. assumption.
Qed.

Lemma importBare_starts_line prev s cap rest :
  exec importBarePattern prev s = Some (cap, rest) -> atLineStart prev = true.
Proof.
  intros E. apply exec_sound in E as (w & _ & Hm).
  unfold importBarePattern, Plus in Hm. minv. assumption.
Qed.

Lemma bareImportLine_line l : bareImportLine l -> noLineTerminator l /\ l <> [].
Proof.
  intros (? & ? & ? & ? & ? & ? & -> & _ & _ & _ & _ & _ & _ & H).
  split; [exact H|discriminate].
Qed.

Lemma requireLine_line l : requireLine l -> noLineTerminator l /\ l <> [].
Proof.
  intros (? & ? & ? & ? & ? & ? & ? & ? & ? & -> & _ & _ & _ & _ & _ & _
          & _ & _ & H).
  split; [exact H|discriminate].
Qed.

(** Claim C7, amended.  On the text of a [javascript] fence around
    [code] and a line break, the sanitizer returns [code] followed by the
    line break.  On any input, the result of the sanitizer is what is
    left of the text it has taken (the contents of the block its cascade
    chose, or the whole input) when the characters that [stripMask] marks
    are deleted, and every line of this text of the form
    [import ... from Q three Q] (with an optional semicolon and trailing
    blanks) is deleted: none of its characters is kept. *)
Theorem sanitizer_on_fence_and_imports :
  processThreeJsCode fencedCode = js "code" ++ [nl] /\
  forall code : jsstring,
    let text := snd (extractCode code) in
    length (stripMask text) = length text /\
    processThreeJsCode code = kept text (stripMask text) /\
    forall pre l post,
      text = pre ++ l ++ post -> importThreeLine l ->
      atLineStart (lastOr None pre) = true -> atLineEnd post = true ->
      forall i, (length pre <= i < length pre + length l)%nat ->
                stripMask text !! i = Some false.
Proof.
  split; [vm_compute; reflexivity|].
  intros code text.
  split; [apply length_stripMask|].
  split; [apply stripModuleSyntax_kept|].
  intros pre l post Htext Hl Hstart Hend i Hi.
  apply stripMask_first. rewrite Htext.
  apply (keepMask_drops_line importFromPattern l post).
  - apply importFrom_ends_line.
  - intros prev Hp. apply importFrom_takes_line; assumption.
  - destruct Hl as (? & ? & ? & ? & ? & ? & ? & _ & _ & _ & _ & _ & _ & _ & _ & _ & H).
    exact H.
  - exact Hstart.
  - left. reflexivity.
  - exact Hi.
Qed.

Lemma sanitizer_on_fence_and_imports_witness :
  stripMask (snd (extractCode (importLine ++ nl :: js "scene();"))) !! 0%nat
  = Some false.
Proof.
  refine (proj2 (proj2 (proj2 sanitizer_on_fence_and_imports
                          (importLine ++ nl :: js "scene();")))
            [] importLine (nl :: js "scene();") _ importLine_form eq_refl eq_refl
            0%nat _).
  - vm_compute. reflexivity.
  - vm_compute. split; [reflexivity|]. repeat constructor.
Defined.

(** The counterexample to claim C7 as stated: the result on the fenced
    text is not [code], it ends with the line break that precedes the
    closing fence. *)
Lemma fenced_code_keeps_newline :
  processThreeJsCode fencedCode = js "code" ++ [nl] /\
  processThreeJsCode fencedCode <> js "code".
Proof. split; vm_compute; [reflexivity|discriminate]. Qed.

(** Why the lines are those of the text taken, not of the input: a line
    of the input that has the form and runs across the closing fence is
    cut by the extraction, and its first part is kept. *)
Lemma cut_import_line_is_kept :
  processThreeJsCode (js "```javascript" ++ nl :: js "import x``` from 'three'")
  = js "import x".
Proof. vm_compute. reflexivity. Qed.

(** Why the lines are those of the text taken, not of the result: the
    deletion of a later replace can join the two parts of such a line. *)
Lemma joined_import_line_appears :
  processThreeJsCode
    (js "import x frimport" ++ nl :: js "* as THREE from 'three'om 'three'")
  = js "import x from 'three'".
Proof. vm_compute. reflexivity. Qed.

(* ===================================================================== *)
(** ** Properties of the sanitizer beyond the claims *)
(* ===================================================================== *)

(** X6.  The sanitizer never invents text: what its cascade extracts is a
    contiguous part of the input, and its result is never longer than the
    input. *)
Theorem processThreeJsCode_never_grows (code : jsstring) :
  occursIn (snd (extractCode code)) code /\
  (length (processThreeJsCode code) <= length (snd (extractCode code)))%nat /\
  (length (processThreeJsCode code) <= length code)%nat.
Proof.
  split; [apply extractCode_inside|].
  split; [apply stripModuleSyntax_length | apply processThreeJsCode_length].
Qed.

(** X7.  The sanitizer deletes imports for side effects and [require]
    lines, whatever the replaces before have done: every line of the text
    it has taken (the contents of the block its cascade chose, or the
    whole input) that has the form [import Q module Q] or
    [const NAME = require(Q module Q)], with an optional semicolon and
    trailing blanks, is missing from the result: none of its characters is
    kept. *)
Theorem require_and_bare_import_lines_deleted (code pre l post : jsstring) :
  snd (extractCode code) = pre ++ l ++ post ->
  bareImportLine l \/ requireLine l ->
  atLineStart (lastOr None pre) = true -> atLineEnd post = true ->
  processThreeJsCode code
  = kept (pre ++ l ++ post) (stripMask (pre ++ l ++ post)) /\
  forall i, (length pre <= i < length pre + length l)%nat ->
            stripMask (pre ++ l ++ post) !! i = Some false.
Proof.
  intros Htext Hl Hstart Hend. split.
  { unfold processThreeJsCode. rewrite Htext. apply stripModuleSyntax_kept. }
  unfold stripMask. destruct Hl as [Hl|Hl].
  - destruct (bareImportLine_line l Hl) as [Hline Hfilled].
    apply stage_passes; try assumption;
      [apply importFrom_starts_line|apply importFrom_ends_line|].
    intros pre1 post1 Hs1 He1.
    apply stage_passes; try assumption;
      [apply importStarAs_starts_line|apply importStarAs_ends_line|].
    intros pre2 post2 Hs2 He2.
    apply stage_deletes.
    intros i Hi. apply (keepMask_drops_line importBarePattern l post2); auto.
    + apply importBare_ends_line.
    + intros prev Hp. apply importBare_takes_line; assumption.
  - destruct (requireLine_line l Hl) as [Hline Hfilled].
    apply stage_passes; try assumption;
      [apply importFrom_starts_line|apply importFrom_ends_line|].
    intros pre1 post1 Hs1 He1.
    apply stage_passes; try assumption;
      [apply importStarAs_starts_line|apply importStarAs_ends_line|].
    intros pre2 post2 Hs2 He2.
    apply stage_passes; try assumption;
      [apply importBare_starts_line|apply importBare_ends_line|].
    intros pre3 post3 Hs3 He3.
    apply stage_deletes.
    intros i Hi. apply (keepMask_drops_line requirePattern l post3); auto.
    + apply requirePattern_ends_line.
    + intros prev Hp. apply requirePattern_takes_line; assumption.
Qed.

Lemma requireSample_form :
  requireLine (js "const fs = require('fs');").
Proof.
  exists (js " "), (js "fs"), (js " "), (js " "), squote, (js "fs"), squote,
         (js ";"), [].
  repeat split; try discriminate; try (right; reflexivity);
    try (left; reflexivity); vm_compute; repeat constructor.
Qed.

Lemma require_and_bare_import_lines_deleted_witness :
  processThreeJsCode (js "const fs = require('fs');")
  = kept ([] ++ js "const fs = require('fs');" ++ [])
         (stripMask ([] ++ js "const fs = require('fs');" ++ [])).
Proof.
  refine (proj1 (require_and_bare_import_lines_deleted
                   (js "const fs = require('fs');") []
                   (js "const fs = require('fs');") [] _
                   (or_intror requireSample_form) eq_refl eq_refl)).
  vm_compute. reflexivity.
Defined.

(** X8.  On a text without fences, script tags, imports and [const], the
    sanitizer renames [THREE.OrbitControls]: the text before the first
    occurrence is kept as it is, the occurrence becomes [OrbitControls],
    and the text after it is sanitized in the same way. *)
Theorem orbit_controls_is_renamed (pre post : jsstring) :
  let text := pre ++ js "THREE.OrbitControls" ++ post in
  ~ occursIn (js "```") text -> ~ occursIn (js "<script") text ->
  ~ occursIn (js "import") text -> ~ occursIn (js "const") text ->
  ~ occursIn (js "THREE.OrbitControls") (pre ++ js "THREE.OrbitControl") ->
  processThreeJsCode text
  = pre ++ js "OrbitControls" ++ processThreeJsCode post.
Proof.
  intros text Hf Hs Hi Hc Hfirst.
  rewrite (processThreeJsCode_plain text Hf Hs Hi Hc).
  rewrite (processThreeJsCode_plain post
             (fun H => Hf (occursIn_part _ _ _ _ H))
             (fun H => Hs (occursIn_part _ _ _ _ H))
             (fun H => Hi (occursIn_part _ _ _ _ H))
             (fun H => Hc (occursIn_part _ _ _ _ H))).
  unfold jsReplaceAll, orbitNamePattern, text.
  apply (lit_rewrites_first (js "THREE.OrbitControl") 115). exact Hfirst.
Qed.

Lemma orbit_controls_is_renamed_witness :
  processThreeJsCode (js "new " ++ js "THREE.OrbitControls" ++ js "(camera)")
  = js "new " ++ js "OrbitControls" ++ processThreeJsCode (js "(camera)").
Proof.
  apply (orbit_controls_is_renamed (js "new ") (js "(camera)"));
    intros (p & q & H);
    repeat (destruct p as [|? p]; try discriminate H;
            injection H as <- H).
Defined.

(* ===================================================================== *)
(** ** The submit-and-wait chain of [vibe3DCode], case by case *)
(* ===================================================================== *)

Ltac task_unfold :=
  unfold call, checkOk, emit, await, updateShape, deleteShape, createShape;
  unfold mbind, mret, Eff_bind, Eff_ret, effBind, effRet, modifyState, throw.

(** A leaf of the chain: it returned after the update, or it ended
    otherwise with every shape as it was. *)
Ltac submit_leaf :=
  cbn [fst snd shapes trace];
  first
    [ split; [reflexivity|];
      eexists; split; [rewrite <- ?app_assoc; reflexivity|repeat constructor]
    | eexists _, _, _;
      split; [|split; [rewrite <- !app_assoc; reflexivity|reflexivity]];
      reflexivity ].

Lemma submit_outcome w i thinkingMode ed :
  submitOutcome i ed (vibe3DCode_submit w i thinkingMode ed).
Proof.
  unfold submitOutcome, vibe3DCode_submit, waitForTaskResult, waitForCodeGeneration.
  destruct thinkingMode; task_unfold.
  - destruct (fetch w trellisUrl) as [resp|e|]; try submit_leaf.
    destruct (ok resp); destruct (json resp) as [body|e|]; try submit_leaf;
      destruct (data_task_id body) as [tid|]; try submit_leaf;
      destruct (promise (runWait TaskResult _)) as [|v|e]; submit_leaf.
  - destruct (fetch w queue3dUrl) as [resp|e|]; try submit_leaf.
    destruct (ok resp); destruct (json resp) as [body|e|]; try submit_leaf;
      destruct (promise (runWait CodeGeneration _)) as [|v|e]; try submit_leaf;
      destruct v as [| | s | [|c s] | im wd ht]; try submit_leaf;
      destruct (length (processThreeJsCode (c :: s)) <? 100)%nat; submit_leaf.
Qed.

(** The code path of the chain as a function of how its wait ends. *)
Lemma submit_code (w : world) (i : TLShapeId) (ed : editor) (body : jsonBody) :
  accepted w queue3dUrl body ->
  let url := subscribeUrl (task_id body) in
  let waited :=
    Editor (shapes ed) ((trace ed ++ [Fetch queue3dUrl]) ++ [OpenEventSource url]) in
  vibe3DCode_submit w i false ed
  = match promise (runWait CodeGeneration (channel w url)) with
    | Pending => (Pends, waited)
    | Rejected e => (Threw e, waited)
    | Fulfilled (VContent (c :: s)) =>
        if (length (processThreeJsCode (c :: s)) <? 100)%nat
        then (Threw (js "Could not generate a 3D model from those wireframes."),
              waited)
        else (Returned tt,
              Editor (alter (withCode (processThreeJsCode (c :: s))) i (shapes ed))
                     (trace waited ++ [UpdateShape i]))
    | Fulfilled _ => (Threw (js "No code was generated"), waited)
    end.
Proof.
  intros (resp & Hfetch & Hok & Hjson) url waited.
  unfold waited, url, subscribeUrl, vibe3DCode_submit, waitForCodeGeneration.
  task_unfold. rewrite Hfetch. cbv beta iota. rewrite Hok, Hjson. cbv beta iota.
  destruct (promise (runWait CodeGeneration _)) as [|v|e];
    [reflexivity| |reflexivity].
  destruct v as [| | s | [|c s] | im wd ht]; try reflexivity.
  destruct (length (processThreeJsCode (c :: s)) <? 100)%nat; reflexivity.
Qed.

(** The model path of the chain as a function of how its wait ends. *)
Lemma submit_model (w : world) (i : TLShapeId) (ed : editor) (body : jsonBody)
    (taskId : option jsstring) :
  accepted w trellisUrl body -> data_task_id body = Some taskId ->
  let url := socketUrl taskId in
  let waited :=
    Editor (shapes ed) ((trace ed ++ [Fetch trellisUrl]) ++ [OpenWebSocket url]) in
  vibe3DCode_submit w i true ed
  = match promise (runWait TaskResult (channel w url)) with
    | Pending => (Pends, waited)
    | Rejected e => (Threw e, waited)
    | Fulfilled v =>
        (Returned tt,
         Editor (alter (withModel v) i (shapes ed)) (trace waited ++ [UpdateShape i]))
    end.
Proof.
  intros (resp & Hfetch & Hok & Hjson) Htid url waited.
  unfold waited, url, socketUrl, vibe3DCode_submit, waitForTaskResult.
  task_unfold. rewrite Hfetch. cbv beta iota. rewrite Hok, Hjson. cbv beta iota.
  rewrite Htid. cbv beta iota.
  destruct (promise (runWait TaskResult _)) as [|v|e]; reflexivity.
Qed.

(* ===================================================================== *)
(** ** Runs of [vibe3DCode] beyond the claims *)
(* ===================================================================== *)

Lemma answeringWorld_rasterOk p :
  rasterOk (answeringWorld p) (js "data:image/png;base64,AAAA").
Proof. exists 0, (Some 0). repeat split. Qed.

Lemma answeringWorld_accepted p url :
  accepted (answeringWorld p) url
           (JsonBody None (Some (js "t1")) (Some (Some (js "t1")))).
Proof. eexists. repeat split. Qed.

(** X9.  The success path of [vibe3DCode] for scene code: when the
    selection is rasterized, the queue accepts the request and the wait
    resolves with content whose sanitized form has at least 100
    characters, the call returns, after one request and one event stream,
    and its only change is to the target preview element: the sanitized
    code is stored in it and [isGltf] is set to [false]; nothing is
    deleted.  For a call without element id the target is the preview
    element created at the start. *)
Theorem vibe3DCode_stores_sanitized_code (w : world) (shapeId : option TLShapeId)
    (ed : editor) (b : bounds) (dataUrl : jsstring) (body : jsonBody)
    (c : jsstring) :
  getSelectedShapes w <> [] ->
  getSelectionPageBounds w = Some b ->
  rasterOk w dataUrl ->
  accepted w queue3dUrl body ->
  promise (runWait CodeGeneration (channel w (subscribeUrl (task_id body))))
  = Fulfilled (VContent c) ->
  (100 <= length (processThreeJsCode c))%nat ->
  let r := vibe3DCode w shapeId false ed in
  let target := targetOf w shapeId in
  let start := afterRaster w shapeId b ed in
  let code := processThreeJsCode c in
  fst r = Returned tt /\
  shapes (snd r) = alter (withCode code) target (shapes start) /\
  trace (snd r)
  = trace start ++ [Fetch queue3dUrl;
                    OpenEventSource (subscribeUrl (task_id body));
                    UpdateShape target] /\
  (shapeId = None ->
   shapes (snd r) !! target
   = Some (withCode code (previewShape target b (getSelectedShapes w)))).
Proof.
  intros Hsel Hb Hraster Hacc Hwait Hlong r target start code.
  assert (Hc : exists x s, c = x :: s).
  { destruct c as [|x s]; [|eauto].
    pose proof (processThreeJsCode_length []) as H.
    change (length (@nil N)) with 0%nat in H. lia. }
  destruct Hc as (x & s & ->).
  assert (Hr : r = (Returned tt,
                    Editor (alter (withCode code) target (shapes start))
                           (((trace start ++ [Fetch queue3dUrl]) ++
                             [OpenEventSource (subscribeUrl (task_id body))])
                            ++ [UpdateShape target]))).
  { unfold r.
    rewrite (vibe3DCode_rasterized w shapeId false ed b dataUrl Hsel Hb Hraster).
    unfold tryCatch. rewrite (submit_code w _ _ body Hacc). cbv zeta.
    rewrite Hwait.
    apply Nat.ltb_ge in Hlong. rewrite Hlong. reflexivity. }
  rewrite Hr. cbn [fst snd shapes trace].
  split; [reflexivity|]. split; [reflexivity|].
  split; [rewrite <- !app_assoc; reflexivity|].
  intros ->. unfold target, start, afterRaster, targetOf. cbn [shapes].
  rewrite lookup_alter_eq, lookup_insert_eq. reflexivity.
Qed.

Lemma vibe3DCode_stores_sanitized_code_witness :
  fst (vibe3DCode (answeringWorld longSceneDone) None false emptyEditor)
  = Returned tt.
Proof.
  refine (proj1 (vibe3DCode_stores_sanitized_code
                   (answeringWorld longSceneDone) None emptyEditor sampleBounds
                   (js "data:image/png;base64,AAAA")
                   (JsonBody None (Some (js "t1")) (Some (Some (js "t1"))))
                   (List.repeat 120 120%nat)
                   _ eq_refl (answeringWorld_rasterOk _)
                   (answeringWorld_accepted _ _) eq_refl _)).
  - discriminate.
  - apply Nat.leb_le. vm_compute. reflexivity.
Defined.

(** X10.  The success path of [vibe3DCode] in thinking mode: when the
    model service accepts the task and the socket wait resolves, the call
    returns after one request and one socket, and its only change is to
    the target preview element: the value the wait resolved with is
    stored as [gltfUrl] (nothing at all when it was [undefined]) and
    [isGltf] is set to [true]; the scene code of the element is kept. *)
Theorem vibe3DCode_stores_model_url (w : world) (shapeId : option TLShapeId)
    (ed : editor) (b : bounds) (dataUrl : jsstring) (body : jsonBody)
    (taskId : option jsstring) (v : value) :
  getSelectedShapes w <> [] ->
  getSelectionPageBounds w = Some b ->
  rasterOk w dataUrl ->
  accepted w trellisUrl body ->
  data_task_id body = Some taskId ->
  promise (runWait TaskResult (channel w (socketUrl taskId))) = Fulfilled v ->
  let r := vibe3DCode w shapeId true ed in
  let target := targetOf w shapeId in
  let start := afterRaster w shapeId b ed in
  fst r = Returned tt /\
  shapes (snd r) = alter (withModel v) target (shapes start) /\
  trace (snd r)
  = trace start ++ [Fetch trellisUrl; OpenWebSocket (socketUrl taskId);
                    UpdateShape target] /\
  (forall s, threeJsCode (props (withModel v s)) = threeJsCode (props s) /\
             isGltf (props (withModel v s)) = Some true /\
             gltfUrl (props (withModel v s))
             = match v with VString u => Some u | _ => None end).
Proof.
  intros Hsel Hb Hraster Hacc Htid Hwait r target start.
  assert (Hr : r = (Returned tt,
                    Editor (alter (withModel v) target (shapes start))
                           (((trace start ++ [Fetch trellisUrl]) ++
                             [OpenWebSocket (socketUrl taskId)])
                            ++ [UpdateShape target]))).
  { unfold r.
    rewrite (vibe3DCode_rasterized w shapeId true ed b dataUrl Hsel Hb Hraster).
    unfold tryCatch. rewrite (submit_model w _ _ body taskId Hacc Htid). cbv zeta.
    rewrite Hwait. reflexivity. }
  rewrite Hr. cbn [fst snd shapes trace].
  split; [reflexivity|]. split; [reflexivity|].
  split; [rewrite <- !app_assoc; reflexivity|].
  intros s. repeat split.
Qed.

Lemma vibe3DCode_stores_model_url_witness :
  fst (vibe3DCode (answeringWorld modelDone) None true emptyEditor) = Returned tt.
Proof.
  refine (proj1 (vibe3DCode_stores_model_url
                   (answeringWorld modelDone) None emptyEditor sampleBounds
                   (js "data:image/png;base64,AAAA")
                   (JsonBody None (Some (js "t1")) (Some (Some (js "t1"))))
                   (Some (js "t1")) (VString (js "model.glb"))
                   _ eq_refl (answeringWorld_rasterOk _)
                   (answeringWorld_accepted _ _) eq_refl eq_refl)).
  discriminate.
Defined.

(** X11.  A result that cannot be used is an error and costs the preview
    element: when the wait for scene code resolves with [null] (a
    completed message without content), the call throws
    [No code was generated]; when it resolves with content shorter than
    100 characters, whatever the content is, the call throws
    [Could not generate a 3D model from those wireframes.].  In both
    cases the target preview element is deleted last and no shape is
    updated. *)
Theorem unusable_code_is_rejected (w : world) (shapeId : option TLShapeId)
    (ed : editor) (b : bounds) (dataUrl : jsstring) (body : jsonBody) :
  getSelectedShapes w <> [] ->
  getSelectionPageBounds w = Some b ->
  rasterOk w dataUrl ->
  accepted w queue3dUrl body ->
  let r := vibe3DCode w shapeId false ed in
  let target := targetOf w shapeId in
  let waited := promise (runWait CodeGeneration
                           (channel w (subscribeUrl (task_id body)))) in
  (waited = Fulfilled VNull -> fst r = Threw (js "No code was generated")) /\
  (forall c, waited = Fulfilled (VContent c) -> c <> [] ->
             (length c < 100)%nat ->
             fst r = Threw (js "Could not generate a 3D model from those wireframes."))
  /\
  (waited = Fulfilled VNull \/
   (exists c, waited = Fulfilled (VContent c) /\ (length c < 100)%nat) ->
   shapes (snd r) !! target = None /\
   last (trace (snd r)) = Some (DeleteShape target) /\
   List.filter isUpdate (trace (snd r)) = List.filter isUpdate (trace ed)).
Proof.
  intros Hsel Hb Hraster Hacc r target waited.
  assert (Hr : r = tryCatch (vibe3DCode_submit w target false)
                            (fun e => deleteShape target;; throw e)
                            (afterRaster w shapeId b ed)).
  { apply (vibe3DCode_rasterized w shapeId false ed b dataUrl Hsel Hb Hraster). }
  assert (Hupd : List.filter isUpdate (trace (afterRaster w shapeId b ed))
                 = List.filter isUpdate (trace ed)).
  { unfold afterRaster. destruct shapeId; cbn [trace];
      rewrite ?filter_app_single; cbn [isUpdate]; rewrite ?app_nil_r; reflexivity. }
  assert (Hshort : forall c, (length c < 100)%nat ->
            (length (processThreeJsCode c) <? 100)%nat = true).
  { intros c Hc. apply Nat.ltb_lt. pose proof (processThreeJsCode_length c). lia. }
  rewrite Hr. unfold tryCatch.
  rewrite (submit_code w _ _ body Hacc). cbv zeta. fold waited.
  split; [intros ->; reflexivity|]. split.
  - intros c -> Hne Hc. destruct c as [|x s]; [contradiction|].
    rewrite (Hshort _ Hc). reflexivity.
  - intros [-> | (c & -> & Hc)].
    + unfold mbind, Eff_bind, effBind, deleteShape, modifyState, throw.
      cbn [fst snd shapes trace].
      rewrite last_snoc, lookup_delete_eq, !filter_app_single.
      cbn [isUpdate]. rewrite !app_nil_r. auto.
    + destruct c as [|x s]; [|rewrite (Hshort _ Hc)];
        unfold mbind, Eff_bind, effBind, deleteShape, modifyState, throw;
        cbn [fst snd shapes trace];
        rewrite last_snoc, lookup_delete_eq, !filter_app_single;
        cbn [isUpdate]; rewrite !app_nil_r; auto.
Qed.

Lemma unusable_code_is_rejected_witness :
  fst (vibe3DCode (answeringWorld sceneDone) None false emptyEditor)
  = Threw (js "Could not generate a 3D model from those wireframes.").
Proof.
  refine (proj1 (proj2 (unusable_code_is_rejected
                   (answeringWorld sceneDone) None emptyEditor sampleBounds
                   (js "data:image/png;base64,AAAA")
                   (JsonBody None (Some (js "t1")) (Some (Some (js "t1"))))
                   _ eq_refl (answeringWorld_rasterOk _)
                   (answeringWorld_accepted _ _)))
            (js "scene") eq_refl _ _).
  - discriminate.
  - discriminate.
  - vm_compute. lia.
Defined.

(** How far a run of [vibe3DCode] gets: it throws at once, or it stops
    after the export was asked for, or it runs its [try] block. *)
Lemma vibe3DCode_cases (w : world) (shapeId : option TLShapeId)
    (thinkingMode : bool) (ed : editor) :
  let r := vibe3DCode w shapeId thinkingMode ed in
  let target := targetOf w shapeId in
  (exists e, r = (Threw e, ed)) \/
  exists b,
    let start := afterRaster w shapeId b ed in
    (exists e, r = (Threw e, start)) \/ r = (Returned tt, start) \/
    (r = (Pends, start) /\ ~ answers w) \/
    r = tryCatch (vibe3DCode_submit w target thinkingMode)
                 (fun e => deleteShape target;; throw e) start.
Proof.
  intros r target. unfold r, target, vibe3DCode, afterRaster, guides, targetOf.
  destruct (length (getSelectedShapes w) =? 0)%nat; [left; eexists; reflexivity|].
  destruct shapeId as [i|].
  - right. exists (Bounds 0 0 0). task_unfold.
    destruct (getSvg w _) as [[svg|]|e|] eqn:E1;
      [|right; left; reflexivity|left; eexists; reflexivity|
       right; right; left; split; [reflexivity|];
       intros (H & _); exact (H _ E1)].
    cbv beta iota.
    destruct (getSvgAsImage w svg) as [blob|e|] eqn:E2;
      [|left; eexists; reflexivity|
       right; right; left; split; [reflexivity|];
       intros (_ & H & _); exact (H _ E2)].
    cbv beta iota.
    destruct (blobToBase64 w blob) as [dataUrl|e|] eqn:E3;
      [|left; eexists; reflexivity|
       right; right; left; split; [reflexivity|];
       intros (_ & _ & H & _); exact (H _ E3)].
    right; right; right. reflexivity.
  - destruct (getSelectionPageBounds w) as [b|]; [|left; eexists; reflexivity].
    right. exists b. task_unfold.
    destruct (getSvg w _) as [[svg|]|e|] eqn:E1;
      [|right; left; reflexivity|left; eexists; reflexivity|
       right; right; left; split; [reflexivity|];
       intros (H & _); exact (H _ E1)].
    cbv beta iota.
    destruct (getSvgAsImage w svg) as [blob|e|] eqn:E2;
      [|left; eexists; reflexivity|
       right; right; left; split; [reflexivity|];
       intros (_ & H & _); exact (H _ E2)].
    cbv beta iota.
    destruct (blobToBase64 w blob) as [dataUrl|e|] eqn:E3;
      [|left; eexists; reflexivity|
       right; right; left; split; [reflexivity|];
       intros (_ & _ & H & _); exact (H _ E3)].
    right; right; right. reflexivity.
Qed.

(** What [afterRaster] adds to the editor. *)
Lemma afterRaster_adds (w : world) (shapeId : option TLShapeId) (b : bounds)
    (ed : editor) :
  let target := targetOf w shapeId in
  let start := afterRaster w shapeId b ed in
  (forall j, j <> target -> shapes start !! j = shapes ed !! j) /\
  exists head,
    trace start = trace ed ++ head /\ Forall (spares target) head /\
    List.filter isUpdate head = [] /\ List.filter isDelete head = [] /\
    match shapeId with
    | Some _ => List.filter isCreate head = []
    | None => (length (List.filter isCreate head) <= 1)%nat
    end.
Proof.
  intros target start. unfold start, target, afterRaster, targetOf.
  destruct shapeId as [i|]; cbn [shapes trace].
  - split; [reflexivity|]. eexists. split; [reflexivity|].
    repeat split; try reflexivity. repeat constructor.
  - split; [intros j Hj; apply lookup_insert_ne; congruence|].
    eexists. split; [rewrite <- app_assoc; reflexivity|].
    repeat split; try reflexivity; simpl; try lia.
    constructor; [right; reflexivity|]. repeat constructor.
Qed.

Lemma filter_shapeless (new : list effect) :
  Forall (fun e => shapeOf e = None) new ->
  forall keep, (forall e, shapeOf e = None -> keep e = false) ->
               List.filter keep new = [].
Proof.
  intros Hnew keep Hk. induction Hnew as [|x l Hx _ IH]; [reflexivity|].
  simpl. rewrite (Hk _ Hx). exact IH.
Qed.

(** The [try] block with its [catch], from any editor. *)
Lemma guarded_submit (w : world) (i : TLShapeId) (thinkingMode : bool)
    (ed : editor) :
  let r := tryCatch (vibe3DCode_submit w i thinkingMode)
                    (fun e => deleteShape i;; throw e) ed in
  (forall j, j <> i -> shapes (snd r) !! j = shapes ed !! j) /\
  exists tail,
    trace (snd r) = trace ed ++ tail /\ Forall (spares i) tail /\
    List.filter isCreate tail = [] /\
    match fst r with
    | Returned _ =>
        List.filter isDelete tail = [] /\ List.filter isUpdate tail = [UpdateShape i]
    | Threw _ =>
        List.filter isUpdate tail = [] /\ List.filter isDelete tail = [DeleteShape i]
    | Pends => List.filter isUpdate tail = [] /\ List.filter isDelete tail = []
    end.
Proof.
  intros r. unfold r, tryCatch.
  pose proof (submit_outcome w i thinkingMode ed) as H. unfold submitOutcome in H.
  destruct (vibe3DCode_submit w i thinkingMode ed) as [[[] | e |] ed'];
    cbn [fst snd] in *.
  - destruct H as (url & opened & f & Hop & Htr & Hsh).
    split; [intros j Hj; rewrite Hsh; apply lookup_alter_ne; congruence|].
    eexists. split; [exact Htr|].
    destruct opened; try discriminate Hop;
      (split; [|repeat split; reflexivity]);
      (constructor; [left; reflexivity|]);
      (constructor; [left; reflexivity|]);
      (constructor; [right; reflexivity | constructor]).
  - destruct H as (Hsh & new & Htr & Hnew).
    unfold mbind, Eff_bind, effBind, deleteShape, modifyState, throw.
    cbn [fst snd shapes trace].
    split; [intros j Hj; rewrite Hsh; apply lookup_delete_ne; congruence|].
    exists (new ++ [DeleteShape i]).
    split; [rewrite Htr, <- app_assoc; reflexivity|].
    pose proof (filter_shapeless new Hnew) as Hf.
    rewrite !List.filter_app, !Hf;
      try (intros [] Hx; try reflexivity; discriminate Hx).
    split; [|repeat split; reflexivity].
    apply Forall_app. split.
    + eapply List.Forall_impl; [|exact Hnew]. intros x Hx. left. exact Hx.
    + constructor; [right; reflexivity | constructor].
  - destruct H as (Hsh & new & Htr & Hnew).
    split; [intros j Hj; rewrite Hsh; reflexivity|].
    exists new. split; [exact Htr|].
    pose proof (filter_shapeless new Hnew) as Hf.
    rewrite !Hf; try (intros [] Hx; try reflexivity; discriminate Hx).
    split; [|repeat split; reflexivity].
    eapply List.Forall_impl; [|exact Hnew]. intros x Hx. left. exact Hx.
Qed.

(** X12.  [vibe3DCode] leaves every shape but its target alone, on every
    run: whatever the selection, the export and the service do, no shape
    other than the target preview element is created, changed or deleted,
    and a call that is given the id of an existing preview element (a
    regeneration) creates no shape at all; a call without id creates at
    most one. *)
Theorem vibe3DCode_spares_other_shapes (w : world) (shapeId : option TLShapeId)
    (thinkingMode : bool) (ed : editor) (j : TLShapeId) :
  j <> targetOf w shapeId ->
  let r := vibe3DCode w shapeId thinkingMode ed in
  shapes (snd r) !! j = shapes ed !! j /\
  exists new,
    trace (snd r) = trace ed ++ new /\
    Forall (spares (targetOf w shapeId)) new /\
    match shapeId with
    | Some _ => List.filter isCreate new = []
    | None => (length (List.filter isCreate new) <= 1)%nat
    end.
Proof.
  intros Hj r.
  destruct (vibe3DCode_cases w shapeId thinkingMode ed) as [(e & Hr) | (b & Hr)];
    fold r in Hr.
  { rewrite Hr. split; [reflexivity|]. exists []. rewrite app_nil_r.
    split; [reflexivity|]. split; [constructor|]. destruct shapeId; simpl; lia || reflexivity. }
  destruct (afterRaster_adds w shapeId b ed) as (Hsh & head & Htr & Hsp & _ & _ & Hcr).
  cbv zeta in Hr.
  destruct Hr as [(e & Hr) | [Hr | [[Hr _] | Hr]]];
    try (rewrite Hr; cbn [fst snd]; split; [apply Hsh, Hj|]; exists head; auto; fail).
  destruct (guarded_submit w (targetOf w shapeId) thinkingMode
              (afterRaster w shapeId b ed)) as (Hsh2 & tail & Htr2 & Hsp2 & Hcr2 & _).
  rewrite <- Hr in Hsh2, Htr2.
  split; [rewrite (Hsh2 j Hj); apply Hsh, Hj|].
  exists (head ++ tail). split; [rewrite Htr2, Htr, <- app_assoc; reflexivity|].
  split; [apply Forall_app; auto|].
  rewrite List.filter_app, Hcr2, app_nil_r. exact Hcr.
Qed.

Lemma vibe3DCode_spares_other_shapes_witness :
  shapes (snd (vibe3DCode (answeringWorld longSceneDone) None false emptyEditor)) !! 1
  = shapes emptyEditor !! 1.
Proof.
  refine (proj1 (vibe3DCode_spares_other_shapes (answeringWorld longSceneDone)
                   None false emptyEditor 1 _)).
  discriminate.
Defined.

(** X13.  [vibe3DCode] changes the preview element all at once or not at
    all, on every run: a call that returns has deleted nothing and has
    updated a shape at most once; a call that throws has updated nothing
    and has deleted at most one shape; a call that is left waiting has
    neither updated nor deleted. *)
Theorem vibe3DCode_updates_or_deletes (w : world) (shapeId : option TLShapeId)
    (thinkingMode : bool) (ed : editor) :
  let r := vibe3DCode w shapeId thinkingMode ed in
  exists new,
    trace (snd r) = trace ed ++ new /\
    match fst r with
    | Returned _ =>
        List.filter isDelete new = [] /\
        (length (List.filter isUpdate new) <= 1)%nat
    | Threw _ =>
        List.filter isUpdate new = [] /\
        (length (List.filter isDelete new) <= 1)%nat
    | Pends => List.filter isUpdate new = [] /\ List.filter isDelete new = []
    end.
Proof.
  intros r.
  destruct (vibe3DCode_cases w shapeId thinkingMode ed) as [(e & Hr) | (b & Hr)];
    fold r in Hr.
  { rewrite Hr. exists []. rewrite app_nil_r. simpl. auto. }
  destruct (afterRaster_adds w shapeId b ed) as (_ & head & Htr & _ & Hup & Hdel & _).
  cbv zeta in Hr.
  destruct Hr as [(e & Hr) | [Hr | [[Hr _] | Hr]]].
  - rewrite Hr. exists head. cbn [fst snd]. rewrite Hup, Hdel. simpl. auto.
  - rewrite Hr. exists head. cbn [fst snd]. rewrite Hup, Hdel. simpl. auto.
  - rewrite Hr. exists head. cbn [fst snd]. rewrite Hup, Hdel. simpl. auto.
  - destruct (guarded_submit w (targetOf w shapeId) thinkingMode
                (afterRaster w shapeId b ed)) as (_ & tail & Htr2 & _ & _ & Hout).
    rewrite <- Hr in Htr2, Hout.
    exists (head ++ tail). split; [rewrite Htr2, Htr, <- app_assoc; reflexivity|].
    rewrite !List.filter_app, Hup, Hdel. cbn [app].
    destruct (fst r) as [[] | e |]; destruct Hout as [H1 H2]; rewrite H1, H2;
      simpl; auto.
Qed.

(** X14.  The task id of an answer is not checked.  When the queue
    accepts the request but its answer has no [task_id], [vibe3DCode]
    opens the event stream of the task named [undefined]; in thinking
    mode an answer whose [data] has no [task_id] opens the socket of the
    task named [undefined], and an answer without [data] makes the call
    throw before any channel is opened, which costs the preview
    element. *)
Theorem missing_task_id_is_not_checked (w : world) (shapeId : option TLShapeId)
    (ed : editor) (b : bounds) (dataUrl : jsstring) (body : jsonBody) :
  getSelectedShapes w <> [] ->
  getSelectionPageBounds w = Some b ->
  rasterOk w dataUrl ->
  let start := afterRaster w shapeId b ed in
  let target := targetOf w shapeId in
  (accepted w queue3dUrl body -> task_id body = None ->
   exists rest,
     trace (snd (vibe3DCode w shapeId false ed))
     = trace start
       ++ [Fetch queue3dUrl;
           OpenEventSource (js "http://localhost:8001/api/subscribe/undefined")]
       ++ rest) /\
  (accepted w trellisUrl body -> data_task_id body = Some None ->
   exists rest,
     trace (snd (vibe3DCode w shapeId true ed))
     = trace start
       ++ [Fetch trellisUrl;
           OpenWebSocket (js "ws://localhost:8001/api/trellis/task/ws/undefined")]
       ++ rest) /\
  (accepted w trellisUrl body -> data_task_id body = None ->
   let r := vibe3DCode w shapeId true ed in
   (exists e, fst r = Threw e) /\
   trace (snd r) = trace start ++ [Fetch trellisUrl; DeleteShape target] /\
   shapes (snd r) !! target = None).
Proof.
  intros Hsel Hb Hraster start target.
  split; [|split].
  - intros Hacc Hid.
    rewrite (vibe3DCode_rasterized w shapeId false ed b dataUrl Hsel Hb Hraster).
    unfold tryCatch. rewrite (submit_code w _ _ body Hacc). cbv zeta.
    rewrite Hid. unfold subscribeUrl, showId. fold start.
    change (js "http://localhost:8001/api/subscribe/" ++ js "undefined")
      with (js "http://localhost:8001/api/subscribe/undefined").
    destruct (promise (runWait CodeGeneration _)) as [|v|e];
      [| destruct v as [| | s | [|c s] | im wd ht];
         try destruct (length (processThreeJsCode (c :: s)) <? 100)%nat |];
      unfold mbind, Eff_bind, effBind, deleteShape, modifyState, throw;
      cbn [fst snd shapes trace]; eexists;
      rewrite <- ?app_assoc; cbn [app]; reflexivity.
  - intros Hacc Hid.
    rewrite (vibe3DCode_rasterized w shapeId true ed b dataUrl Hsel Hb Hraster).
    unfold tryCatch. rewrite (submit_model w _ _ body None Hacc Hid). cbv zeta.
    unfold socketUrl, showId. fold start.
    change (js "ws://localhost:8001/api/trellis/task/ws/" ++ js "undefined")
      with (js "ws://localhost:8001/api/trellis/task/ws/undefined").
    destruct (promise (runWait TaskResult _)) as [|v|e];
      unfold mbind, Eff_bind, effBind, deleteShape, modifyState, throw;
      cbn [fst snd shapes trace]; eexists;
      rewrite <- ?app_assoc; cbn [app]; reflexivity.
  - intros (resp & Hfetch & Hok & Hjson) Hid r. unfold r.
    rewrite (vibe3DCode_rasterized w shapeId true ed b dataUrl Hsel Hb Hraster).
    unfold tryCatch, vibe3DCode_submit. task_unfold.
    rewrite Hfetch. cbv beta iota. rewrite Hok, Hjson. cbv beta iota.
    rewrite Hid. cbn [fst snd shapes trace]. fold start. fold target.
    split; [eexists; reflexivity|].
    split; [rewrite <- app_assoc; reflexivity|apply lookup_delete_eq].
Qed.

Lemma anonymousWorld_rasterOk p :
  rasterOk (anonymousWorld p) (js "data:image/png;base64,AAAA").
Proof. exists 0, (Some 0). repeat split. Qed.

Lemma missing_task_id_is_not_checked_witness :
  exists rest,
    trace (snd (vibe3DCode (anonymousWorld longSceneDone) None false emptyEditor))
    = trace (afterRaster (anonymousWorld longSceneDone) None sampleBounds emptyEditor)
      ++ [Fetch queue3dUrl;
          OpenEventSource (js "http://localhost:8001/api/subscribe/undefined")]
      ++ rest.
Proof.
  refine (proj1 (missing_task_id_is_not_checked (anonymousWorld longSceneDone)
                   None emptyEditor sampleBounds (js "data:image/png;base64,AAAA")
                   (JsonBody None None None) _ eq_refl (anonymousWorld_rasterOk _))
            _ eq_refl).
  - discriminate.
  - eexists. repeat split.
Defined.

Lemma codeGeneration_settles arrivals :
  promise (runWait CodeGeneration arrivals) <> Pending.
Proof. apply (sse_runWait_over CodeGeneration arrivals eq_refl). Qed.

Lemma submit_code_ends (w : world) (i : TLShapeId) (ed : editor) :
  answers w -> fst (vibe3DCode_submit w i false ed) <> Pends.
Proof.
  intros (_ & _ & _ & Hans).
  destruct (Hans queue3dUrl) as [Hfetch Hjson].
  unfold vibe3DCode_submit, waitForCodeGeneration. task_unfold.
  destruct (fetch w queue3dUrl) as [resp|e|]; [|discriminate|contradiction].
  specialize (Hjson resp eq_refl). cbv beta iota.
  destruct (ok resp); destruct (json resp) as [body|e|]; try discriminate;
    try contradiction.
  cbv beta iota.
  pose proof (codeGeneration_settles
                (channel w (js "http://localhost:8001/api/subscribe/"
                            ++ showId (task_id body)))) as Hs.
  destruct (promise (runWait CodeGeneration _)) as [|v|e];
    [contradiction| |discriminate].
  destruct v as [| | s | [|c s] | im wd ht]; try discriminate.
  destruct (length (processThreeJsCode (c :: s)) <? 100)%nat; discriminate.
Qed.

(** X15.  The failure policy of [vibe3DCode] where it holds: once the
    selection has been rasterized, the call throws exactly when its
    submit-and-wait chain throws, with the same error, and then the
    target preview element is gone from the editor, its deletion is the
    last thing the call did and the only deletion, nothing was updated,
    and exactly one request was sent: there is no retry. *)
Theorem chain_error_deletes_preview (w : world) (shapeId : option TLShapeId)
    (thinkingMode : bool) (ed : editor) (b : bounds) (dataUrl : jsstring)
    (e : error) :
  getSelectedShapes w <> [] ->
  getSelectionPageBounds w = Some b ->
  rasterOk w dataUrl ->
  let r := vibe3DCode w shapeId thinkingMode ed in
  let target := targetOf w shapeId in
  let start := afterRaster w shapeId b ed in
  (fst r = Threw e <->
   fst (vibe3DCode_submit w target thinkingMode start) = Threw e) /\
  (fst r = Threw e ->
   shapes (snd r) !! target = None /\
   last (trace (snd r)) = Some (DeleteShape target) /\
   List.filter isDelete (trace (snd r))
   = List.filter isDelete (trace ed) ++ [DeleteShape target] /\
   List.filter isUpdate (trace (snd r)) = List.filter isUpdate (trace ed) /\
   length (List.filter isFetch (trace (snd r)))
   = S (length (List.filter isFetch (trace ed)))).
Proof.
  intros Hsel Hb Hraster r target start.
  assert (Hr : r = tryCatch (vibe3DCode_submit w target thinkingMode)
                            (fun e => deleteShape target;; throw e) start).
  { apply (vibe3DCode_rasterized w shapeId thinkingMode ed b dataUrl Hsel Hb Hraster). }
  destruct (afterRaster_adds w shapeId b ed) as (_ & head & Htr & _ & Hup & Hdel & _).
  fold start in Htr.
  destruct (guarded_submit w target thinkingMode start) as (_ & tail & Htr2 & _ & _ & Hout).
  rewrite <- Hr in Htr2, Hout.
  split.
  - rewrite Hr. unfold tryCatch.
    destruct (vibe3DCode_submit w target thinkingMode start) as [[[] | e' |] ed2];
      cbn [fst snd]; split; intros H; try discriminate H; exact H.
  - intros He.
    destruct (vibe3DCode_failure_policy w shapeId thinkingMode ed b dataUrl e
                Hsel Hb Hraster He) as (_ & Hgone & Hlast & Hfetch).
    fold r in Hgone, Hlast, Hfetch. fold target in Hgone, Hlast.
    rewrite He in Hout. destruct Hout as [Hu Hd].
    split; [exact Hgone|]. split; [exact Hlast|].
    split; [rewrite Htr2, Htr, !List.filter_app, Hd, Hdel, app_nil_r; reflexivity|].
    split; [rewrite Htr2, Htr, !List.filter_app, Hu, Hup, !app_nil_r; reflexivity|].
    exact Hfetch.
Qed.

Lemma chain_error_deletes_preview_witness :
  shapes (snd (vibe3DCode (answeringWorld sceneDone) None false emptyEditor)) !! 7
  = None.
Proof.
  refine (proj1 (proj2 (chain_error_deletes_preview
                   (answeringWorld sceneDone) None false emptyEditor sampleBounds
                   (js "data:image/png;base64,AAAA")
                   (js "Could not generate a 3D model from those wireframes.")
                   _ eq_refl (answeringWorld_rasterOk _)) _)).
  - discriminate.
  - vm_compute. reflexivity.
Defined.

(** X16.  In code mode [vibe3DCode] ends whenever the outside answers:
    when every awaited call of the host and of the service (the export,
    the encoding, the request, the reading of its body) returns or
    throws, the call returns or throws, because its wait on the event
    stream cannot stay pending.  None of these calls has a time limit: a
    request that is never answered leaves the call pending, with nothing
    deleted and, for a call without element id, the empty preview element
    on the canvas. *)
Theorem vibe3DCode_code_mode_always_ends (w : world)
    (shapeId : option TLShapeId) (ed : editor) :
  (answers w -> fst (vibe3DCode w shapeId false ed) <> Pends) /\
  (forall b dataUrl,
     getSelectedShapes w <> [] -> getSelectionPageBounds w = Some b ->
     rasterOk w dataUrl -> fetch w queue3dUrl = Pends ->
     let r := vibe3DCode w shapeId false ed in
     fst r = Pends /\
     trace (snd r) = trace (afterRaster w shapeId b ed) ++ [Fetch queue3dUrl] /\
     (shapeId = None ->
      shapes (snd r) !! createShapeId w
      = Some (previewShape (createShapeId w) b (getSelectedShapes w)))).
Proof.
  split.
  - intros Hans.
    destruct (vibe3DCode_cases w shapeId false ed) as [(e & Hr) | (b & Hr)].
    { rewrite Hr. discriminate. }
    cbv zeta in Hr. destruct Hr as [(e & Hr) | [Hr | [[_ Hr] | Hr]]];
      try (rewrite Hr; discriminate); [contradiction|].
    rewrite Hr. unfold tryCatch.
    pose proof (submit_code_ends w (targetOf w shapeId)
                  (afterRaster w shapeId b ed) Hans) as H.
    destruct (vibe3DCode_submit w (targetOf w shapeId) false
                (afterRaster w shapeId b ed)) as [[[] | e |] ed2];
      cbn [fst] in *; try discriminate. contradiction.
  - intros b dataUrl Hsel Hb Hraster Hfetch r. unfold r.
    rewrite (vibe3DCode_rasterized w shapeId false ed b dataUrl Hsel Hb Hraster).
    unfold tryCatch, vibe3DCode_submit. task_unfold. rewrite Hfetch.
    cbn [fst snd shapes trace].
    split; [reflexivity|]. split; [reflexivity|].
    intros ->. unfold afterRaster. cbn [shapes]. apply lookup_insert_eq.
Qed.

Lemma vibe3DCode_code_mode_always_ends_witness :
  fst (vibe3DCode (answeringWorld longSceneDone) None false emptyEditor) <> Pends.
Proof.
  refine (proj1 (vibe3DCode_code_mode_always_ends (answeringWorld longSceneDone)
                   None emptyEditor) _).
  repeat split; try discriminate. intros resp H. injection H as <-. discriminate.
Defined.

(** X17.  In thinking mode [vibe3DCode] can wait for ever and leave its
    placeholder behind: when the model service accepts the task and the
    socket is then closed from the other side before a terminal message,
    the call neither returns nor throws, nothing is updated or deleted,
    and the editor stays as it was when the request was sent, with the
    socket opened; for a call without element id the empty preview
    element stays on the canvas. *)
Theorem closed_socket_leaves_placeholder (w : world) (shapeId : option TLShapeId)
    (ed : editor) (b : bounds) (dataUrl : jsstring) (body : jsonBody)
    (taskId : option jsstring) (pre post : list (N * event)) (t : N) :
  getSelectedShapes w <> [] ->
  getSelectionPageBounds w = Some b ->
  rasterOk w dataUrl ->
  accepted w trellisUrl body ->
  data_task_id body = Some taskId ->
  channel w (socketUrl taskId) = pre ++ (t, SocketClosed) :: post ->
  Forall (fun a => fst a < timeoutMs TaskResult /\
                   passedOver TaskResult (snd a) = true) pre ->
  t < timeoutMs TaskResult ->
  let r := vibe3DCode w shapeId true ed in
  let start := afterRaster w shapeId b ed in
  fst r = Pends /\
  shapes (snd r) = shapes start /\
  trace (snd r) = trace start ++ [Fetch trellisUrl; OpenWebSocket (socketUrl taskId)] /\
  (shapeId = None ->
   shapes (snd r) !! createShapeId w
   = Some (previewShape (createShapeId w) b (getSelectedShapes w))).
Proof.
  intros Hsel Hb Hraster Hacc Htid Hch Hpre Ht r start.
  assert (Hr : r = (Pends,
                    Editor (shapes start)
                           ((trace start ++ [Fetch trellisUrl])
                            ++ [OpenWebSocket (socketUrl taskId)]))).
  { unfold r.
    rewrite (vibe3DCode_rasterized w shapeId true ed b dataUrl Hsel Hb Hraster).
    unfold tryCatch. rewrite (submit_model w _ _ body taskId Hacc Htid). cbv zeta.
    rewrite Hch, (proj1 (stranded_run pre post t Hpre Ht)). reflexivity. }
  rewrite Hr. cbn [fst snd shapes trace].
  split; [reflexivity|]. split; [reflexivity|].
  split; [rewrite <- app_assoc; reflexivity|].
  intros ->. unfold start, afterRaster. cbn [shapes]. apply lookup_insert_eq.
Qed.

Lemma closed_socket_leaves_placeholder_witness :
  fst (vibe3DCode hangingWorld None true emptyEditor) = Pends.
Proof.
  refine (proj1 (closed_socket_leaves_placeholder hangingWorld None emptyEditor
                   sampleBounds (js "data:image/png;base64,AAAA")
                   (JsonBody None (Some (js "t1")) (Some (Some (js "t1"))))
                   (Some (js "t1")) [(10, Opened)] [] 2000
                   _ eq_refl _ _ eq_refl eq_refl _ eq_refl)).
  - discriminate.
  - exists 0, (Some 0). repeat split.
  - eexists. repeat split.
  - repeat constructor.
Defined.

(* ===================================================================== *)
(** ** Runs of [edit3DCode] beyond the claims *)
(* ===================================================================== *)

Lemma codeEditing_settles arrivals :
  promise (runWait CodeEditing arrivals) <> Pending.
Proof. apply (sse_runWait_over CodeEditing arrivals eq_refl). Qed.

Ltac edit_leaf :=
  cbn [fst snd shapes trace];
  first [ exists []; split; [symmetry; apply app_nil_r|]
        | eexists; split; [rewrite <- ?app_assoc; reflexivity|] ];
  split; [repeat constructor|];
  split; [reflexivity|]; split; [reflexivity|];
  first [ split; reflexivity
        | split; [reflexivity|]; eexists; reflexivity ].

Lemma edit_body_outcome (w : world) (ed : editor) :
  editOutcome ed (edit3DCode_body w ed).
Proof.
  unfold editOutcome, edit3DCode_body, waitForCodeEditing.
  destruct (length (getSelectedShapes w) =? 0)%nat; [edit_leaf|].
  destruct (List.filter isModel3d (getSelectedShapes w)) as [|m [|m2 ms]];
    [edit_leaf| |edit_leaf].
  destruct (length (List.filter _ (getSelectedShapes w)) =? 0)%nat; [edit_leaf|].
  destruct (negb (truthy (threeJsCode (props m))) || _); [edit_leaf|].
  task_unfold.
  destruct (getSvg w _) as [[svg|]|e|]; try edit_leaf.
  cbv beta iota.
  destruct (getSvgAsImage w svg) as [[blob|]|e|]; try edit_leaf.
  cbv beta iota.
  destruct (blobToBase64 w _) as [dataUrl|e|]; try edit_leaf.
  cbv beta iota.
  destruct (fetch w queueEditUrl) as [resp|e|]; try edit_leaf.
  cbv beta iota.
  destruct (ok resp); destruct (json resp) as [body|e|]; try edit_leaf.
  cbv beta iota.
  destruct (promise (runWait CodeEditing _)) as [|v|e]; try edit_leaf.
  destruct v as [| | s | [|c s] | im wd ht]; try edit_leaf.
  destruct (length (processThreeJsCode (c :: s)) <? 100)%nat; edit_leaf.
Qed.

(** The body ends whenever the outside answers: its wait cannot stay
    pending. *)
Lemma edit_body_ends (w : world) (ed : editor) :
  answers w -> fst (edit3DCode_body w ed) <> Pends.
Proof.
  intros (Hsvg & Himg & Hurl & Hans).
  destruct (Hans queueEditUrl) as [Hfetch Hjson].
  unfold edit3DCode_body, waitForCodeEditing.
  destruct (length (getSelectedShapes w) =? 0)%nat; [discriminate|].
  destruct (List.filter isModel3d (getSelectedShapes w)) as [|m [|m2 ms]];
    try discriminate.
  destruct (length (List.filter _ (getSelectedShapes w)) =? 0)%nat; [discriminate|].
  destruct (negb (truthy (threeJsCode (props m))) || _); [discriminate|].
  task_unfold.
  match goal with |- context [getSvg w ?l] =>
    specialize (Hsvg l); destruct (getSvg w l) as [[svg|]|e|]
  end; try discriminate; try contradiction.
  cbv beta iota.
  specialize (Himg svg).
  destruct (getSvgAsImage w svg) as [[blob|]|e|]; try discriminate;
    try contradiction.
  cbv beta iota.
  specialize (Hurl (Some blob)).
  destruct (blobToBase64 w _) as [dataUrl|e|]; try discriminate; try contradiction.
  cbv beta iota.
  destruct (fetch w queueEditUrl) as [resp|e|]; try discriminate; try contradiction.
  specialize (Hjson resp eq_refl). cbv beta iota.
  destruct (ok resp); destruct (json resp) as [body|e|]; try discriminate;
    try contradiction.
  cbv beta iota.
  pose proof (codeEditing_settles
                (channel w (js "http://localhost:8001/api/subscribe/"
                            ++ showId (task_id body)))) as Hs.
  destruct (promise (runWait CodeEditing _)) as [|v|e];
    [contradiction| |discriminate].
  destruct v as [| | s | [|c s] | im wd ht]; try discriminate.
  destruct (length (processThreeJsCode (c :: s)) <? 100)%nat; discriminate.
Qed.

(** Whether a piece of code has ended. *)
Lemma ended_cases {A} (o : outcome A) :
  o = Pends \/ o <> Pends.
Proof. destruct o; [right|right|left]; congruence. Qed.

(** [edit3DCode] is its body between the two calls of [setIsEditing]; the
    second call is made when the body has ended. *)
Lemma edit3DCode_bracket (w : world) (cb : bool) (ed : editor) :
  let ed0 := if cb then Editor (shapes ed) (trace ed ++ [SetIsEditing true])
             else ed in
  let r := edit3DCode_body w ed0 in
  edit3DCode w cb ed
  = (fst r,
     match fst r with
     | Pends => snd r
     | _ => if cb then Editor (shapes (snd r)) (trace (snd r) ++ [SetIsEditing false])
            else snd r
     end).
Proof.
  intros ed0 r.
  unfold edit3DCode, tryFinally, tryCatch. task_unfold.
  destruct cb; cbn [fst snd]; fold ed0; fold r;
    destruct r as [[i | e |] ed1]; reflexivity.
Qed.

(** X18.  [edit3DCode] resets the editing flag exactly when it ends.  On
    every run, whatever the selection, the export and the service do: when
    the [setIsEditing] callback is given, it is called with [true] before
    anything else, and with [false] after everything else once the call
    has returned or thrown; a call that is left pending has not reset the
    flag; without the callback the flag is never touched.  The call ends
    whenever every awaited call of the host and of the service returns or
    throws, because its wait cannot stay pending; none of these calls has
    a time limit. *)
Theorem edit3DCode_always_resets_flag (w : world) (cb : bool) (ed : editor) :
  let r := edit3DCode w cb ed in
  (answers w -> fst r <> Pends) /\
  exists work,
    Forall (fun e => isWork e = true) work /\
    trace (snd r)
    = trace ed ++ (if cb then [SetIsEditing true] else []) ++ work
               ++ (match fst r with
                   | Pends => []
                   | _ => if cb then [SetIsEditing false] else []
                   end).
Proof.
  intros r. unfold r. rewrite edit3DCode_bracket. cbv zeta.
  match goal with |- context [edit3DCode_body w ?e] =>
    pose proof (edit_body_ends w e) as Hp;
    destruct (edit_body_outcome w e) as (work & Htr & Hwork & _);
    destruct (edit3DCode_body w e) as [o ed1]
  end.
  cbn [fst snd] in *. split; [exact Hp|]. exists work. split; [exact Hwork|].
  destruct o, cb; cbn [trace]; rewrite Htr; cbn [trace];
    rewrite <- ?app_assoc, ?app_nil_r; reflexivity.
Qed.

Lemma edit3DCode_always_resets_flag_witness :
  fst (edit3DCode (editingWorld (Named (js "complete") (Json longSceneDone)))
                  true emptyEditor) <> Pends.
Proof.
  refine (proj1 (edit3DCode_always_resets_flag
                   (editingWorld (Named (js "complete") (Json longSceneDone)))
                   true emptyEditor) _).
  repeat split; try discriminate. intros resp H. injection H as <-. discriminate.
Defined.

(** X19.  [edit3DCode] changes at most the code of one shape, and only
    when it succeeds: on every run it creates no shape and deletes none; a
    call that throws leaves every shape exactly as it was; a call that
    returns [i] has changed the shape [i] alone, and of this shape only
    the scene code ([gltfUrl], [isGltf] and the bound selection are as
    before). *)
Theorem edit3DCode_changes_code_only (w : world) (cb : bool) (ed : editor) :
  let r := edit3DCode w cb ed in
  List.filter isCreate (trace (snd r)) = List.filter isCreate (trace ed) /\
  List.filter isDelete (trace (snd r)) = List.filter isDelete (trace ed) /\
  match fst r with
  | Returned i =>
      exists code,
        shapes (snd r) = alter (withEditedCode code) i (shapes ed) /\
        forall s, gltfUrl (props (withEditedCode code s)) = gltfUrl (props s) /\
                  isGltf (props (withEditedCode code s)) = isGltf (props s) /\
                  selectedShapesProp (props (withEditedCode code s))
                  = selectedShapesProp (props s) /\
                  threeJsCode (props (withEditedCode code s)) = Some code
  | _ =>
      shapes (snd r) = shapes ed /\
      List.filter isUpdate (trace (snd r)) = List.filter isUpdate (trace ed)
  end.
Proof.
  intros r. unfold r. rewrite edit3DCode_bracket. cbv zeta.
  match goal with |- context [edit3DCode_body w ?e] =>
    destruct (edit_body_outcome w e) as (work & Htr & _ & Hcr & Hdel & Hout);
    assert (Hsh0 : shapes e = shapes ed) by (destruct cb; reflexivity);
    assert (Htr0 : forall keep, keep (SetIsEditing true) = false ->
                     List.filter keep (trace e) = List.filter keep (trace ed))
      by (intros keep Hk; destruct cb; cbn [trace];
          rewrite ?filter_app_single, ?Hk, ?app_nil_r; reflexivity);
    destruct (edit3DCode_body w e) as [o ed1]
  end.
  cbn [fst snd] in *.
  set (ed2 := match o with
              | Pends => ed1
              | _ => if cb then Editor (shapes ed1) (trace ed1 ++ [SetIsEditing false])
                     else ed1
              end).
  assert (Hfin : forall keep, keep (SetIsEditing false) = false ->
            List.filter keep (trace ed2) = List.filter keep (trace ed1)).
  { intros keep Hk. unfold ed2. destruct o, cb; cbn [trace];
      rewrite ?filter_app_single, ?Hk, ?app_nil_r; reflexivity. }
  assert (Hshf : shapes ed2 = shapes ed1) by (unfold ed2; destruct o, cb; reflexivity).
  rewrite !Hfin, Hshf, Htr, !List.filter_app, Hcr, Hdel, !app_nil_r, !Htr0
    by reflexivity.
  split; [reflexivity|]. split; [reflexivity|].
  destruct o as [i | e |].
  - destruct Hout as (_ & code & Hsh). exists code. rewrite Hsh, Hsh0.
    split; [reflexivity|]. intros s. repeat split.
  - destruct Hout as (Hup & Hsh). rewrite Hsh, Hsh0, Hup, app_nil_r. auto.
  - destruct Hout as (Hup & Hsh). rewrite Hsh, Hsh0, Hup, app_nil_r. auto.
Qed.

Lemma edit_body_validated (w : world) (m : shape) (ed : editor) :
  validEdit w m -> edit3DCode_body w ed = editDecision w m ed.
Proof.
  intros (Hm & Hg & code & Hcode & Hlen).
  unfold edit3DCode_body, editDecision, waitForCodeEditing, subscribeUrl.
  unfold models in Hm. unfold guides in *. rewrite Hm.
  assert (Hsel : (length (getSelectedShapes w) =? 0)%nat = false).
  { destruct (getSelectedShapes w); [discriminate Hm|reflexivity]. }
  rewrite Hsel, (nonempty_length _ Hg), Hcode.
  assert (Hok : negb (truthy (Some code)) || (length (orElse (Some code) []) <? 10)%nat
                = false).
  { destruct code as [|x s]; [simpl in Hlen; lia|]. simpl negb. simpl orElse.
    apply Nat.ltb_ge. exact Hlen. }
  rewrite Hok. task_unfold.
  destruct (getSvg w _) as [[svg|]|e|]; try reflexivity. cbv beta iota.
  destruct (getSvgAsImage w svg) as [[blob|]|e|]; try reflexivity. cbv beta iota.
  destruct (blobToBase64 w _) as [dataUrl|e|]; try reflexivity. cbv beta iota.
  destruct (fetch w queueEditUrl) as [resp|e|]; try reflexivity. cbv beta iota.
  destruct (ok resp); destruct (json resp) as [body|e|]; try reflexivity.
  cbv beta iota.
  destruct (promise (runWait CodeEditing _)) as [|v|e]; try reflexivity.
  destruct v as [| | s | [|c s] | im wd ht]; try reflexivity.
  cbv zeta.
  destruct (length (processThreeJsCode (c :: s)) <? 100)%nat; reflexivity.
Qed.

Lemma editingWorld_valid ev : validEdit (editingWorld ev) model.
Proof.
  split; [reflexivity|]. split; [discriminate|].
  exists (js "scene.add(mesh);"). split; [reflexivity|]. vm_compute. lia.
Qed.

Lemma editingWorld_exported ev :
  exported (editingWorld ev) (js "data:image/png;base64,AAAA").
Proof. exists 0, 0. repeat split. Qed.

Lemma editingWorld_accepted ev :
  accepted (editingWorld ev) queueEditUrl (JsonBody None (Some (js "t1")) None).
Proof. eexists. repeat split. Qed.

(** The outcome of [edit3DCode] is the outcome of its body. *)
Lemma edit3DCode_fst (w : world) (cb : bool) (ed : editor) :
  exists ed0, shapes ed0 = shapes ed /\
              (forall keep, keep (SetIsEditing true) = false ->
                            List.filter keep (trace ed0) = List.filter keep (trace ed)) /\
              fst (edit3DCode w cb ed) = fst (edit3DCode_body w ed0) /\
              shapes (snd (edit3DCode w cb ed)) = shapes (snd (edit3DCode_body w ed0)) /\
              (forall keep, keep (SetIsEditing false) = false ->
                            List.filter keep (trace (snd (edit3DCode w cb ed)))
                            = List.filter keep (trace (snd (edit3DCode_body w ed0)))).
Proof.
  rewrite edit3DCode_bracket. cbv zeta.
  exists (if cb then Editor (shapes ed) (trace ed ++ [SetIsEditing true]) else ed).
  split; [destruct cb; reflexivity|].
  split; [intros keep Hk; destruct cb; cbn [trace];
          rewrite ?filter_app_single, ?Hk, ?app_nil_r; reflexivity|].
  split; [reflexivity|]. cbn [snd].
  split; [destruct (fst _), cb; reflexivity|].
  intros keep Hk; destruct (fst _), cb; cbn [trace];
    rewrite ?filter_app_single, ?Hk, ?app_nil_r; reflexivity.
Qed.

(** X20.  The success path of [edit3DCode]: when the selection passes the
    checks, the guiding shapes are exported, the queue accepts the request
    and the wait resolves with content whose sanitized form has at least
    100 characters, the call returns the id of the model, after one
    export, one request and one event stream, and stores the sanitized
    code in the model. *)
Theorem edit3DCode_stores_edited_code (w : world) (cb : bool) (ed : editor)
    (m : shape) (dataUrl : jsstring) (body : jsonBody) (c : jsstring) :
  validEdit w m -> exported w dataUrl -> accepted w queueEditUrl body ->
  promise (runWait CodeEditing (channel w (subscribeUrl (task_id body))))
  = Fulfilled (VContent c) ->
  (100 <= length (processThreeJsCode c))%nat ->
  let r := edit3DCode w cb ed in
  let code := processThreeJsCode c in
  fst r = Returned (id m) /\
  shapes (snd r) = alter (withEditedCode code) (id m) (shapes ed) /\
  List.filter isWork (trace (snd r))
  = List.filter isWork (trace ed)
    ++ [ExportSvg (map id (guides w)); Fetch queueEditUrl;
        OpenEventSource (subscribeUrl (task_id body)); UpdateShape (id m)].
Proof.
  intros Hv (svg & blob & Hsvg & Hblob & Hurl) (resp & Hfetch & Hok & Hjson)
         Hwait Hlong r code.
  assert (Hc : exists x s, c = x :: s).
  { destruct c as [|x s]; [|eauto].
    pose proof (processThreeJsCode_length []) as H.
    change (length (@nil N)) with 0%nat in H. lia. }
  destruct Hc as (x & s & ->).
  destruct (edit3DCode_fst w cb ed) as (ed0 & Hsh0 & Htr0 & Hfst & Hsh & Htr).
  unfold r. rewrite Hfst, Hsh, (Htr isWork eq_refl).
  rewrite (edit_body_validated w m ed0 Hv). unfold editDecision.
  rewrite Hsvg, Hblob, Hurl, Hfetch, Hok, Hjson. cbv zeta. rewrite Hwait.
  apply Nat.ltb_ge in Hlong. rewrite Hlong. cbn [fst snd shapes trace].
  rewrite Hsh0. split; [reflexivity|]. split; [reflexivity|].
  rewrite !filter_app_single. cbn [isWork].
  rewrite (Htr0 isWork eq_refl), <- !app_assoc. reflexivity.
Qed.

Lemma edit3DCode_stores_edited_code_witness :
  fst (edit3DCode (editingWorld (Named (js "complete") (Json longSceneDone)))
                  true emptyEditor)
  = Returned (id model).
Proof.
  refine (proj1 (edit3DCode_stores_edited_code
                   (editingWorld (Named (js "complete") (Json longSceneDone)))
                   true emptyEditor model (js "data:image/png;base64,AAAA")
                   (JsonBody None (Some (js "t1")) None) (List.repeat 120 120%nat)
                   (editingWorld_valid _) (editingWorld_exported _)
                   (editingWorld_accepted _) eq_refl _)).
  apply Nat.leb_le. vm_compute. reflexivity.
Defined.

(** X21.  The errors of [edit3DCode] after its checks, each with its own
    text.  Unlike [vibe3DCode], the export is checked: a missing SVG
    throws [Could not generate SVG from selected shapes.] and a missing
    image [Could not generate image from SVG.], both before any request
    is sent.  A non-OK answer with a JSON body throws the API error
    before any channel is opened.  A wait that resolves with [null]
    throws [No code was generated from the edit], and one that resolves
    with content shorter than 100 characters throws
    [Could not generate edited 3D model code.]. *)
Theorem edit3DCode_fails_after_checks (w : world) (cb : bool) (ed : editor)
    (m : shape) :
  validEdit w m ->
  let r := edit3DCode w cb ed in
  (getSvg w (guides w) = Returned None ->
   fst r = Threw (js "Could not generate SVG from selected shapes.") /\
   List.filter isFetch (trace (snd r)) = List.filter isFetch (trace ed)) /\
  (forall svg, getSvg w (guides w) = Returned (Some svg) ->
               getSvgAsImage w svg = Returned None ->
   fst r = Threw (js "Could not generate image from SVG.") /\
   List.filter isFetch (trace (snd r)) = List.filter isFetch (trace ed)) /\
  (forall dataUrl resp errorData,
     exported w dataUrl -> fetch w queueEditUrl = Returned resp ->
     ok resp = false -> json resp = Returned errorData ->
     fst r = Threw (apiError errorData resp) /\
     List.filter isOpen (trace (snd r)) = List.filter isOpen (trace ed)) /\
  (forall dataUrl body,
     exported w dataUrl -> accepted w queueEditUrl body ->
     let waited := promise (runWait CodeEditing
                              (channel w (subscribeUrl (task_id body)))) in
     (waited = Fulfilled VNull ->
      fst r = Threw (js "No code was generated from the edit")) /\
     (forall c, waited = Fulfilled (VContent c) -> c <> [] ->
                (length c < 100)%nat ->
                fst r = Threw (js "Could not generate edited 3D model code."))).
Proof.
  intros Hv r.
  destruct (edit3DCode_fst w cb ed) as (ed0 & Hsh0 & Htr0 & Hfst & Hsh & Htr).
  unfold r. rewrite Hfst, (Htr isFetch eq_refl), (Htr isOpen eq_refl).
  rewrite (edit_body_validated w m ed0 Hv). unfold editDecision.
  split; [|split; [|split]].
  - intros ->. cbn [fst snd trace]. rewrite filter_app_single. cbn [isFetch].
    rewrite app_nil_r, (Htr0 isFetch eq_refl). auto.
  - intros svg -> ->. cbn [fst snd trace]. rewrite filter_app_single. cbn [isFetch].
    rewrite app_nil_r, (Htr0 isFetch eq_refl). auto.
  - intros dataUrl resp errorData (svg & blob & -> & -> & ->) Hf Ho Hj.
    rewrite Hf, Ho, Hj. cbn [fst snd trace]. rewrite !filter_app_single. cbn [isOpen].
    rewrite !app_nil_r, (Htr0 isOpen eq_refl). auto.
  - intros dataUrl body (svg & blob & -> & -> & ->) (resp & Hf & Ho & Hj).
    rewrite Hf, Ho, Hj. cbv zeta. split.
    + intros ->. reflexivity.
    + intros c -> Hne Hc. destruct c as [|x s]; [contradiction|].
      assert (Hshort : (length (processThreeJsCode (x :: s)) <? 100)%nat = true).
      { apply Nat.ltb_lt. pose proof (processThreeJsCode_length (x :: s)). lia. }
      rewrite Hshort. reflexivity.
Qed.

Lemma edit3DCode_fails_after_checks_witness :
  fst (edit3DCode (editingWorld (Named (js "complete") (Json sceneDone)))
                  true emptyEditor)
  = Threw (js "Could not generate edited 3D model code.").
Proof.
  refine (proj2 (proj2 (proj2 (proj2 (edit3DCode_fails_after_checks
            (editingWorld (Named (js "complete") (Json sceneDone)))
            true emptyEditor model (editingWorld_valid _))))
            (js "data:image/png;base64,AAAA")
            (JsonBody None (Some (js "t1")) None)
            (editingWorld_exported _) (editingWorld_accepted _))
            (js "scene") eq_refl _ _).
  - discriminate.
  - vm_compute. lia.
Defined.

(* ===================================================================== *)
(** ** Runs of [improveDrawing] *)
(* ===================================================================== *)

Lemma imageValue_handler (h : Handler) (st : waitState) :
  In h [mret tt; sse_onerror; clearTimer;
        sse_timer "Image generation timed out"] \/
  (exists d, h = imageGeneration_complete d \/ h = imageGeneration_error d) ->
  imageValue (promise st) -> imageValue (promise (execEff h st)).
Proof.
  intros Hh Hp. destruct st as [k p s sc r c cc t]. simpl in Hp.
  destruct Hh as [Hh | (d & [-> | ->])].
  - simpl in Hh. destruct Hh as [<- | [<- | [<- | [<- | []]]]];
      handlers; effsimpl; destruct p; simpl; branches; simpl; auto.
  - destruct d as [pl|exn]; handlers; effsimpl; destruct p; simpl; branches;
      simpl; auto.
  - destruct d as [pl|exn]; handlers; effsimpl; destruct p; simpl; branches;
      simpl; auto.
Qed.

Lemma imageValue_listeners ev h :
  In h (listeners ImageGeneration ev) ->
  In h [mret tt; sse_onerror; clearTimer;
        sse_timer "Image generation timed out"] \/
  (exists d, h = imageGeneration_complete d \/ h = imageGeneration_error d).
Proof.
  destruct ev as [d | ty d | | | ]; cbn [listeners];
    repeat match goal with
    | |- context [jsEqb ?t ?a] => destruct (jsEqb t a)
    end;
    simpl; intros H;
    repeat match goal with
    | H : _ \/ _ |- _ => destruct H as [H | H]
    | H : False |- _ => destruct H
    end; subst; eauto 10.
Qed.

Lemma imageValue_runListeners hs st :
  (forall h, In h hs ->
     In h [mret tt; sse_onerror; clearTimer;
           sse_timer "Image generation timed out"] \/
     (exists d, h = imageGeneration_complete d \/ h = imageGeneration_error d)) ->
  imageValue (promise st) -> imageValue (promise (runListeners hs st)).
Proof.
  revert st. induction hs as [|h hs IH]; intros st Hhs Hp; [exact Hp|].
  change (runListeners (h :: hs) st) with (runListeners hs (execEff h st)).
  apply IH; [intros h' Hin; apply Hhs; right; exact Hin|].
  apply imageValue_handler; [apply Hhs; left; reflexivity | exact Hp].
Qed.

Lemma imageValue_deliver st ev :
  imageValue (promise st) -> imageValue (promise (deliver ImageGeneration st ev)).
Proof.
  intros Hp. unfold deliver.
  destruct ev; try (destruct (inService st); [|exact Hp]);
    try (destruct (ready st)); try (destruct (kind st));
    try exact Hp;
    (apply imageValue_runListeners;
     [intros h; apply imageValue_listeners | exact Hp]).
Qed.

Lemma imageValue_deliverAll evs st :
  imageValue (promise st) ->
  imageValue (promise (deliverAll ImageGeneration evs st)).
Proof.
  revert st. induction evs as [|ev evs IH]; intros st Hp; [exact Hp|].
  apply IH, imageValue_deliver, Hp.
Qed.

(** The image wait ends rejected, or resolved with an image or [null]. *)
Lemma imageGeneration_result arrivals :
  let p := promise (runWait ImageGeneration arrivals) in
  p <> Pending /\ imageValue p.
Proof.
  split; [apply (sse_runWait_over ImageGeneration arrivals eq_refl)|].
  unfold runWait. apply imageValue_deliverAll. unfold fireTimer.
  match goal with |- context [timerArmed ?s] =>
    assert (Hs : imageValue (promise s)) by (apply imageValue_deliverAll; exact I);
    destruct (timerArmed s)
  end; [|exact Hs].
  simpl timerCallback.
  apply imageValue_handler; [left; simpl; auto|].
  apply imageValue_handler; [left; simpl; auto|exact Hs].
Qed.

Ltac canvas_unfold :=
  unfold onHost, createAssets, createImageShape, select; task_unfold.

Lemma improveDrawing_decides (w : world) (a : N) (c : canvas) :
  improveDrawing w a c = improveDecision w a c.
Proof.
  unfold improveDrawing, improveDecision, waitForImageGeneration, guides,
         subscribeUrl.
  destruct c as [[sh tr] ast pics sel]. cbn [host shapes trace assets pictures selection].
  destruct (length (getSelectedShapes w) =? 0)%nat; [reflexivity|].
  destruct (length (List.filter _ (getSelectedShapes w)) =? 0)%nat; [reflexivity|].
  canvas_unfold. cbn [host shapes trace assets pictures selection].
  destruct (getSvg w _) as [[svg|]|e|]; try reflexivity. cbv beta iota.
  destruct (getSvgAsImage w svg) as [[blob|]|e|]; try reflexivity. cbv beta iota.
  destruct (blobToBase64 w _) as [dataUrl|e|]; try reflexivity. cbv beta iota.
  unfold tryCatch. cbn [host shapes trace assets pictures selection].
  destruct (fetch w queueImageUrl) as [resp|e|];
    try (rewrite <- ?app_assoc; reflexivity).
  cbv beta iota.
  destruct (ok resp); destruct (json resp) as [body|e|];
    try (rewrite <- ?app_assoc; reflexivity).
  cbv beta iota. cbn [host shapes trace assets pictures selection].
  destruct (promise (runWait ImageGeneration _)) as [|v|e];
    try (rewrite <- ?app_assoc; reflexivity).
  destruct v as [| | s | s | im wd ht]; try (rewrite <- ?app_assoc; reflexivity).
  destruct (getSelectionPageBounds w) as [b|];
    rewrite <- ?app_assoc; reflexivity.
Qed.

Lemma imagingWorld_queued p :
  imageQueued (imagingWorld p) (JsonBody None (Some (js "t1")) None).
Proof.
  split; [discriminate|]. split.
  - exists (js "data:image/png;base64,AAAA"), 0, 0. repeat split.
  - eexists. repeat split.
Qed.

(** X22.  [improveDrawing] checks before it sends anything, each failure
    with its own text: no selection throws
    [First select something to improve.] and a selection of preview
    elements only [No drawable shapes selected.], both before anything
    else happens; an export that yields no SVG throws
    [Could not generate SVG from selection.] and one that yields no image
    [Could not generate image from SVG.], both before any request.  In
    all four cases no asset and no shape is created and the selection is
    as before. *)
Theorem improveDrawing_checks_first (w : world) (a : N) (c : canvas) :
  let r := improveDrawing w a c in
  (getSelectedShapes w = [] ->
   r = (Threw (js "First select something to improve."), c)) /\
  (getSelectedShapes w <> [] -> guides w = [] ->
   r = (Threw (js "No drawable shapes selected."), c)) /\
  (guides w <> [] -> getSvg w (guides w) = Returned None ->
   fst r = Threw (js "Could not generate SVG from selection.") /\
   sameCanvas c (snd r) /\
   List.filter isFetch (trace (host (snd r))) = List.filter isFetch (trace (host c)))
  /\
  (forall svg, guides w <> [] -> getSvg w (guides w) = Returned (Some svg) ->
               getSvgAsImage w svg = Returned None ->
   fst r = Threw (js "Could not generate image from SVG.") /\
   sameCanvas c (snd r) /\
   List.filter isFetch (trace (host (snd r))) = List.filter isFetch (trace (host c))).
Proof.
  intros r. unfold r. rewrite improveDrawing_decides. unfold improveDecision.
  assert (Hsel : guides w <> [] -> (length (getSelectedShapes w) =? 0)%nat = false).
  { unfold guides. destruct (getSelectedShapes w); [intros H; contradiction H|];
      reflexivity. }
  split; [intros ->; reflexivity|].
  split; [intros H1 H2; rewrite (nonempty_length _ H1), H2; reflexivity|].
  split.
  - intros Hg Hsvg. rewrite (Hsel Hg), (nonempty_length _ Hg), Hsvg.
    cbn [fst snd host trace]. rewrite filter_app_single. cbn [isFetch].
    rewrite app_nil_r. repeat split.
  - intros svg Hg Hsvg Hblob.
    rewrite (Hsel Hg), (nonempty_length _ Hg), Hsvg, Hblob.
    cbn [fst snd host trace]. rewrite filter_app_single. cbn [isFetch].
    rewrite app_nil_r. repeat split.
Qed.

Lemma improveDrawing_checks_first_witness :
  improveDrawing onlyModelWorld 9 emptyCanvas
  = (Threw (js "No drawable shapes selected."), emptyCanvas).
Proof.
  refine (proj1 (proj2 (improveDrawing_checks_first onlyModelWorld 9 emptyCanvas))
            _ eq_refl).
  discriminate.
Defined.

(** X23.  The success path of [improveDrawing]: when the drawable shapes
    are exported, the queue accepts the image and the wait resolves with
    an image, the call creates one image asset whose source is the data
    URL of the image, then one image shape of the size of the image that
    refers to this asset and is placed at [maxX + 60] and
    [maxY - 300] of the selection bounds, both computed in double
    precision, selects this shape and returns its id.  No other shape is
    touched. *)
Theorem improveDrawing_adds_image (w : world) (a : N) (c : canvas)
    (body : jsonBody) (b : bounds) (image : jsstring) (wd ht : float) :
  imageQueued w body ->
  promise (runWait ImageGeneration (channel w (subscribeUrl (task_id body))))
  = Fulfilled (VImage image wd ht) ->
  getSelectionPageBounds w = Some b ->
  let r := improveDrawing w a c in
  let picture := ImageShape (createShapeId w) (maxX b + 60)%float (maxY b - 300)%float
                            a wd ht in
  fst r = Returned (createShapeId w) /\
  assets (snd r) = assets c ++ [improvedAsset a image wd ht] /\
  assetSrc (improvedAsset a image wd ht) = js "data:image/png;base64," ++ image /\
  pictures (snd r) = pictures c ++ [picture] /\
  selection (snd r) = [createShapeId w] /\
  shapes (host (snd r)) = shapes (host c) /\
  trace (host (snd r))
  = trace (host c) ++ [ExportSvg (map id (guides w)); Fetch queueImageUrl;
                       OpenEventSource (subscribeUrl (task_id body))].
Proof.
  intros (Hg & (dataUrl & svg & blob & Hsvg & Hblob & Hurl)
          & (resp & Hfetch & Hok & Hjson)) Hwait Hb r picture.
  unfold r. rewrite improveDrawing_decides. unfold improveDecision.
  assert (Hsel : (length (getSelectedShapes w) =? 0)%nat = false).
  { unfold guides in Hg. destruct (getSelectedShapes w); [contradiction Hg|];
      reflexivity. }
  rewrite Hsel, (nonempty_length _ Hg), Hsvg, Hblob, Hurl, Hfetch, Hok, Hjson.
  cbv zeta. rewrite Hwait, Hb. cbn [fst snd host assets pictures selection shapes trace].
  repeat split.
Qed.

Lemma improveDrawing_adds_image_witness :
  fst (improveDrawing (imagingWorld imageDone) 9 emptyCanvas) = Returned 7.
Proof.
  exact (proj1 (improveDrawing_adds_image (imagingWorld imageDone) 9 emptyCanvas
                  (JsonBody None (Some (js "t1")) None) sampleBounds
                  (js "AAAA") 640 500 (imagingWorld_queued _) eq_refl eq_refl)).
Defined.

(** X24.  [improveDrawing] adds its image all at once or not at all, on
    every run: whenever the outside answers every awaited call, the call
    ends (its wait cannot be left pending); it never changes an existing
    shape; when it throws, and when it is left waiting for the outside, no
    asset and no image shape has been created and the selection is as
    before; when it returns [i], exactly one asset and one image shape
    with id [i] that refers to this asset have been added, and [i] is
    selected. *)
Theorem improveDrawing_all_or_nothing (w : world) (a : N) (c : canvas) :
  let r := improveDrawing w a c in
  (answers w -> fst r <> Pends) /\
  shapes (host (snd r)) = shapes (host c) /\
  match fst r with
  | Returned i =>
      exists asset picture,
        assets (snd r) = assets c ++ [asset] /\
        pictures (snd r) = pictures c ++ [picture] /\
        imageId picture = i /\ imageAssetId picture = assetId asset /\
        selection (snd r) = [i]
  | _ => sameCanvas c (snd r)
  end.
Proof.
  intros r. unfold r. rewrite improveDrawing_decides. unfold improveDecision.
  destruct (length (getSelectedShapes w) =? 0)%nat;
    [repeat split; discriminate|].
  destruct (length (guides w) =? 0)%nat; [repeat split; discriminate|].
  destruct (getSvg w (guides w)) as [[svg|]|e|] eqn:Esvg;
    try (repeat split; discriminate);
    try (repeat split; intros (H & _); exfalso; exact (H _ Esvg)).
  destruct (getSvgAsImage w svg) as [[blob|]|e|] eqn:Eblob;
    try (repeat split; discriminate);
    try (repeat split; intros (_ & H & _); exfalso; exact (H _ Eblob)).
  destruct (blobToBase64 w _) as [dataUrl|e|] eqn:Eurl;
    try (repeat split; discriminate);
    try (repeat split; intros (_ & _ & H & _); exfalso; exact (H _ Eurl)).
  destruct (fetch w queueImageUrl) as [resp|e|] eqn:Efetch;
    try (repeat split; discriminate);
    try (repeat split; intros (_ & _ & _ & H); exfalso;
         exact (proj1 (H _) Efetch)).
  destruct (ok resp); destruct (json resp) as [body|e|] eqn:Ejson;
    try (repeat split; discriminate);
    try (repeat split; intros (_ & _ & _ & H); exfalso;
         exact (proj2 (H _) _ Efetch Ejson)).
  cbv zeta.
  destruct (imageGeneration_result (channel w (subscribeUrl (task_id body))))
    as [Hp _].
  destruct (promise (runWait ImageGeneration _)) as [|v|e];
    [contradiction| |repeat split; discriminate].
  destruct v as [| | s | s | im wd ht]; try (repeat split; discriminate).
  destruct (getSelectionPageBounds w) as [b|]; [|repeat split; discriminate].
  cbn [fst snd host assets pictures selection shapes].
  split; [discriminate|]. split; [reflexivity|].
  eexists _, _. repeat split.
Qed.

Lemma improveDrawing_all_or_nothing_witness :
  fst (improveDrawing (imagingWorld imageDone) 9 emptyCanvas) <> Pends.
Proof.
  refine (proj1 (improveDrawing_all_or_nothing (imagingWorld imageDone) 9
                   emptyCanvas) _).
  repeat split; try discriminate. intros resp H. injection H as <-. discriminate.
Defined.

(** X25.  The errors of [improveDrawing] after the image was submitted:
    a non-OK answer with a JSON body throws the API error before any
    channel is opened; a wait that is rejected passes its error on; a
    wait that resolves with [null] throws [No image was generated]; and
    an image for which the selection bounds are not available throws
    [Could not determine selection bounds.].  The [catch] block passes
    each error on unchanged. *)
Theorem improveDrawing_fails_after_submission (w : world) (a : N) (c : canvas) :
  guides w <> [] -> (exists dataUrl, exported w dataUrl) ->
  let r := improveDrawing w a c in
  (forall resp errorData,
     fetch w queueImageUrl = Returned resp -> ok resp = false ->
     json resp = Returned errorData ->
     fst r = Threw (apiError errorData resp) /\
     List.filter isOpen (trace (host (snd r)))
     = List.filter isOpen (trace (host c))) /\
  (forall body,
     accepted w queueImageUrl body ->
     let waited := promise (runWait ImageGeneration
                              (channel w (subscribeUrl (task_id body)))) in
     (forall e, waited = Rejected e -> fst r = Threw e) /\
     (waited = Fulfilled VNull -> fst r = Threw (js "No image was generated")) /\
     (forall image wd ht,
        waited = Fulfilled (VImage image wd ht) ->
        getSelectionPageBounds w = None ->
        fst r = Threw (js "Could not determine selection bounds."))).
Proof.
  intros Hg (dataUrl & svg & blob & Hsvg & Hblob & Hurl) r.
  unfold r. rewrite improveDrawing_decides. unfold improveDecision.
  assert (Hsel : (length (getSelectedShapes w) =? 0)%nat = false).
  { unfold guides in Hg. destruct (getSelectedShapes w); [contradiction Hg|];
      reflexivity. }
  rewrite Hsel, (nonempty_length _ Hg), Hsvg, Hblob, Hurl. split.
  - intros resp errorData Hf Ho Hj. rewrite Hf, Ho, Hj.
    cbn [fst snd host trace]. rewrite List.filter_app. simpl List.filter.
    rewrite app_nil_r. auto.
  - intros body (resp & Hf & Ho & Hj). rewrite Hf, Ho, Hj. cbv zeta.
    split; [intros e ->; reflexivity|].
    split; [intros ->; reflexivity|].
    intros image wd ht -> ->. reflexivity.
Qed.

Lemma improveDrawing_fails_after_submission_witness :
  fst (improveDrawing (imagingWorld sceneDone) 9 emptyCanvas)
  = Threw (js "No image was generated").
Proof.
  refine (proj1 (proj2 (proj2 (improveDrawing_fails_after_submission
                    (imagingWorld sceneDone) 9 emptyCanvas _ _)
                  (JsonBody None (Some (js "t1")) None) _)) eq_refl).
  - discriminate.
  - exists (js "data:image/png;base64,AAAA"), 0, 0. repeat split.
  - eexists. repeat split.
Defined.

(* ===================================================================== *)
(** ** The preview element *)
(* ===================================================================== *)

Lemma gltfDocument_shown u : exists c t, gltfDocument u = c :: t.
Proof. eexists _, _. unfold gltfDocument, gltfDocumentBefore. reflexivity. Qed.

Lemma codeDocument_shown code : exists c t, codeDocument code = c :: t.
Proof. eexists _, _. unfold codeDocument, codeDocumentBefore. reflexivity. Qed.

Lemma truthy_orElse o : truthy o = true -> o = Some (orElse o []).
Proof. destruct o as [[|c s]|]; try discriminate. reflexivity. Qed.

(** X26.  The preview element shows the spinner exactly when it has
    nothing to show: the document is empty if and only if the element has
    neither a model file in use ([isGltf] true and a non-empty [gltfUrl])
    nor non-empty scene code, and [component] renders the spinner if and
    only if the document is empty.  A model file in use takes precedence
    over scene code.  The notice over the frame is shown exactly while the
    model is regenerated or edited, and never over the spinner. *)
Theorem preview_shows_spinner_iff_empty (props : shapeProps)
    (isRegenerating isEditingModel : bool) :
  let modelInUse := isTrue (isGltf props) && truthy (gltfUrl props) in
  (htmlToUse props = [] <->
   modelInUse = false /\ truthy (threeJsCode props) = false) /\
  (component props isRegenerating isEditingModel = Spinner <->
   htmlToUse props = []) /\
  (modelInUse = true ->
   htmlToUse props = gltfDocument (orElse (gltfUrl props) [])) /\
  (forall doc notice,
     component props isRegenerating isEditingModel = Frame doc notice ->
     doc = htmlToUse props /\
     (notice = None <-> isRegenerating || isEditingModel = false)).
Proof.
  intros modelInUse. unfold component, htmlToUse. fold modelInUse.
  assert (Hframe : forall c t doc notice,
            Frame (c :: t)
                  (if isRegenerating || isEditingModel
                   then Some (if isRegenerating then js "Regenerating 3D model..."
                              else js "Editing 3D model...")
                   else None) = Frame doc notice ->
            doc = c :: t /\ (notice = None <-> isRegenerating || isEditingModel = false)).
  { intros c t doc notice H. injection H as <- <-. split; [reflexivity|].
    destruct (isRegenerating || isEditingModel); split; congruence. }
  destruct modelInUse.
  - destruct (gltfDocument_shown (orElse (gltfUrl props) [])) as (c & t & ->).
    split; [split; [discriminate|intros [H _]; discriminate H]|].
    split; [split; discriminate|].
    split; [reflexivity|]. apply Hframe.
  - split; [|split; [|split; [discriminate|]]].
    + destruct (truthy (threeJsCode props)).
      * destruct (codeDocument_shown (orElse (threeJsCode props) [])) as (c & t & ->).
        split; [discriminate|intros [_ H]; discriminate H].
      * split; auto.
    + destruct (truthy (threeJsCode props)).
      * destruct (codeDocument_shown (orElse (threeJsCode props) [])) as (c & t & ->).
        split; discriminate.
      * split; reflexivity.
    + destruct (truthy (threeJsCode props)).
      * destruct (codeDocument_shown (orElse (threeJsCode props) [])) as (c & t & ->).
        apply Hframe.
      * intros doc notice H. discriminate H.
Qed.

Lemma preview_shows_spinner_iff_empty_witness :
  htmlToUse (props gltfModel) = gltfDocument (js "model.glb").
Proof.
  exact (proj1 (proj2 (proj2 (preview_shows_spinner_iff_empty (props gltfModel)
                                false false))) eq_refl).
Defined.

(** X27.  What the preview element shows after each orchestrator has
    run.  When [edit3DCode] returns the id of an element that showed a
    model file, the element goes on showing that file.  For [vibe3DCode]
    on a rasterized selection: the element it creates, when called without
    element id, shows the spinner while the chain runs; after a run in
    code mode that stored code, the target shows the document of the
    sanitized code, whatever it showed before; after a run in thinking
    mode whose wait resolved with a non-empty URL, the target shows the
    document of that model file. *)
Theorem preview_after_orchestrators (w : world) (shapeId : option TLShapeId)
    (ed : editor) (b : bounds) (dataUrl : jsstring) (body : jsonBody) :
  let target := targetOf w shapeId in
  let start := afterRaster w shapeId b ed in
  (forall cb i s,
     fst (edit3DCode w cb ed) = Returned i -> shapes ed !! i = Some s ->
     isTrue (isGltf (props s)) && truthy (gltfUrl (props s)) = true ->
     exists s', shapes (snd (edit3DCode w cb ed)) !! i = Some s' /\
                htmlToUse (props s') = htmlToUse (props s)) /\
  (getSelectedShapes w <> [] -> getSelectionPageBounds w = Some b ->
   rasterOk w dataUrl ->
   (shapeId = None ->
    exists s, shapes start !! target = Some s /\ htmlToUse (props s) = [] /\
              component (props s) false false = Spinner) /\
   (forall c s,
      accepted w queue3dUrl body ->
      promise (runWait CodeGeneration (channel w (subscribeUrl (task_id body))))
      = Fulfilled (VContent c) ->
      (100 <= length (processThreeJsCode c))%nat ->
      shapes start !! target = Some s ->
      exists s', shapes (snd (vibe3DCode w shapeId false ed)) !! target = Some s' /\
                 htmlToUse (props s') = codeDocument (processThreeJsCode c) /\
                 component (props s') false false
                 = Frame (codeDocument (processThreeJsCode c)) None) /\
   (forall taskId u s,
      accepted w trellisUrl body -> data_task_id body = Some taskId ->
      promise (runWait TaskResult (channel w (socketUrl taskId)))
      = Fulfilled (VString u) ->
      u <> [] -> shapes start !! target = Some s ->
      exists s', shapes (snd (vibe3DCode w shapeId true ed)) !! target = Some s' /\
                 htmlToUse (props s') = gltfDocument u /\
                 component (props s') false false = Frame (gltfDocument u) None)).
Proof.
  intros target start. split.
  - intros cb i s Hret Hs Hin.
    destruct (edit3DCode_fst w cb ed) as (ed0 & Hsh0 & _ & Hfst & Hsh & _).
    rewrite Hsh. rewrite Hfst in Hret.
    destruct (edit_body_outcome w ed0) as (work & _ & _ & _ & _ & Hout).
    rewrite Hret in Hout. destruct Hout as (_ & code & ->).
    exists (withEditedCode code s).
    rewrite lookup_alter_eq, Hsh0, Hs. split; [reflexivity|].
    unfold htmlToUse, withEditedCode. cbn [props isGltf gltfUrl threeJsCode].
    rewrite Hin. reflexivity.
  - intros Hsel Hb Hraster. split; [|split].
    + intros ->. eexists. split; [apply lookup_insert_eq|].
      split; reflexivity.
    + intros c s Hacc Hwait Hlong Hs.
      assert (Hc : exists x t, processThreeJsCode c = x :: t).
      { destruct (processThreeJsCode c) as [|x t]; [simpl in Hlong; lia|eauto]. }
      assert (Hc0 : exists x t, c = x :: t).
      { destruct c as [|x t]; [|eauto].
        pose proof (processThreeJsCode_length []) as H.
        change (length (@nil N)) with 0%nat in H. lia. }
      destruct Hc0 as (x0 & t0 & ->).
      rewrite (vibe3DCode_rasterized w shapeId false ed b dataUrl Hsel Hb Hraster).
      unfold tryCatch. rewrite (submit_code w _ _ body Hacc). cbv zeta.
      rewrite Hwait. apply Nat.ltb_ge in Hlong. rewrite Hlong.
      cbn [fst snd shapes]. fold target start.
      exists (withCode (processThreeJsCode (x0 :: t0)) s).
      rewrite lookup_alter_eq, Hs. split; [reflexivity|].
      destruct Hc as (x & t & Hc).
      assert (Hdoc : htmlToUse (props (withCode (processThreeJsCode (x0 :: t0)) s))
                     = codeDocument (processThreeJsCode (x0 :: t0))).
      { unfold htmlToUse, withCode. cbn [props isGltf gltfUrl threeJsCode isTrue].
        rewrite Hc. reflexivity. }
      split; [exact Hdoc|].
      unfold component. rewrite Hdoc.
      destruct (codeDocument_shown (processThreeJsCode (x0 :: t0))) as (d & dt & ->).
      reflexivity.
    + intros taskId u s Hacc Htid Hwait Hu Hs.
      rewrite (vibe3DCode_rasterized w shapeId true ed b dataUrl Hsel Hb Hraster).
      unfold tryCatch. rewrite (submit_model w _ _ body taskId Hacc Htid). cbv zeta.
      rewrite Hwait. cbn [fst snd shapes]. fold target start.
      exists (withModel (VString u) s).
      rewrite lookup_alter_eq, Hs. split; [reflexivity|].
      assert (Hdoc : htmlToUse (props (withModel (VString u) s)) = gltfDocument u).
      { destruct u as [|x t]; [contradiction|]. reflexivity. }
      split; [exact Hdoc|].
      unfold component. rewrite Hdoc.
      destruct (gltfDocument_shown u) as (d & dt & ->). reflexivity.
Qed.

Lemma preview_after_orchestrators_witness :
  exists s',
    shapes (snd (vibe3DCode (answeringWorld longSceneDone) None false emptyEditor))
      !! 7 = Some s' /\
    htmlToUse (props s') = codeDocument (processThreeJsCode (List.repeat 120 120%nat)) /\
    component (props s') false false
    = Frame (codeDocument (processThreeJsCode (List.repeat 120 120%nat))) None.
Proof.
  refine (proj1 (proj2 (proj2 (preview_after_orchestrators
                   (answeringWorld longSceneDone) None emptyEditor sampleBounds
                   (js "data:image/png;base64,AAAA")
                   (JsonBody None (Some (js "t1")) (Some (Some (js "t1")))))
                 _ eq_refl (answeringWorld_rasterOk _)))
            (List.repeat 120 120%nat)
            (previewShape 7 sampleBounds [drawing])
            (answeringWorld_accepted _ _) eq_refl _ eq_refl).
  - discriminate.
  - apply Nat.leb_le. vm_compute. reflexivity.
Defined.


(* ===================================================================== *)
(** ** The snapshot of the preview element *)
(* ===================================================================== *)

Section ToSvgProofs.
Context (toString : float -> jsstring) (shapeId : TLShapeId) (box : boxProps).

#[local] Abbreviation imageOf d :=
  (SvgImage (orElse (screenshot d) []) (toString (w box)) (toString (h box))).

Lemma deliverMessage_deaf st ev :
  listening st = false -> deliverMessage toString shapeId box st ev = st.
Proof. unfold deliverMessage. intros ->. reflexivity. Qed.

Lemma deaf_fold evs st :
  listening st = false ->
  fold_left (deliverMessage toString shapeId box) evs st = st.
Proof.
  revert st. induction evs as [|ev evs IH]; intros st H; [reflexivity|].
  simpl. rewrite deliverMessage_deaf by exact H. apply IH, H.
Qed.

(** The messages that arrive while the listener is on: the first
    screenshot of this shape ends the wait, the others change nothing. *)
Lemma listening_fold evs req :
  fold_left (deliverMessage toString shapeId box) evs (Snapshot [] true true 0 req)
  = match List.find (isScreenshot shapeId) evs with
    | Some (WithData d) => Snapshot [imageOf d] false false 1 req
    | _ => Snapshot [] true true 0 req
    end.
Proof.
  induction evs as [|ev evs IH]; [reflexivity|].
  simpl fold_left. simpl List.find.
  destruct ev as [d|].
  - unfold deliverMessage at 2. cbn [listening].
    unfold windowListener, isScreenshot. effsimpl. cbn [group resolveCalls requests].
    destruct (truthy (screenshot d)
              && match shapeid d with Some i => i =? shapeId | None => false end).
    + apply deaf_fold. reflexivity.
    + exact IH.
  - exact IH.
Qed.

Lemma find_early (arrivals : list (N * windowMessage)) :
  List.find (isScreenshot shapeId)
            (map snd (List.filter (fun a => fst a <? 2000) arrivals))
  = option_map snd
      (List.find (fun a => (fst a <? 2000) && isScreenshot shapeId (snd a)) arrivals).
Proof.
  induction arrivals as [|[t ev] l IH]; [reflexivity|].
  simpl. destruct (t <? 2000); simpl; [|exact IH].
  destruct (isScreenshot shapeId ev); [reflexivity|exact IH].
Qed.

(** X29.  [toSvg] resolves exactly once, after two seconds at the latest,
    whatever arrives on the window: the group it resolves with holds the
    image of the first message that arrives in time with a non-empty
    screenshot for this shape, in the size of the shape, and is empty
    when there is none; messages for other shapes, messages without
    screenshot or without data, and everything that arrives after the
    first screenshot or after two seconds are ignored, so that the group
    never holds more than one image.  The listener and the timer are
    removed in every case, and a screenshot is requested only when the
    frame of the shape is in the document. *)
Theorem toSvg_resolves_once (hasFrame : bool) (arrivals : list (N * windowMessage)) :
  let final := toSvg toString shapeId box hasFrame arrivals in
  resolveCalls final = 1%nat /\
  listening final = false /\ timeOut final = false /\
  group final = firstScreenshot toString shapeId box arrivals /\
  (length (group final) <= 1)%nat /\
  requests final = (if hasFrame then [shapeId] else []).
Proof.
  intros final. unfold final, toSvg, initSnapshot, firstScreenshot.
  rewrite listening_fold, find_early.
  destruct (List.find _ arrivals) as [[t [d|]]|]; cbn [option_map snd].
  - unfold fireSnapshotTimer. cbn [timeOut]. rewrite deaf_fold by reflexivity.
    cbn [resolveCalls listening timeOut group requests length]. repeat split. lia.
  - unfold fireSnapshotTimer, snapshotTimer. effsimpl.
    cbn [timeOut group listening resolveCalls requests].
    rewrite deaf_fold by reflexivity.
    cbn [resolveCalls listening timeOut group requests length]. repeat split. lia.
  - unfold fireSnapshotTimer, snapshotTimer. effsimpl.
    cbn [timeOut group listening resolveCalls requests].
    rewrite deaf_fold by reflexivity.
    cbn [resolveCalls listening timeOut group requests length]. repeat split. lia.
Qed.
End ToSvgProofs.
